(** * The wandb type descriptors ([wandb/sdk_py27/interface/dtypes.py])

    A shallow embedding of the descriptor classes ([Type] and its
    subclasses), of [TypeRegistry], of the JSON protocol
    ([to_json] / [from_json]) and of the narrowing operation [assign],
    followed by the properties of the module.

    Conventions of the embedding.
    - Python values are the inductive [pyval]; the classes the module
      dispatches on are [pyclass].  Dictionaries are insertion-ordered
      association lists with string keys, sets are duplicate-free lists
      in iteration order.
    - A call either returns or raises: [outcome].  Recursion that is not
      structural in the source ([assign] re-enters itself on the result
      of a previous call) is driven by a fuel argument; [OutOfFuel] is
      a verdict of the model only, never of the program.
    - Descriptors are the inductive [wbtype]: one constructor per class,
      the entries of [params] as constructor arguments. *)

From Stdlib Require Import ZArith List String Ascii Bool Lia Arith.
From Stdlib Require Import DecimalString Permutation Sorted.
Import ListNotations.
Open Scope string_scope.
Set Warnings "-register-all".


(* ================================================================= *)
(** ** Python values *)

(** Floats.  Equality on floats is the only thing the module asks of
    them besides their class and their [repr]: a NaN differs from every
    float, itself included, so two NaN objects are told apart by the
    identity [obj] of the object; the finite floats of the embedding are
    the whole-valued ones below [1e16] in magnitude, which [repr]
    prints as [z.0]. *)
Inductive pyfloat : Type :=
| FNan (obj : nat)
| FInf (negative : bool)
| FWhole (z : Z).

Inductive pyval : Type :=
| PNone
| PBool (b : bool)
| PInt (z : Z)
| PFloat (f : pyfloat)
| PStr (s : string)
| PList (l : list pyval)
| PTuple (l : list pyval)
| PSet (l : list pyval)
| PFrozenset (l : list pyval)
| PDict (d : list (string * pyval))
| PObj (cls : string) (obj : nat).

(** [py_obj.__class__] *)
Inductive pyclass : Type :=
| CNoneType | CBool | CInt | CFloat | CStr
| CList | CTuple | CSet | CFrozenset | CDict
| COther (name : string).

Definition class_of (v : pyval) : pyclass :=
  match v with
  | PNone => CNoneType
  | PBool _ => CBool
  | PInt _ => CInt
  | PFloat _ => CFloat
  | PStr _ => CStr
  | PList _ => CList
  | PTuple _ => CTuple
  | PSet _ => CSet
  | PFrozenset _ => CFrozenset
  | PDict _ => CDict
  | PObj c _ => COther c
  end.

(** [cls.__name__] *)
Definition class_name (c : pyclass) : string :=
  match c with
  | CNoneType => "NoneType"
  | CBool => "bool"
  | CInt => "int"
  | CFloat => "float"
  | CStr => "str"
  | CList => "list"
  | CTuple => "tuple"
  | CSet => "set"
  | CFrozenset => "frozenset"
  | CDict => "dict"
  | COther n => n
  end.

Definition pyclass_eqb (a b : pyclass) : bool :=
  match a, b with
  | CNoneType, CNoneType | CBool, CBool | CInt, CInt | CFloat, CFloat
  | CStr, CStr | CList, CList | CTuple, CTuple | CSet, CSet
  | CFrozenset, CFrozenset | CDict, CDict => true
  | COther n, COther m => String.eqb n m
  | _, _ => false
  end.

(** [c in classes] *)
Definition class_in (c : pyclass) (classes : list pyclass) : bool :=
  existsb (pyclass_eqb c) classes.

(* ----------------------------------------------------------------- *)
(** *** Dictionaries *)

Section Dict.
Context {V : Type}.

(** [d.get(key)] *)
Fixpoint dict_get (key : string) (d : list (string * V)) : option V :=
  match d with
  | [] => None
  | (k, v) :: rest => if String.eqb key k then Some v else dict_get key rest
  end.

(** [key in d] *)
Definition dict_in (key : string) (d : list (string * V)) : bool :=
  match dict_get key d with Some _ => true | None => false end.

(** [d[key] = v]: an existing key keeps its place, a new one goes last. *)
Fixpoint dict_set (key : string) (v : V) (d : list (string * V))
  : list (string * V) :=
  match d with
  | [] => [(key, v)]
  | (k, w) :: rest =>
      if String.eqb key k then (k, v) :: rest
      else (k, w) :: dict_set key v rest
  end.

(** [del d[key]] *)
Fixpoint dict_del (key : string) (d : list (string * V))
  : list (string * V) :=
  match d with
  | [] => []
  | (k, w) :: rest =>
      if String.eqb key k then rest else (k, w) :: dict_del key rest
  end.

Definition dict_keys (d : list (string * V)) : list string := map fst d.
End Dict.

(* ----------------------------------------------------------------- *)
(** *** The [==] of Python on values *)

Section Compare.
Context {A B : Type} (eq : A -> B -> bool).

(** sequences compare element by element *)
Fixpoint seq_eq (xs : list A) (ys : list B) : bool :=
  match xs, ys with
  | [], [] => true
  | x :: xs', y :: ys' => eq x y && seq_eq xs' ys'
  | _, _ => false
  end.

(** [x in ys] *)
Definition member (x : A) (ys : list B) : bool := existsb (eq x) ys.

(** sets: same size, and every element of the one is in the other *)
Definition set_eq (xs : list A) (ys : list B) : bool :=
  Nat.eqb (List.length xs) (List.length ys) && forallb (fun x => member x ys) xs.

(** dicts: same size, and every key of the one is a key of the other
    with an equal value (keys are unique in a dict) *)
Definition dict_eq (xs : list (string * A)) (ys : list (string * B)) : bool :=
  Nat.eqb (List.length xs) (List.length ys)
  && forallb (fun kv =>
                existsb (fun kw => String.eqb (fst kv) (fst kw)
                                   && eq (snd kv) (snd kw)) ys) xs.
End Compare.

(** numbers compare by value across [bool], [int] and [float] *)
Inductive number : Type :=
| NumZ (z : Z)
| NumInf (negative : bool)
| NumNan.

Definition number_of (v : pyval) : option number :=
  match v with
  | PBool b => Some (NumZ (if b then 1 else 0))
  | PInt z => Some (NumZ z)
  | PFloat (FWhole z) => Some (NumZ z)
  | PFloat (FInf s) => Some (NumInf s)
  | PFloat (FNan _) => Some NumNan
  | _ => None
  end.

Definition number_eq (a b : number) : bool :=
  match a, b with
  | NumZ x, NumZ y => Z.eqb x y
  | NumInf s, NumInf t => Bool.eqb s t
  | _, _ => false
  end.

(** [a is b], where it can differ from [a == b]: the same NaN object. *)
Definition same_nan (a b : pyval) : bool :=
  match a, b with
  | PFloat (FNan i), PFloat (FNan j) => Nat.eqb i j
  | _, _ => false
  end.

(** [a == b].  Inside containers CPython compares with
    [a is b or a == b]; that is [item_eq]. *)
Fixpoint py_eq (a b : pyval) {struct a} : bool :=
  match a, b with
  | PNone, PNone => true
  | PStr s, PStr t => String.eqb s t
  | PList xs, PList ys
  | PTuple xs, PTuple ys =>
      seq_eq (fun x y => same_nan x y || py_eq x y) xs ys
  | (PSet xs | PFrozenset xs), (PSet ys | PFrozenset ys) =>
      set_eq (fun x y => same_nan x y || py_eq x y) xs ys
  | PDict xs, PDict ys =>
      dict_eq (fun x y => same_nan x y || py_eq x y) xs ys
  | PObj c i, PObj d j => String.eqb c d && Nat.eqb i j
  | _, _ =>
      match number_of a, number_of b with
      | Some x, Some y => number_eq x y
      | _, _ => false
      end
  end.

Definition item_eq (a b : pyval) : bool := same_nan a b || py_eq a b.

(* ================================================================= *)
(** ** Outcomes of a call *)

Inductive exn : Type :=
| TypeError (msg : string)
| AssertionError
| AttributeError (msg : string)
| KeyError (key : string).

(** [OutOfFuel] and [Unmodelled] are verdicts of the embedding, not of
    the program: the fuel given was too small, or the call was given
    [params] of a shape that [wbtype] below has no term for.  Nothing is
    stated about the program in either case. *)
Inductive outcome (A : Type) : Type :=
| Returns (a : A)
| Raises (e : exn)
| OutOfFuel
| Unmodelled.
Arguments Returns {A} a.
Arguments Raises {A} e.
Arguments OutOfFuel {A}.
Arguments Unmodelled {A}.

Definition bind {A B : Type} (c : outcome A) (k : A -> outcome B) : outcome B :=
  match c with
  | Returns a => k a
  | Raises e => Raises e
  | OutOfFuel => OutOfFuel
  | Unmodelled => Unmodelled
  end.

Notation "x <- c ;; k" := (bind c (fun x => k))
  (at level 61, c at next level, right associativity).

(** [assert cond] *)
Definition assert (cond : bool) : outcome unit :=
  if cond then Returns tt else Raises AssertionError.

(* ================================================================= *)
(** ** [repr] of values *)

Definition hex_digit (n : nat) : ascii :=
  match n with
  | 0 => "0" | 1 => "1" | 2 => "2" | 3 => "3" | 4 => "4" | 5 => "5"
  | 6 => "6" | 7 => "7" | 8 => "8" | 9 => "9" | 10 => "a" | 11 => "b"
  | 12 => "c" | 13 => "d" | 14 => "e" | _ => "f"
  end%char.

(** a code point outside the printable ones is written [\xhh] *)
Definition hex_escape (c : ascii) : string :=
  let n := nat_of_ascii c in
  String "\" (String "x" (String (hex_digit (n / 16))
                                   (String (hex_digit (n mod 16)) EmptyString))).

(** [str.isprintable] on one code point below 256 *)
Definition printable (c : ascii) : bool :=
  let n := nat_of_ascii c in
  ((32 <=? n)%nat && (n <? 127)%nat) || ((161 <=? n)%nat && negb (n =? 173)%nat).

Fixpoint contains_char (c : ascii) (s : string) : bool :=
  match s with
  | EmptyString => false
  | String d rest => Ascii.eqb c d || contains_char c rest
  end.

Definition escape_char (quote c : ascii) : string :=
  if Ascii.eqb c quote || Ascii.eqb c "\"%char then String "\" (String c EmptyString)
  else if Ascii.eqb c "009"%char then "\t"
  else if Ascii.eqb c "010"%char then "\n"
  else if Ascii.eqb c "013"%char then "\r"
  else if printable c then String c EmptyString
  else hex_escape c.

Fixpoint escape (quote : ascii) (s : string) : string :=
  match s with
  | EmptyString => EmptyString
  | String c rest => escape_char quote c ++ escape quote rest
  end.

(** [repr(s)] for a [str]: single quotes, unless the text holds a single
    quote and no double quote. *)
Definition repr_str (s : string) : string :=
  let quote := if contains_char "'"%char s && negb (contains_char "034"%char s)
               then "034"%char else "'"%char in
  String quote (escape quote s ++ String quote EmptyString).

Definition repr_int (z : Z) : string := NilZero.string_of_int (Z.to_int z).

Definition repr_float (f : pyfloat) : string :=
  match f with
  | FNan _ => "nan"
  | FInf false => "inf"
  | FInf true => "-inf"
  | FWhole z => repr_int z ++ ".0"
  end.

Definition join (sep : string) (parts : list string) : string :=
  String.concat sep parts.

Definition repr_item (key value : string) : string := key ++ ": " ++ value.

(** [repr(v)]; an object of another class prints its class and identity. *)
Fixpoint py_repr (v : pyval) : string :=
  match v with
  | PNone => "None"
  | PBool true => "True"
  | PBool false => "False"
  | PInt z => repr_int z
  | PFloat f => repr_float f
  | PStr s => repr_str s
  | PList l => "[" ++ join ", " (map py_repr l) ++ "]"
  | PTuple [x] => "(" ++ py_repr x ++ ",)"
  | PTuple l => "(" ++ join ", " (map py_repr l) ++ ")"
  | PSet [] => "set()"
  | PSet l => "{" ++ join ", " (map py_repr l) ++ "}"
  | PFrozenset [] => "frozenset()"
  | PFrozenset l => "frozenset({" ++ join ", " (map py_repr l) ++ "})"
  | PDict d =>
      "{" ++ join ", " (map (fun kv => repr_item (repr_str (fst kv))
                                                   (py_repr (snd kv))) d) ++ "}"
  | PObj c i => "<" ++ c ++ " object at " ++ repr_int (Z.of_nat i) ++ ">"
  end.

(* ================================================================= *)
(** ** Descriptors *)

(** One constructor per class; its arguments are the entries of
    [self.params].  The leaf classes have empty [params]. *)
Inductive wbtype : Type :=
| NeverType
| AnyType
| UnknownType
| NoneType
| TextType
| NumberType
| BooleanType
| Union (allowed_types : list wbtype)
| Object (class_name : string)
| ListOf (element_type : wbtype)
| Dict (type_map : list (string * wbtype)) (policy : string)
| Const (val : pyval).

(** The classes of descriptors, as [TypeRegistry] files them. *)
Inductive kind : Type :=
| KNever | KAny | KUnknown | KNone | KText | KNumber | KBoolean
| KUnion | KObject | KList | KDict | KConst.

Definition kind_of (t : wbtype) : kind :=
  match t with
  | NeverType => KNever
  | AnyType => KAny
  | UnknownType => KUnknown
  | NoneType => KNone
  | TextType => KText
  | NumberType => KNumber
  | BooleanType => KBoolean
  | Union _ => KUnion
  | Object _ => KObject
  | ListOf _ => KList
  | Dict _ _ => KDict
  | Const _ => KConst
  end.

(** [cls.name] *)
Definition kind_name (k : kind) : string :=
  match k with
  | KNever => "never"
  | KAny => "any"
  | KUnknown => "unknown"
  | KNone => "none"
  | KText => "text"
  | KNumber => "number"
  | KBoolean => "boolean"
  | KUnion => "union"
  | KObject => "object"
  | KList => "list"
  | KDict => "dictionary"
  | KConst => "const"
  end.

(** [cls.types] *)
Definition kind_types (k : kind) : list pyclass :=
  match k with
  | KNone => [CNoneType]
  | KText => [CStr]
  | KNumber => [CInt; CFloat]
  | KBoolean => [CBool]
  | KList => [CList; CTuple; CSet; CFrozenset]
  | KDict => [CDict]
  | _ => []
  end.

Definition name (t : wbtype) : string := kind_name (kind_of t).

Definition isinstance_kind (k1 k : kind) : bool :=
  match k1, k with
  | KNever, KNever | KAny, KAny | KUnknown, KUnknown | KNone, KNone
  | KText, KText | KNumber, KNumber | KBoolean, KBoolean | KUnion, KUnion
  | KObject, KObject | KList, KList | KDict, KDict | KConst, KConst => true
  | _, _ => false
  end.

(** [isinstance(t, cls)] for a descriptor class [cls] *)
Definition isinstance (t : wbtype) (k : kind) : bool :=
  isinstance_kind (kind_of t) k.

Module KeyPolicy.
Definition EXACT := "E".
Definition SUBSET := "S".
Definition UNRESTRICTED := "U".
End KeyPolicy.

(** [isinstance(py_obj, set)], for the value of a [ConstType] *)
Definition is_set (v : pyval) : bool :=
  match v with PSet _ => true | _ => false end.

(** [repr] of a [dict] given the [repr] of its items *)
Definition repr_dict (items : list (string * string)) : string :=
  "{" ++ join ", " (map (fun kv => repr_item (repr_str (fst kv)) (snd kv)) items)
      ++ "}".

Definition repr_list (items : list string) : string :=
  "[" ++ join ", " items ++ "]".

(** [Type.__repr__]: ["<WBType:{} | {}>".format(self.name, self.params)];
    [str(t)] is the same text. *)
Fixpoint type_repr (t : wbtype) : string :=
  let params :=
    match t with
    | Union ms => repr_dict [("allowed_types", repr_list (map type_repr ms))]
    | Object c => repr_dict [("class_name", repr_str c)]
    | ListOf e => repr_dict [("element_type", type_repr e)]
    | Dict tm p =>
        repr_dict [("type_map",
                    repr_dict (map (fun kv => (fst kv, type_repr (snd kv))) tm));
                   ("policy", repr_str p)]
    | Const v =>
        repr_dict (("val", py_repr v)
                   :: if is_set v then [("is_set", "True")] else [])
    | _ => "{}"
    end in
  "<WBType:" ++ name t ++ " | " ++ params ++ ">".

Definition str := type_repr.

(* ================================================================= *)
(** ** Serialization *)

(** [Type.to_json]: [{"wb_type": name, "params": ...}], the [params]
    entry deleted when it is empty.  [params] is walked by
    [_params_obj_to_json_obj]: descriptors are serialized, dicts and
    lists are walked, anything else (the value of a [ConstType], a
    class name, a policy) passes as it is. *)
Definition json_res (wb_type : string) (params : list (string * pyval)) : pyval :=
  PDict (("wb_type", PStr wb_type)
         :: match params with
            | [] => []
            | _ => [("params", PDict params)]
            end).

Fixpoint to_json (t : wbtype) : pyval :=
  json_res (name t)
    match t with
    | Union ms => [("allowed_types", PList (map to_json ms))]
    | Object c => [("class_name", PStr c)]
    | ListOf e => [("element_type", to_json e)]
    | Dict tm p =>
        [("type_map", PDict (map (fun kv => (fst kv, to_json (snd kv))) tm));
         ("policy", PStr p)]
    | Const v =>
        ("val", v) :: if is_set v then [("is_set", PBool true)] else []
    | _ => []
    end.

(** [Type.__eq__]: identity, or equal serializations. *)
Definition type_eq (a b : wbtype) : bool := py_eq (to_json a) (to_json b).

Notation "a == b" := (type_eq a b) (at level 70, no associativity).

(* ================================================================= *)
(** ** [UnionType]: flattening and canonical order *)

(** [UnionType._flatten_types] *)
Fixpoint flatten_type (t : wbtype) : list wbtype :=
  match t with
  | Union ms => flat_map flatten_type ms
  | _ => [t]
  end.

Definition flatten_types (allowed_types : list wbtype) : list wbtype :=
  flat_map flatten_type allowed_types.

(** [list.sort(key=...)]: a stable sort; an element goes in front of the
    first one whose key is not smaller. *)
Section Sort.
Context {A : Type} (key : A -> string).

Fixpoint insert (x : A) (sorted : list A) : list A :=
  match sorted with
  | [] => [x]
  | y :: rest =>
      if String.leb (key x) (key y) then x :: sorted
      else y :: insert x rest
  end.

Definition sort (l : list A) : list A := fold_right insert [] l.
End Sort.

(** [UnionType(py_obj)] for a list of descriptors *)
Definition UnionType (py_obj : list wbtype) : wbtype :=
  Union (sort str (flatten_types py_obj)).

(** [OptionalType(wb_type)] *)
Definition OptionalType (wb_type : wbtype) : wbtype :=
  UnionType [wb_type; NoneType].

(** [ObjectType(py_obj)] *)
Definition ObjectType (py_obj : pyval) : outcome wbtype :=
  match py_obj with
  | PNone => Raises (TypeError "Both py_obj and params cannot be none")
  | _ => Returns (Object (class_name (class_of py_obj)))
  end.

(** [ConstType(py_obj)] *)
Definition const_supported_types : list pyclass := [CStr; CInt; CFloat; CBool; CSet].

Definition ConstType (py_obj : pyval) : outcome wbtype :=
  match py_obj with
  | PNone => Raises (TypeError "Both py_obj and params cannot be none")
  | _ =>
      _ <- assert (class_in (class_of py_obj) const_supported_types) ;;
      Returns (Const py_obj)
  end.

(* ================================================================= *)
(** ** [TypeRegistry] *)

Module TypeRegistry.
Record t : Type := {
  types_by_name : list (string * kind);
  types_by_class : list (pyclass * kind)
}.

Definition empty : t := {| types_by_name := []; types_by_class := [] |}.

Fixpoint class_get (c : pyclass) (m : list (pyclass * kind)) : option kind :=
  match m with
  | [] => None
  | (c', k) :: rest => if pyclass_eqb c c' then Some k else class_get c rest
  end.

Fixpoint class_set (c : pyclass) (k : kind) (m : list (pyclass * kind))
  : list (pyclass * kind) :=
  match m with
  | [] => [(c, k)]
  | (c', k') :: rest =>
      if pyclass_eqb c c' then (c', k) :: rest
      else (c', k') :: class_set c k rest
  end.

(** [TypeRegistry.add(wb_type)] *)
Definition add (r : t) (wb_type : kind) : t :=
  {| types_by_name := dict_set (kind_name wb_type) wb_type (types_by_name r);
     types_by_class :=
       fold_left (fun m c => class_set c wb_type m) (kind_types wb_type)
                 (types_by_class r) |}.

(** The registrations at the end of the module, in their order. *)
Definition registry : t :=
  fold_left add
    [KNever; KAny; KUnknown;
     KNone; KText; KNumber; KBoolean; KList; KDict;
     KUnion; KObject; KConst]
    empty.
End TypeRegistry.

(* ================================================================= *)
(** ** Loops with an early [return] *)

Section Loops.
Context {S A : Type}.

(** a [for] loop over [items] threading a state *)
Fixpoint for_each (step : S -> A -> outcome S) (items : list A) (s : S)
  : outcome S :=
  match items with
  | [] => Returns s
  | x :: rest => s' <- step s x ;; for_each step rest s'
  end.

(** the same, where a step may leave the function with
    [return NeverType] ([None]) *)
Fixpoint for_each_until (step : S -> A -> outcome (option S))
         (items : list A) (s : S) : outcome (option S) :=
  match items with
  | [] => Returns (Some s)
  | x :: rest =>
      r <- step s x ;;
      match r with
      | Some s' => for_each_until step rest s'
      | None => Returns None
      end
  end.
End Loops.

(* ================================================================= *)
(** ** Inference and narrowing *)

Definition is_None (v : pyval) : bool :=
  match v with PNone => true | _ => false end.

(** the items a [for] loop over a list, tuple, set or frozenset visits *)
Definition items_of (v : pyval) : list pyval :=
  match v with
  | PList l | PTuple l | PSet l | PFrozenset l => l
  | _ => []
  end.

Definition entries_of (v : pyval) : list (string * pyval) :=
  match v with PDict d => d | _ => [] end.

(** State of the loop of [UnionType.assign] *)
Record union_state : Type := {
  resolved_types : list wbtype;
  valid : bool;
  unknown_count : nat
}.

Section AssignBodies.
Local Open Scope list_scope.
(** the recursive calls of the bodies below *)
Variable assign : wbtype -> pyval -> outcome wbtype.
Variable type_of : pyval -> outcome wbtype.

(** body of the loop of [UnionType.assign] *)
Definition union_step (py_obj : pyval) (st : union_state)
           (allowed_type : wbtype) : outcome union_state :=
  if valid st then
    Returns {| resolved_types := resolved_types st ++ [allowed_type];
               valid := true;
               unknown_count := unknown_count st |}
  else if isinstance allowed_type KUnknown then
    Returns {| resolved_types := resolved_types st;
               valid := false;
               unknown_count := unknown_count st + 1 |}
  else
    assigned_type <- assign allowed_type py_obj ;;
    if assigned_type == NeverType then
      Returns {| resolved_types := resolved_types st ++ [allowed_type];
                 valid := false;
                 unknown_count := unknown_count st |}
    else
      Returns {| resolved_types := resolved_types st ++ [assigned_type];
                 valid := true;
                 unknown_count := unknown_count st |}.

(** [UnionType.assign] *)
Definition union_assign (allowed_types : list wbtype) (py_obj : pyval)
  : outcome wbtype :=
  st <- for_each (union_step py_obj) allowed_types
                 {| resolved_types := []; valid := false; unknown_count := 0 |} ;;
  let finish (resolved : list wbtype) (count : nat) :=
    let resolved := resolved ++ repeat UnknownType count in
    let resolved := sort str (flatten_types resolved) in
    Returns (UnionType resolved) in
  if valid st then finish (resolved_types st) (unknown_count st)
  else if Nat.eqb (unknown_count st) 0 then Returns NeverType
  else
    new_type <- assign UnknownType py_obj ;;
    if new_type == NeverType then Returns NeverType
    else finish (resolved_types st ++ [new_type]) (unknown_count st - 1).

(** [ListType.assign] *)
Definition list_step (new_element_type : wbtype) (obj : pyval)
  : outcome (option wbtype) :=
  new_element_type <- assign new_element_type obj ;;
  if new_element_type == NeverType then Returns None
  else Returns (Some new_element_type).

Definition list_assign (element_type : wbtype) (py_obj : pyval)
  : outcome wbtype :=
  if is_None py_obj || negb (class_in (class_of py_obj) (kind_types KList))
  then Returns NeverType
  else
    r <- for_each_until list_step (items_of py_obj) element_type ;;
    match r with
    | None => Returns NeverType
    | Some new_element_type => Returns (ListOf new_element_type)
    end.

(** [ListType(py_obj)]: the element type is inferred from the items;
    [_elm_type is NeverType] tests for the singleton, which is what
    every rejecting [assign] returns. *)
Definition list_init_step (elm_type : wbtype) (item : pyval)
  : outcome wbtype :=
  _elm_type <- assign elm_type item ;;
  match _elm_type with
  | NeverType =>
      Raises (TypeError "List contained incompatible types")
  | _ => Returns _elm_type
  end.

Definition ListType (py_obj : pyval) : outcome wbtype :=
  _ <- assert (class_in (class_of py_obj) (kind_types KList)) ;;
  let py_list := items_of py_obj in
  let elm_type := if negb (member item_eq PNone py_list) then UnknownType
                  else OptionalType UnknownType in
  elm_type <- for_each list_init_step py_list elm_type ;;
  Returns (ListOf elm_type).

(** [DictType(py_obj, key_policy)] *)
Definition DictType (py_obj : pyval) (key_policy : string) : outcome wbtype :=
  type_map <- for_each (fun m kv =>
                          v <- type_of (snd kv) ;;
                          Returns (dict_set (fst kv) v m))
                       (entries_of py_obj) [] ;;
  Returns (Dict type_map key_policy).

(** [DictType.assign], the loop over the known keys *)
Definition dict_known_step (py_obj : list (string * pyval)) (policy : string)
           (new_type_map : list (string * wbtype)) (entry : string * wbtype)
  : outcome (option (list (string * wbtype))) :=
  let key := fst entry in
  match dict_get key py_obj with
  | Some value =>
      new_type <- assign (snd entry) value ;;
      if new_type == NeverType then Returns None
      else Returns (Some (dict_set key new_type new_type_map))
  | None =>
      new_type <- assign (snd entry) PNone ;;
      if new_type == NeverType then
        if String.eqb policy KeyPolicy.EXACT then Returns None
        else if String.eqb policy KeyPolicy.SUBSET
                || String.eqb policy KeyPolicy.UNRESTRICTED
             then Returns (Some (dict_set key (snd entry) new_type_map))
             else Returns (Some new_type_map)
      else Returns (Some (dict_set key new_type new_type_map))
  end.

(** [DictType.assign], the loop over the keys of the value *)
Definition dict_value_step (policy : string)
           (new_type_map : list (string * wbtype)) (item : string * pyval)
  : outcome (option (list (string * wbtype))) :=
  let key := fst item in
  if negb (dict_in key new_type_map) then
    if String.eqb policy KeyPolicy.EXACT || String.eqb policy KeyPolicy.SUBSET
    then Returns None
    else if String.eqb policy KeyPolicy.UNRESTRICTED then
      new_type <- (if pyclass_eqb (class_of (snd item)) CDict
                   then DictType (snd item) policy
                   else type_of (snd item)) ;;
      Returns (Some (dict_set key new_type new_type_map))
    else Returns (Some new_type_map)
  else Returns (Some new_type_map).

Definition dict_assign (type_map : list (string * wbtype)) (policy : string)
           (py_obj : pyval) : outcome wbtype :=
  if is_None py_obj || negb (class_in (class_of py_obj) (kind_types KDict))
  then Returns NeverType
  else
    r <- for_each_until (dict_known_step (entries_of py_obj) policy)
                        type_map [] ;;
    match r with
    | None => Returns NeverType
    | Some new_type_map =>
        r <- for_each_until (dict_value_step policy)
                            (entries_of py_obj) new_type_map ;;
        match r with
        | None => Returns NeverType
        | Some new_type_map => Returns (Dict new_type_map policy)
        end
    end.

(** [cls(py_obj)] for the class a value's class is registered under *)
Definition construct (k : kind) (py_obj : pyval) : outcome wbtype :=
  match k with
  | KNever => Returns NeverType
  | KAny => Returns AnyType
  | KUnknown => Returns UnknownType
  | KNone => Returns NoneType
  | KText => Returns TextType
  | KNumber => Returns NumberType
  | KBoolean => Returns BooleanType
  | KList => ListType py_obj
  | KDict => DictType py_obj KeyPolicy.EXACT
  | KObject => ObjectType py_obj
  | KConst => ConstType py_obj
  | KUnion =>
      match py_obj with
      | PNone => Raises (TypeError "Both py_obj and params cannot be none")
      | _ => Raises AssertionError
      end
  end.

(** [TypeRegistry.type_of] *)
Definition type_of_body (py_obj : pyval) : outcome wbtype :=
  match TypeRegistry.class_get (class_of py_obj)
          (TypeRegistry.types_by_class TypeRegistry.registry) with
  | Some class_handler => construct class_handler py_obj
  | None => ObjectType py_obj
  end.

(** [t.assign(py_obj)], one class at a time *)
Definition assign_body (t : wbtype) (py_obj : pyval) : outcome wbtype :=
  match t with
  | NeverType => Returns t
  | AnyType => Returns (if negb (is_None py_obj) then t else NeverType)
  | UnknownType =>
      if is_None py_obj then Returns NeverType else type_of py_obj
  | NoneType => Returns (if is_None py_obj then t else NeverType)
  | TextType =>
      Returns (if pyclass_eqb (class_of py_obj) CStr then t else NeverType)
  | NumberType =>
      Returns (if class_in (class_of py_obj) [CInt; CFloat] then t
               else NeverType)
  | BooleanType =>
      Returns (if pyclass_eqb (class_of py_obj) CBool then t else NeverType)
  | Union allowed_types => union_assign allowed_types py_obj
  | Object c =>
      Returns (if String.eqb (class_name (class_of py_obj)) c then t
               else NeverType)
  | ListOf element_type => list_assign element_type py_obj
  | Dict type_map policy => dict_assign type_map policy py_obj
  | Const val => Returns (if py_eq val py_obj then t else NeverType)
  end.
End AssignBodies.

(** [assign] and [TypeRegistry.type_of] call each other; each call
    spends one unit of fuel. *)
Fixpoint assign (fuel : nat) (t : wbtype) (py_obj : pyval) : outcome wbtype :=
  match fuel with
  | O => OutOfFuel
  | S fuel' => assign_body (assign fuel') (type_of fuel') t py_obj
  end
with type_of (fuel : nat) (py_obj : pyval) : outcome wbtype :=
  match fuel with
  | O => OutOfFuel
  | S fuel' => type_of_body (assign fuel') (type_of fuel') py_obj
  end.

(* ================================================================= *)
(** ** Deserialization *)

(** What [_json_obj_to_params_obj] rebuilds: descriptors, dicts and
    lists of rebuilt objects, and values passed through. *)
Inductive pobj : Type :=
| OType (t : wbtype)
| ODict (d : list (string * pobj))
| OList (l : list pobj)
| OVal (v : pyval).

Section Traverse.
Context {A B : Type} (f : A -> outcome B).

(** a comprehension [[f(x) for x in l]] *)
Fixpoint traverse (l : list A) : outcome (list B) :=
  match l with
  | [] => Returns []
  | x :: rest =>
      y <- f x ;; ys <- traverse rest ;; Returns (y :: ys)
  end.
End Traverse.

(** [hash(v)] succeeds *)
Fixpoint hashable (v : pyval) : bool :=
  match v with
  | PList _ | PSet _ | PDict _ => false
  | PTuple l => forallb hashable l
  | _ => true
  end.

Definition as_types (l : list pobj) : option (list wbtype) :=
  fold_right (fun o acc =>
                match o, acc with
                | OType t, Some ts => Some (t :: ts)
                | _, _ => None
                end) (Some []) l.

Definition as_type_map (d : list (string * pobj))
  : option (list (string * wbtype)) :=
  fold_right (fun kv acc =>
                match snd kv, acc with
                | OType t, Some m => Some ((fst kv, t) :: m)
                | _, _ => None
                end) (Some []) d.

Definition both_none : exn := TypeError "Both py_obj and params cannot be none".

(** [cls(params=params)]: the constructor of each class called the way
    [from_json] calls it, [py_obj] left out.  The constructors keep the
    dict they are given, so [params] other than those [to_json] writes
    for the class are [Unmodelled], except where an assertion or a
    lookup of the constructor rejects them. *)
Definition construct_from_params (k : kind) (params : pobj)
  : outcome wbtype :=
  let leaf (t : wbtype) :=
    match params with
    | OVal PNone | ODict [] => Returns t
    | _ => Unmodelled
    end in
  match k with
  | KNever => leaf NeverType
  | KAny => leaf AnyType
  | KUnknown => leaf UnknownType
  | KNone => leaf NoneType
  | KText => leaf TextType
  | KNumber => leaf NumberType
  | KBoolean => leaf BooleanType
  | KUnion =>
      match params with
      | OVal PNone => Raises both_none
      | ODict d =>
          match dict_get "allowed_types" d, d with
          | None, _ => Raises (KeyError "allowed_types")
          | Some (OList items), [_] =>
              match as_types items with
              | Some ts => Returns (UnionType ts)
              | None => Unmodelled
              end
          | Some _, _ => Unmodelled
          end
      | _ => Raises AssertionError
      end
  | KObject =>
      match params with
      | OVal PNone => Raises both_none
      | ODict d =>
          match dict_get "class_name" d, d with
          | None, _ => Raises AssertionError
          | Some (OVal (PStr c)), [_] =>
              if (0 <? String.length c)%nat then Returns (Object c)
              else Raises AssertionError
          | Some _, _ => Unmodelled
          end
      | _ => Raises AssertionError
      end
  | KList =>
      match params with
      | OVal PNone => Returns (ListOf UnknownType)
      | ODict d =>
          match dict_get "element_type" d, d with
          | Some (OType e), [_] => Returns (ListOf e)
          | Some (OType e), _ => Unmodelled
          | _, _ => Raises AssertionError
          end
      | _ => Raises AssertionError
      end
  | KDict =>
      match params with
      | OVal PNone => Returns (Dict [] KeyPolicy.EXACT)
      | ODict [(k1, ODict tm); (k2, OVal (PStr p))] =>
          if String.eqb k1 "type_map" && String.eqb k2 "policy" then
            match as_type_map tm with
            | Some m => Returns (Dict m p)
            | None => Unmodelled
            end
          else Unmodelled
      | _ => Unmodelled
      end
  | KConst =>
      match params with
      | OVal PNone => Raises both_none
      | _ => Raises AssertionError
      end
  end.

(** [types_by_name().get(wb_type)], where [wb_type] is what
    [json_dict.get("wb_type")] gave ([None] when the key is missing) *)
Definition handler_for (wb_type : option pyval) : outcome (option kind) :=
  match wb_type with
  | Some (PStr s) =>
      Returns (dict_get s (TypeRegistry.types_by_name TypeRegistry.registry))
  | Some v =>
      if hashable v then Returns None
      else Raises (TypeError "unhashable type")
  | None => Returns None
  end.

(** [TypeRegistry.type_from_dict] and [Type._json_obj_to_params_obj].
    The two [TypeError(...)] expressions of [type_from_dict] build an
    exception and drop it, so they leave no trace here; the call of
    [from_json] on a missing handler is what raises. *)
Fixpoint type_from_dict (fuel : nat) (json_dict : pyval)
  : outcome wbtype :=
  match fuel with
  | O => OutOfFuel
  | S fuel' =>
      match json_dict with
      | PDict d =>
          let wb_type := dict_get "wb_type" d in
          _type <- handler_for wb_type ;;
          match _type with
          | None =>
              Raises (AttributeError
                        "'NoneType' object has no attribute 'from_json'")
          | Some cls =>
              params <- json_obj_to_params_obj fuel'
                          match dict_get "params" d with
                          | Some p => p
                          | None => PDict []
                          end ;;
              construct_from_params cls params
          end
      | _ => Raises (AttributeError "object has no attribute 'get'")
      end
  end
with json_obj_to_params_obj (fuel : nat) (json_obj : pyval) : outcome pobj :=
  match fuel with
  | O => OutOfFuel
  | S fuel' =>
      match json_obj with
      | PDict d =>
          if dict_in "wb_type" d then
            t <- type_from_dict fuel' json_obj ;;
            Returns (OType t)
          else
            items <- traverse (fun kv =>
                                 o <- json_obj_to_params_obj fuel' (snd kv) ;;
                                 Returns (fst kv, o)) d ;;
            Returns (ODict items)
      | PList l =>
          items <- traverse (json_obj_to_params_obj fuel') l ;;
          Returns (OList items)
      | _ => Returns (OVal json_obj)
      end
  end.


(* ================================================================= *)
(** ** Descriptors the constructors build *)

Fixpoint sorted_by {A : Type} (key : A -> string) (l : list A) : bool :=
  match l with
  | [] => true
  | x :: rest =>
      match rest with
      | [] => true
      | y :: _ => String.leb (key x) (key y) && sorted_by key rest
      end
  end.

Fixpoint distinct (keys : list string) : bool :=
  match keys with
  | [] => true
  | k :: rest => negb (existsb (String.eqb k) rest) && distinct rest
  end.

(** [well_formed t]: [t] is what the constructors of the module return.
    A [UnionType] holds no [UnionType] and is sorted by [str]
    ([UnionType.__init__] flattens and sorts); the keys of a [type_map]
    are the keys of a dict; the value of a [ConstType] has one of
    [_const_supported_types] as its class; an [ObjectType] holds the
    name of a class. *)
Fixpoint well_formed (t : wbtype) : bool :=
  match t with
  | Union ms =>
      forallb well_formed ms
      && forallb (fun m => negb (isinstance m KUnion)) ms
      && sorted_by str ms
  | Object c => negb (String.eqb c EmptyString)
  | ListOf e => well_formed e
  | Dict tm _ =>
      forallb (fun kv => well_formed (snd kv)) tm && distinct (map fst tm)
  | Const v => class_in (class_of v) const_supported_types
  | _ => true
  end.

(** [decodable t]: no [ConstType] occurs in [t], and no [type_map] of
    [t] has the key ["wb_type"], which [_json_obj_to_params_obj] takes
    for the discriminant of a descriptor. *)
Fixpoint decodable (t : wbtype) : bool :=
  match t with
  | Union ms => forallb decodable ms
  | ListOf e => decodable e
  | Dict tm _ =>
      forallb (fun kv => decodable (snd kv)) tm
      && negb (dict_in "wb_type" tm)
  | Const _ => false
  | _ => true
  end.

(** nesting depth of the serialization of [t] *)
Fixpoint depth (t : wbtype) : nat :=
  match t with
  | Union ms => S (fold_right (fun m d => Nat.max (depth m) d) 0 ms)
  | ListOf e => S (depth e)
  | Dict tm _ => S (fold_right (fun kv d => Nat.max (depth (snd kv)) d) 0 tm)
  | _ => 1
  end.

(* ================================================================= *)
(** ** Values whose inference succeeds *)

Section All.
Context {A : Type} (P : A -> Prop).

Fixpoint All (l : list A) : Prop :=
  match l with
  | [] => True
  | x :: rest => P x /\ All rest
  end.
End All.

(** [inferable v]: [TypeRegistry.type_of] returns a descriptor for [v]
    and for every value held inside [v] (the items of a list, tuple, set
    or frozenset, the values of a dict), at every depth. *)
Fixpoint inferable (v : pyval) : Prop :=
  (exists fuel t, type_of fuel v = Returns t)
  /\ match v with
     | PList l | PTuple l | PSet l | PFrozenset l => All inferable l
     | PDict d => All (fun kv => inferable (snd kv)) d
     | _ => True
     end.

(** size of a value; [None] is smaller than every container *)
Fixpoint vsize (v : pyval) : nat :=
  match v with
  | PList l | PTuple l | PSet l | PFrozenset l =>
      S (S (fold_right (fun x n => vsize x + n) 0 l))
  | PDict d => S (S (fold_right (fun kv n => vsize (snd kv) + n) 0 d))
  | _ => 1
  end.

(* ================================================================= *)
(** ** Union narrowing as the specification words it *)

(** Outcome of scanning the members of a union for a value: either a
    member accepted it, or none did. *)
Inductive scan_result : Type :=
| Accepted (rejecting : list wbtype) (narrowed : wbtype) (later : list wbtype)
           (unknowns : nat)
| NotAccepted (rejecting : list wbtype) (unknowns : nat).

Definition skip_unknown (r : scan_result) : scan_result :=
  match r with
  | Accepted rejecting narrowed later k => Accepted rejecting narrowed later (S k)
  | NotAccepted rejecting k => NotAccepted rejecting (S k)
  end.

Definition keep_member (m : wbtype) (r : scan_result) : scan_result :=
  match r with
  | Accepted rejecting narrowed later k =>
      Accepted (m :: rejecting) narrowed later k
  | NotAccepted rejecting k => NotAccepted (m :: rejecting) k
  end.

(** The scan of the specification: the members are visited in order; an
    [Unknown] met before any acceptance is counted and skipped; the
    first other member whose narrowing of the value is not [Never] is
    replaced by that narrowing and the members after it are left as they
    are. *)
Fixpoint spec_scan (narrow : wbtype -> outcome wbtype) (members : list wbtype)
  : outcome scan_result :=
  match members with
  | [] => Returns (NotAccepted [] 0)
  | m :: later =>
      if isinstance m KUnknown then
        r <- spec_scan narrow later ;; Returns (skip_unknown r)
      else
        narrowed <- narrow m ;;
        if narrowed == NeverType then
          r <- spec_scan narrow later ;; Returns (keep_member m r)
        else Returns (Accepted [] narrowed later 0)
  end.

(** The narrowed union of the specification.  [infer] is the inference
    on the value that resolves a consumed [Unknown]; the [Unknown]s left
    over stay members of the result, which the [UnionType] constructor
    flattens and sorts. *)
Definition spec_union_assign (narrow : wbtype -> outcome wbtype)
           (infer : outcome wbtype) (members : list wbtype) : outcome wbtype :=
  r <- spec_scan narrow members ;;
  match r with
  | Accepted rejecting narrowed later k =>
      Returns (UnionType (rejecting ++ [narrowed] ++ later
                                    ++ repeat UnknownType k)%list)
  | NotAccepted _ 0 => Returns NeverType
  | NotAccepted rejecting (S k) =>
      resolved <- infer ;;
      if resolved == NeverType then Returns NeverType
      else Returns (UnionType (rejecting ++ [resolved]
                                         ++ repeat UnknownType k)%list)
  end.

(** the state of the loop of [UnionType.assign] that a scan stands for *)
Definition merge_scan (st : union_state) (r : scan_result) : union_state :=
  match r with
  | Accepted rejecting narrowed later k =>
      {| resolved_types := resolved_types st ++ rejecting ++ [narrowed] ++ later;
         valid := true;
         unknown_count := unknown_count st + k |}
  | NotAccepted rejecting k =>
      {| resolved_types := resolved_types st ++ rejecting;
         valid := false;
         unknown_count := unknown_count st + k |}
  end%list.

(* ================================================================= *)
(** ** Dict narrowing as the specification words it *)

Section Collect.
Context {A B : Type} (f : A -> outcome (option B)).

(** results of [f] over [l], in order; the first [None] decides *)
Fixpoint collect (l : list A) : outcome (option (list B)) :=
  match l with
  | [] => Returns (Some [])
  | x :: rest =>
      r <- f x ;;
      match r with
      | None => Returns None
      | Some y => rs <- collect rest ;; Returns (option_map (cons y) rs)
      end
  end.
End Collect.

(** A key known to the descriptor.  Present in the value: its
    descriptor is narrowed against the value under the key, and a failed
    narrowing fails the assignment ([None]).  Absent: its descriptor is
    narrowed as if [None] were assigned; if that fails, [EXACT] fails
    the assignment and [SUBSET] and [UNRESTRICTED] keep the key's
    descriptor as it was. *)
Definition spec_known_key (narrow : wbtype -> pyval -> outcome wbtype)
           (policy : string) (value : list (string * pyval))
           (entry : string * wbtype) : outcome (option (string * wbtype)) :=
  match dict_get (fst entry) value with
  | Some x =>
      r <- narrow (snd entry) x ;;
      Returns (if r == NeverType then None else Some (fst entry, r))
  | None =>
      r <- narrow (snd entry) PNone ;;
      Returns (if r == NeverType then
                 if String.eqb policy KeyPolicy.EXACT then None
                 else Some entry
               else Some (fst entry, r))
  end.

(** A key of the value that the descriptor does not know: [EXACT] and
    [SUBSET] fail the assignment; [UNRESTRICTED] adds the key with an
    inferred descriptor, a nested dict becoming a [DictType] under the
    same policy. *)
Definition spec_new_key (infer : pyval -> outcome wbtype) (policy : string)
           (item : string * pyval) : outcome (option (string * wbtype)) :=
  if String.eqb policy KeyPolicy.UNRESTRICTED then
    t <- match snd item with
         | PDict _ => DictType infer (snd item) policy
         | x => infer x
         end ;;
    Returns (Some (fst item, t))
  else Returns None.

Definition spec_dict_assign (narrow : wbtype -> pyval -> outcome wbtype)
           (infer : pyval -> outcome wbtype)
           (type_map : list (string * wbtype)) (policy : string)
           (value : list (string * pyval)) : outcome wbtype :=
  known <- collect (spec_known_key narrow policy value) type_map ;;
  match known with
  | None => Returns NeverType
  | Some known =>
      added <- collect (spec_new_key infer policy)
                       (filter (fun item => negb (dict_in (fst item) type_map))
                               value) ;;
      match added with
      | None => Returns NeverType
      | Some added => Returns (Dict (known ++ added) policy)
      end
  end.

(* ================================================================= *)
(** ** Scalar values *)

(** [scalar v]: [v] is [None], a [bool], an [int], a [float], a [str] or
    an instance of a class the registry does not know; not a list,
    tuple, set, frozenset or dict. *)
Definition scalar (v : pyval) : bool :=
  match v with
  | PNone | PBool _ | PInt _ | PFloat _ | PStr _ | PObj _ _ => true
  | _ => false
  end.

(* ================================================================= *)
(** ** Notions used by the proofs *)

(** [approx r r']: [r'] is [r], unless [r] ran out of fuel. *)
Definition approx {A : Type} (r r' : outcome A) : Prop :=
  r = OutOfFuel \/ r = r'.

(** order of the sort keys *)
Definition key_le {A : Type} (key : A -> string) (x y : A) : Prop :=
  String.leb (key x) (key y) = true.

(** the elements of [l] filed under the key [c], in their order *)
Definition filed {A : Type} (key : A -> string) (c : string) (l : list A)
  : list A :=
  filter (fun x => String.eqb (key x) c) l.

(** no member is a union *)
Definition flat (l : list wbtype) : Prop :=
  Forall (fun m => isinstance m KUnion = false) l.

(* ================================================================= *)
(** ** The descriptors as objects in a store *)

(** The definitions above treat descriptors as values.  The source
    builds them as objects: a descriptor holds a reference to its
    [params] dict, a dict and a list hold references to descriptors, and
    [append], [d[key] = x] and [sort] update an object in place.  This
    module follows [assign] object by object, to see which objects it
    writes to. *)
Module Store.

(** what a dict or a list holds: a reference to an object of the store,
    or a value *)
Inductive hval : Type :=
| Ref (a : nat)
| Val (v : pyval).

Inductive cell : Type :=
| TypeObj (k : kind) (params : nat)
| DictObj (entries : list (string * hval))
| ListObj (items : list hval).

Definition heap : Type := list cell.

(** a computation on the store *)
Definition M (A : Type) : Type := heap -> outcome (A * heap).

Definition ret {A : Type} (x : A) : M A := fun h => Returns (x, h).

Definition bindM {A B : Type} (m : M A) (k : A -> M B) : M B :=
  fun h =>
    match m h with
    | Returns (x, h') => k x h'
    | Raises e => Raises e
    | OutOfFuel => OutOfFuel
    | Unmodelled => Unmodelled
    end.

Notation "x <~ c ;; k" := (bindM c (fun x => k))
  (at level 61, c at next level, right associativity).

Definition raise {A : Type} (e : exn) : M A := fun _ => Raises e.
Definition out_of_fuel {A : Type} : M A := fun _ => OutOfFuel.
Definition unmodelled {A : Type} : M A := fun _ => Unmodelled.

(** a new object *)
Definition alloc (c : cell) : M nat :=
  fun h => Returns (List.length h, h ++ [c])%list.

Definition load (a : nat) : M cell :=
  fun h =>
    match nth_error h a with
    | Some c => Returns (c, h)
    | None => Unmodelled
    end.

(** an update in place of the object at [a] *)
Definition store (a : nat) (c : cell) : M unit :=
  fun h =>
    if (a <? List.length h)%nat
    then Returns (tt, firstn a h ++ c :: skipn (S a) h)%list
    else Unmodelled.

(** a computation that only reads the store *)
Definition read {A : Type} (f : heap -> outcome A) : M A :=
  fun h => match f h with
           | Returns x => Returns (x, h)
           | Raises e => Raises e
           | OutOfFuel => OutOfFuel
           | Unmodelled => Unmodelled
           end.

Section LoopsM.
Context {S A : Type}.

Fixpoint for_each_M (step : S -> A -> M S) (items : list A) (s : S) : M S :=
  match items with
  | [] => ret s
  | x :: rest => s' <~ step s x ;; for_each_M step rest s'
  end.

Fixpoint for_each_until_M (step : S -> A -> M (option S)) (items : list A)
         (s : S) : M (option S) :=
  match items with
  | [] => ret (Some s)
  | x :: rest =>
      r <~ step s x ;;
      match r with
      | Some s' => for_each_until_M step rest s'
      | None => ret None
      end
  end.
End LoopsM.

(* ----------------------------------------------------------------- *)
(** *** Objects *)

(** [self.params] *)
Definition params_of (self : nat) : M nat :=
  c <~ load self ;;
  match c with
  | TypeObj _ params => ret params
  | _ => unmodelled
  end.

(** the class of the descriptor at [self] *)
Definition kind_at (self : nat) : M kind :=
  c <~ load self ;;
  match c with
  | TypeObj k _ => ret k
  | _ => unmodelled
  end.

Definition dict_entries (d : nat) : M (list (string * hval)) :=
  c <~ load d ;;
  match c with
  | DictObj entries => ret entries
  | _ => unmodelled
  end.

Definition list_items (l : nat) : M (list hval) :=
  c <~ load l ;;
  match c with
  | ListObj items => ret items
  | _ => unmodelled
  end.

(** [l.append(x)] *)
Definition list_append (l : nat) (x : hval) : M unit :=
  items <~ list_items l ;; store l (ListObj (items ++ [x])).

(** [d[key] = x] *)
Definition dict_setitem (d : nat) (key : string) (x : hval) : M unit :=
  entries <~ dict_entries d ;; store d (DictObj (dict_set key x entries)).

(** [Type.__init__(self, py_obj, params)]: a new descriptor object *)
Definition new_type (k : kind) (params : nat) : M nat :=
  alloc (TypeObj k params).

(** the singletons, made when the module is loaded, each with a
    [params] dict of its own *)
Definition singletons : heap :=
  [DictObj []; TypeObj KNever 0; DictObj []; TypeObj KAny 2;
   DictObj []; TypeObj KUnknown 4; DictObj []; TypeObj KNone 6;
   DictObj []; TypeObj KText 8; DictObj []; TypeObj KNumber 10;
   DictObj []; TypeObj KBoolean 12].

Definition NeverType : nat := 1.
Definition AnyType : nat := 3.
Definition UnknownType : nat := 5.
Definition NoneType : nat := 7.
Definition TextType : nat := 9.
Definition NumberType : nat := 11.
Definition BooleanType : nat := 13.

(* ----------------------------------------------------------------- *)
(** *** Reading the store *)

(** [Type.to_json] and [Type._params_obj_to_json_obj] on objects *)
Fixpoint to_json (fuel : nat) (h : heap) (self : nat) : outcome pyval :=
  match fuel with
  | O => OutOfFuel
  | S fuel' =>
      match nth_error h self with
      | Some (TypeObj k params) =>
          j <- params_obj_to_json_obj fuel' h (Ref params) ;;
          Returns (PDict (("wb_type", PStr (kind_name k))
                          :: match j with
                             | PNone | PDict [] => []
                             | _ => [("params", j)]
                             end))
      | _ => Unmodelled
      end
  end
with params_obj_to_json_obj (fuel : nat) (h : heap) (params_obj : hval)
  : outcome pyval :=
  match fuel with
  | O => OutOfFuel
  | S fuel' =>
      match params_obj with
      | Val v => Returns v
      | Ref a =>
          match nth_error h a with
          | Some (DictObj entries) =>
              items <- traverse (fun kv =>
                                   j <- params_obj_to_json_obj fuel' h (snd kv) ;;
                                   Returns (fst kv, j)) entries ;;
              Returns (PDict items)
          | Some (ListObj items) =>
              js <- traverse (params_obj_to_json_obj fuel' h) items ;;
              Returns (PList js)
          | Some (TypeObj _ _) => to_json fuel' h a
          | None => Unmodelled
          end
      end
  end.

(** [a == b] on descriptors: the same object, or equal serializations *)
Definition type_eq (fuel : nat) (a b : nat) : M bool :=
  read (fun h =>
          if Nat.eqb a b then Returns true
          else ja <- to_json fuel h a ;;
               jb <- to_json fuel h b ;;
               Returns (py_eq ja jb)).

(** [repr] of an object; for a descriptor it is [Type.__repr__], which
    is also its [str] *)
Fixpoint repr (fuel : nat) (h : heap) (x : hval) : outcome string :=
  match fuel with
  | O => OutOfFuel
  | S fuel' =>
      match x with
      | Val v => Returns (py_repr v)
      | Ref a =>
          match nth_error h a with
          | Some (DictObj entries) =>
              items <- traverse (fun kv => r <- repr fuel' h (snd kv) ;;
                                           Returns (fst kv, r)) entries ;;
              Returns (repr_dict items)
          | Some (ListObj items) =>
              rs <- traverse (repr fuel' h) items ;;
              Returns (repr_list rs)
          | Some (TypeObj k params) =>
              r <- repr fuel' h (Ref params) ;;
              Returns ("<WBType:" ++ kind_name k ++ " | " ++ r ++ ">")
          | None => Unmodelled
          end
      end
  end.

(* ----------------------------------------------------------------- *)
(** *** Building descriptors *)

(** [d[key]] *)
Definition dict_getitem (d : nat) (key : string) : M hval :=
  entries <~ dict_entries d ;;
  match dict_get key entries with
  | Some x => ret x
  | None => raise (KeyError key)
  end.

Definition as_ref (x : hval) : M nat :=
  match x with
  | Ref a => ret a
  | Val _ => unmodelled
  end.

(** [l.sort(key=str)], in place *)
Definition list_sort (fuel : nat) (l : nat) : M unit :=
  items <~ list_items l ;;
  keyed <~ read (fun h => traverse (fun x => k <- repr fuel h x ;;
                                             Returns (k, x)) items) ;;
  store l (ListObj (map snd (sort fst keyed))).

(** [UnionType._flatten_types]: the result is a new list *)
Fixpoint flatten_types (fuel : nat) (allowed_types : nat) : M nat :=
  match fuel with
  | O => out_of_fuel
  | S fuel' =>
      final_types <~ alloc (ListObj []) ;;
      items <~ list_items allowed_types ;;
      _ <~ for_each_M
             (fun _ item =>
                match item with
                | Ref allowed_type =>
                    k <~ kind_at allowed_type ;;
                    match k with
                    | KUnion =>
                        params <~ params_of allowed_type ;;
                        inner <~ dict_getitem params "allowed_types" ;;
                        inner <~ as_ref inner ;;
                        internal_types <~ flatten_types fuel' inner ;;
                        internal <~ list_items internal_types ;;
                        for_each_M (fun _ internal_type =>
                                      list_append final_types internal_type)
                                   internal tt
                    | _ => list_append final_types item
                    end
                | Val _ => list_append final_types item
                end) items tt ;;
      ret final_types
  end.

(** [UnionType(py_obj)], [py_obj] a list of descriptors.  The list
    sorted is the one just stored under ["allowed_types"]. *)
Definition UnionType (fuel : nat) (py_obj : nat) : M nat :=
  params <~ alloc (DictObj [("allowed_types", Ref py_obj)]) ;;
  given <~ dict_getitem params "allowed_types" ;;
  given <~ as_ref given ;;
  flat <~ flatten_types fuel given ;;
  _ <~ dict_setitem params "allowed_types" (Ref flat) ;;
  _ <~ list_sort fuel flat ;;
  new_type KUnion params.

(** [OptionalType(wb_type)] *)
Definition OptionalType (fuel : nat) (wb_type : nat) : M nat :=
  members <~ alloc (ListObj [Ref wb_type; Ref NoneType]) ;;
  UnionType fuel members.

(** [ListType(dtype=dtype)] *)
Definition ListType_dtype (dtype : nat) : M nat :=
  params <~ alloc (DictObj [("element_type", Ref dtype)]) ;;
  new_type KList params.

(** [DictType(dtype=dtype, key_policy=key_policy)], [dtype] a dict of
    descriptors *)
Definition DictType_dtype (dtype : nat) (key_policy : string) : M nat :=
  new_type_map <~ alloc (DictObj []) ;;
  entries <~ dict_entries dtype ;;
  _ <~ for_each_M
         (fun _ kv =>
            match snd kv with
            | Ref a =>
                c <~ load a ;;
                match c with
                | TypeObj _ _ => dict_setitem new_type_map (fst kv) (Ref a)
                | _ => unmodelled
                end
            | Val _ =>
                raise (TypeError "DictType dtype values must subclass Type")
            end) entries tt ;;
  params <~ alloc (DictObj [("type_map", Ref new_type_map);
                            ("policy", Val (PStr key_policy))]) ;;
  new_type KDict params.

(** [ObjectType(py_obj)] *)
Definition ObjectType (py_obj : pyval) : M nat :=
  match py_obj with
  | PNone => raise (TypeError "Both py_obj and params cannot be none")
  | _ =>
      params <~ alloc (DictObj [("class_name",
                                 Val (PStr (class_name (class_of py_obj))))]) ;;
      new_type KObject params
  end.

(** [cls(py_obj)] for a leaf class: [Type.__init__] with a new dict *)
Definition leaf (k : kind) : M nat :=
  params <~ alloc (DictObj []) ;;
  new_type k params.

(* ----------------------------------------------------------------- *)
(** *** Inference and narrowing on objects *)

Section AssignBodies.
Local Open Scope list_scope.

Variable fuel : nat.
(** the recursive calls *)
Variable assign : nat -> pyval -> M nat.
Variable type_of : pyval -> M nat.

(** [ListType(py_obj)] *)
Definition ListType (py_obj : pyval) : M nat :=
  if negb (class_in (class_of py_obj) (kind_types KList))
  then raise AssertionError
  else
    let py_list := items_of py_obj in
    elm_type <~ (if negb (member item_eq PNone py_list) then ret UnknownType
                 else OptionalType fuel UnknownType) ;;
    elm_type <~ for_each_M
                  (fun elm_type item =>
                     _elm_type <~ assign elm_type item ;;
                     if Nat.eqb _elm_type NeverType
                     then raise (TypeError "List contained incompatible types")
                     else ret _elm_type)
                  py_list elm_type ;;
    ListType_dtype elm_type.

(** [DictType(py_obj, key_policy)] *)
Definition DictType (py_obj : pyval) (key_policy : string) : M nat :=
  type_map <~ alloc (DictObj []) ;;
  _ <~ for_each_M (fun _ kv =>
                     t <~ type_of (snd kv) ;;
                     dict_setitem type_map (fst kv) (Ref t))
                  (entries_of py_obj) tt ;;
  params <~ alloc (DictObj [("type_map", Ref type_map);
                            ("policy", Val (PStr key_policy))]) ;;
  new_type KDict params.

(** [TypeRegistry.type_of] *)
Definition type_of_body (py_obj : pyval) : M nat :=
  match TypeRegistry.class_get (class_of py_obj)
          (TypeRegistry.types_by_class TypeRegistry.registry) with
  | Some KList => ListType py_obj
  | Some KDict => DictType py_obj KeyPolicy.EXACT
  | Some KObject | None => ObjectType py_obj
  | Some KUnion | Some KConst => unmodelled
  | Some class_handler => leaf class_handler
  end.

(** [UnionType.assign] *)
Definition union_assign (self : nat) (py_obj : pyval) : M nat :=
  resolved_types <~ alloc (ListObj []) ;;
  params <~ params_of self ;;
  entries <~ dict_entries params ;;
  allowed_types <~ match dict_get "allowed_types" entries with
                   | Some (Ref l) => list_items l
                   | Some (Val _) => unmodelled
                   | None => ret []
                   end ;;
  st <~ for_each_M
          (fun (st : bool * nat) item =>
             let (valid, unknown_count) := st in
             allowed_type <~ as_ref item ;;
             if valid then
               _ <~ list_append resolved_types (Ref allowed_type) ;;
               ret (true, unknown_count)
             else
               k <~ kind_at allowed_type ;;
               if isinstance_kind k KUnknown then ret (false, unknown_count + 1)
               else
                 assigned_type <~ assign allowed_type py_obj ;;
                 never <~ type_eq fuel assigned_type NeverType ;;
                 if never then
                   _ <~ list_append resolved_types (Ref allowed_type) ;;
                   ret (false, unknown_count)
                 else
                   _ <~ list_append resolved_types (Ref assigned_type) ;;
                   ret (true, unknown_count))
          allowed_types (false, 0) ;;
  let finish (unknown_count : nat) :=
    _ <~ for_each_M (fun _ _ => list_append resolved_types (Ref UnknownType))
                    (repeat tt unknown_count) tt ;;
    resolved_types <~ flatten_types fuel resolved_types ;;
    _ <~ list_sort fuel resolved_types ;;
    UnionType fuel resolved_types in
  let (valid, unknown_count) := st in
  if valid then finish unknown_count
  else if Nat.eqb unknown_count 0 then ret NeverType
  else
    new_type <~ assign UnknownType py_obj ;;
    never <~ type_eq fuel new_type NeverType ;;
    if never then ret NeverType
    else
      _ <~ list_append resolved_types (Ref new_type) ;;
      finish (unknown_count - 1).

(** [ListType.assign] *)
Definition list_assign (self : nat) (py_obj : pyval) : M nat :=
  if is_None py_obj || negb (class_in (class_of py_obj) (kind_types KList))
  then ret NeverType
  else
    params <~ params_of self ;;
    element_type <~ dict_getitem params "element_type" ;;
    element_type <~ as_ref element_type ;;
    r <~ for_each_until_M
           (fun new_element_type obj =>
              new_element_type <~ assign new_element_type obj ;;
              never <~ type_eq fuel new_element_type NeverType ;;
              if never then ret None else ret (Some new_element_type))
           (items_of py_obj) element_type ;;
    match r with
    | None => ret NeverType
    | Some new_element_type => ListType_dtype new_element_type
    end.

(** [DictType.assign] *)
Definition dict_assign (self : nat) (py_obj : pyval) : M nat :=
  if is_None py_obj || negb (class_in (class_of py_obj) (kind_types KDict))
  then ret NeverType
  else
    new_type_map <~ alloc (DictObj []) ;;
    params <~ params_of self ;;
    entries <~ dict_entries params ;;
    type_map <~ match dict_get "type_map" entries with
                | Some (Ref d) => dict_entries d
                | Some (Val _) => unmodelled
                | None => ret []
                end ;;
    policy <~ match dict_get "policy" entries with
              | Some (Val (PStr p)) => ret p
              | None => ret KeyPolicy.EXACT
              | _ => unmodelled
              end ;;
    r <~ for_each_until_M
           (fun _ entry =>
              let key := fst entry in
              known <~ as_ref (snd entry) ;;
              match dict_get key (entries_of py_obj) with
              | Some value =>
                  new_type <~ assign known value ;;
                  never <~ type_eq fuel new_type NeverType ;;
                  if never then ret None
                  else _ <~ dict_setitem new_type_map key (Ref new_type) ;;
                       ret (Some tt)
              | None =>
                  new_type <~ assign known PNone ;;
                  never <~ type_eq fuel new_type NeverType ;;
                  if never then
                    if String.eqb policy KeyPolicy.EXACT then ret None
                    else if String.eqb policy KeyPolicy.SUBSET
                            || String.eqb policy KeyPolicy.UNRESTRICTED
                         then _ <~ dict_setitem new_type_map key (Ref known) ;;
                              ret (Some tt)
                         else ret (Some tt)
                  else _ <~ dict_setitem new_type_map key (Ref new_type) ;;
                       ret (Some tt)
              end)
           type_map tt ;;
    match r with
    | None => ret NeverType
    | Some _ =>
        r <~ for_each_until_M
               (fun _ item =>
                  let key := fst item in
                  present <~ dict_entries new_type_map ;;
                  if negb (dict_in key present) then
                    if String.eqb policy KeyPolicy.EXACT
                       || String.eqb policy KeyPolicy.SUBSET
                    then ret None
                    else if String.eqb policy KeyPolicy.UNRESTRICTED then
                      new_type <~ (if pyclass_eqb (class_of (snd item)) CDict
                                   then DictType (snd item) policy
                                   else type_of (snd item)) ;;
                      _ <~ dict_setitem new_type_map key (Ref new_type) ;;
                      ret (Some tt)
                    else ret (Some tt)
                  else ret (Some tt))
               (entries_of py_obj) tt ;;
        match r with
        | None => ret NeverType
        | Some _ => DictType_dtype new_type_map policy
        end
    end.

(** [self.assign(py_obj)], one class at a time *)
Definition assign_body (self : nat) (py_obj : pyval) : M nat :=
  k <~ kind_at self ;;
  match k with
  | KNever => ret self
  | KAny => ret (if negb (is_None py_obj) then self else NeverType)
  | KUnknown => if is_None py_obj then ret NeverType else type_of py_obj
  | KNone => ret (if is_None py_obj then self else NeverType)
  | KText => ret (if pyclass_eqb (class_of py_obj) CStr then self else NeverType)
  | KNumber =>
      ret (if class_in (class_of py_obj) [CInt; CFloat] then self else NeverType)
  | KBoolean =>
      ret (if pyclass_eqb (class_of py_obj) CBool then self else NeverType)
  | KUnion => union_assign self py_obj
  | KObject =>
      params <~ params_of self ;;
      c <~ dict_getitem params "class_name" ;;
      match c with
      | Val (PStr c) =>
          ret (if String.eqb (class_name (class_of py_obj)) c then self
               else NeverType)
      | _ => unmodelled
      end
  | KList => list_assign self py_obj
  | KDict => dict_assign self py_obj
  | KConst =>
      params <~ params_of self ;;
      entries <~ dict_entries params ;;
      match dict_get "val" entries with
      | Some (Val val) => ret (if py_eq val py_obj then self else NeverType)
      | Some (Ref _) => unmodelled
      | None => ret (if py_eq PNone py_obj then self else NeverType)
      end
  end.
End AssignBodies.

Fixpoint assign (fuel : nat) (self : nat) (py_obj : pyval) : M nat :=
  match fuel with
  | O => out_of_fuel
  | S fuel' => assign_body fuel' (assign fuel') (type_of fuel') self py_obj
  end
with type_of (fuel : nat) (py_obj : pyval) : M nat :=
  match fuel with
  | O => out_of_fuel
  | S fuel' => type_of_body fuel' (assign fuel') (type_of fuel') py_obj
  end.

(** every reference held in the store is to an object of the store *)
Definition closed_hval (n : nat) (x : hval) : bool :=
  match x with
  | Ref a => (a <? n)%nat
  | Val _ => true
  end.

Definition closed_cell (n : nat) (c : cell) : bool :=
  match c with
  | TypeObj _ params => (params <? n)%nat
  | DictObj entries => forallb (fun kv => closed_hval n (snd kv)) entries
  | ListObj items => forallb (closed_hval n) items
  end.

Definition closed (h : heap) : bool := forallb (closed_cell (List.length h)) h.

(** [frames n0 m Q]: run from a store of at least [n0] objects, [m]
    leaves the first [n0] as they are, only adds objects, and returns a
    result satisfying [Q]. *)
Definition frames (n0 : nat) {A : Type} (m : M A) (Q : A -> Prop) : Prop :=
  forall h x h',
    n0 <= List.length h -> m h = Returns (x, h') ->
    List.length h <= List.length h'
    /\ (forall a, a < n0 -> nth_error h' a = nth_error h a)
    /\ Q x.

Abbreviation frames_any n0 m := (frames n0 m (fun _ => True)).

(** the result is an object made after the first [n0] *)
Abbreviation frames_fresh n0 m := (frames n0 m (fun a => n0 <= a)).

(** A store to run on: the singletons and
    [ListType(dtype=UnionType([UnknownType, NumberType]))]. *)
Definition example : nat * heap :=
  Eval vm_compute in
    match (members <~ alloc (ListObj [Ref UnknownType; Ref NumberType]) ;;
           union <~ UnionType 10 members ;;
           ListType_dtype union) singletons with
    | Returns r => r
    | _ => (0, [])
    end.
End Store.

(* ================================================================= *)
(** ** Canonical form *)

(** [canonical t]: at every depth of [t], a union holds no union and is
    sorted by [str], and the keys of a [type_map] are distinct. *)
Fixpoint canonical (t : wbtype) : bool :=
  match t with
  | Union ms =>
      forallb canonical ms
      && forallb (fun m => negb (isinstance m KUnion)) ms
      && sorted_by str ms
  | ListOf e => canonical e
  | Dict tm _ =>
      forallb (fun kv => canonical (snd kv)) tm && distinct (map fst tm)
  | _ => true
  end.

(** a [type_map] under construction: canonical descriptors under
    distinct keys *)
Definition canonical_map (tm : list (string * wbtype)) : Prop :=
  forallb (fun kv => canonical (snd kv)) tm = true
  /\ distinct (map fst tm) = true.

(** the element types that [ListType(py_obj)] passes through on a list
    of scalars: [Unknown], a descriptor that is no union, or a flat
    sorted union *)
Definition settled (cur : wbtype) : Prop :=
  cur = UnknownType
  \/ (isinstance cur KUnion = false /\ isinstance cur KUnknown = false)
  \/ exists ms, cur = Union ms /\ flat ms /\ StronglySorted (key_le str) ms.

(* ================================================================= *)
(** ** [DictType(dtype=...)]: the nested notation *)

(** What [dtype] holds under a key: a descriptor, a dict in the same
    notation, a list, or a value of any other class. *)
Inductive dspec : Type :=
| DType (t : wbtype)
| DDict (d : list (string * dspec))
| DList (l : list dspec)
| DOther.

(** the [while] loop on [ptr]: lists of one item are entered and
    counted in [depth] *)
Fixpoint enter_lists (ptr : dspec) (depth : nat) : outcome (dspec * nat) :=
  match ptr with
  | DList (x :: rest) =>
      match rest with
      | [] => enter_lists x (S depth)
      | _ :: _ =>
          Raises (TypeError "Lists in DictType's dtype must be of length 0 or 1")
      end
  | _ => Returns (ptr, depth)
  end.

Definition not_a_type : exn :=
  TypeError "DictType dtype values must subclass Type (or be a dict or list)".

Section DtypeBody.
(** the recursive call [DictType(dtype=..., key_policy=key_policy)] *)
Variable DictType_dtype : list (string * dspec) -> string -> outcome wbtype.

(** body of the loop over the keys of [dtype] *)
Definition dtype_step (key_policy : string)
           (new_type_map : list (string * wbtype)) (entry : string * dspec)
  : outcome (list (string * wbtype)) :=
  let key := fst entry in
  match snd entry with
  | DDict d =>
      t <- DictType_dtype d key_policy ;;
      Returns (dict_set key t new_type_map)
  | DList _ =>
      r <- enter_lists (snd entry) 0 ;;
      inner_type <- match fst r with
                    | DList _ => Returns (ListOf UnknownType)
                    | DDict d => DictType_dtype d key_policy
                    | DType t => Returns t
                    | DOther => Raises not_a_type
                    end ;;
      Returns (dict_set key (Nat.iter (snd r) ListOf inner_type) new_type_map)
  | DType t => Returns (dict_set key t new_type_map)
  | DOther => Raises not_a_type
  end.

Definition DictType_dtype_body (dtype : list (string * dspec))
           (key_policy : string) : outcome wbtype :=
  new_type_map <- for_each (dtype_step key_policy) dtype [] ;;
  Returns (Dict new_type_map key_policy).
End DtypeBody.

(** [DictType(dtype=dtype, key_policy=key_policy)]; each nested call
    spends one unit of fuel. *)
Fixpoint DictType_dtype (fuel : nat) (dtype : list (string * dspec))
         (key_policy : string) : outcome wbtype :=
  match fuel with
  | O => OutOfFuel
  | S fuel' => DictType_dtype_body (DictType_dtype fuel') dtype key_policy
  end.

(** The notation read structurally: a descriptor stands for itself, a
    dict for a [DictType] of the same key policy, [[]] for a list of
    [Unknown], [[x]] for a list of what [x] stands for; nothing else is
    notation. *)
Fixpoint reading (key_policy : string) (x : dspec) : option wbtype :=
  match x with
  | DType t => Some t
  | DDict d =>
      option_map (fun tm => Dict tm key_policy)
        ((fix entries (d : list (string * dspec)) (tm : list (string * wbtype))
            : option (list (string * wbtype)) :=
            match d with
            | [] => Some tm
            | kv :: rest =>
                match reading key_policy (snd kv) with
                | Some t => entries rest (dict_set (fst kv) t tm)
                | None => None
                end
            end) d [])
  | DList [] => Some (ListOf UnknownType)
  | DList [y] => option_map ListOf (reading key_policy y)
  | DList _ => None
  | DOther => None
  end.

(** how deep the dicts of the notation nest *)
Fixpoint dict_depth (x : dspec) : nat :=
  match x with
  | DDict d => S (fold_right (fun kv n => Nat.max (dict_depth (snd kv)) n) 0 d)
  | DList l => fold_right (fun y n => Nat.max (dict_depth y) n) 0 l
  | _ => 0
  end.

(** the entries of a dict of the notation, read in their order *)
Definition reading_entries (key_policy : string) :=
  fix entries (d : list (string * dspec)) (tm : list (string * wbtype))
    : option (list (string * wbtype)) :=
    match d with
    | [] => Some tm
    | kv :: rest =>
        match reading key_policy (snd kv) with
        | Some t => entries rest (dict_set (fst kv) t tm)
        | None => None
        end
    end.

(** what a call returns, given what the notation reads as *)
Definition agrees (r : outcome wbtype) (t : option wbtype) : Prop :=
  match t with
  | Some t => r = Returns t
  | None => exists msg, r = Raises (TypeError msg)
  end.

(** the type a key is given, whichever branch of the loop body gives
    it: [rec] is the nested call, [depth] the lists entered so far *)
Definition list_value (rec : list (string * dspec) -> string -> outcome wbtype)
           (key_policy : string) (x : dspec) (depth : nat) : outcome wbtype :=
  r <- enter_lists x depth ;;
  inner_type <- match fst r with
                | DList _ => Returns (ListOf UnknownType)
                | DDict d => rec d key_policy
                | DType t => Returns t
                | DOther => Raises not_a_type
                end ;;
  Returns (Nat.iter (snd r) ListOf inner_type).

(* ================================================================= *)
(** ** [UploadJob.push]: the headers of the upload *)

Module UploadJob.
(** What a call raises: the [ValueError] of an unpacking, the [KeyError]
    of a lookup, or whatever a call into the API, the file system or
    [save_fn] raised. *)
Inductive error : Type :=
| ValueError
| KeyError (key : string)
| Raised (what : string).

(** [s.split(sep, 1)] for a separator of one character *)
Fixpoint split1 (sep : ascii) (s : string) : list string :=
  match s with
  | EmptyString => [EmptyString]
  | String c rest =>
      if Ascii.eqb c sep then [EmptyString; rest]
      else match split1 sep rest with
           | part :: parts => String c part :: parts
           | [] => []
           end
  end.

(** [key, val = parts] *)
Definition unpack2 (parts : list string) : (string * string) + error :=
  match parts with
  | [key; val] => inl (key, val)
  | _ => inr ValueError
  end.

(** the loop of [push] over [upload_headers], started from
    [extra_headers] *)
Fixpoint headers_loop (upload_headers : list string)
         (extra_headers : list (string * string))
  : list (string * string) + error :=
  match upload_headers with
  | [] => inl extra_headers
  | upload_header :: rest =>
      match unpack2 (split1 ":" upload_header) with
      | inl (key, val) => headers_loop rest (dict_set key val extra_headers)
      | inr e => inr e
      end
  end.

Definition extra_headers (upload_headers : list string)
  : list (string * string) + error :=
  headers_loop upload_headers [].

(** the upload URL, filled in with the base URL when it is relative *)
Definition full_url (api_url upload_url : string) : string :=
  if String.prefix "/" upload_url then api_url ++ upload_url else upload_url.

(* ----------------------------------------------------------------- *)
(** *** The job and what it calls *)

(** what a call into the surroundings does: it returns, or raises *)
Inductive called (A : Type) : Type :=
| Ok (a : A)
| Throws (what : string).
Arguments Ok {A} a.
Arguments Throws {A} what.

(** the entry of a file in the response of [prepare_files] *)
Record file_response : Type := {
  uploadUrl : option string;
  uploadHeaders : list string
}.

(** The fields of the job that [run] reads.  [save_fn], when set, is
    given with what the call of it does. *)
Record job : Type := {
  save_name : string;
  save_path : string;
  md5 : option string;
  copied : bool;
  save_fn : option (called bool)
}.

(** What the calls of [run] and [push] into the API and the file system
    do.  [getsize] is [None] when [os.path.getsize] raises [OSError];
    [upload_file_retry] reports the byte totals it passes to the
    progress callback before it returns or raises.  The calls on the
    statistics, on the queue and to the error reporting return. *)
Record world : Type := {
  getsize : option nat;
  prepare_files : called (list (string * file_response));
  get_project : called unit;
  upload_urls : called (list string * list (string * option string));
  api_url : string;
  open_file : called unit;
  upload_file_retry :
    string -> list (string * string) -> list nat * called unit;
  isfile : bool;
  remove : called unit
}.

(** the calls that leave a trace *)
Inductive event : Type :=
| update_failed_file (file : string)
| set_file_deduped (file : string)
| update_uploaded_file (file : string) (size : nat)
| sentry_exc (what : string)
| termerror (file : string)
| uploading (url : string) (extra_headers : list (string * string))
| removed (path : string)
| put_EventJobDone (success : bool).

(** a computation: the calls made, and the value returned or the
    exception raised *)
Definition T (A : Type) : Type := list event * (A + error).

Definition ret {A : Type} (x : A) : T A := ([], inl x).

Definition raise {A : Type} (e : error) : T A := ([], inr e).

Definition emit (e : event) : T unit := ([e], inl tt).

Definition bindT {A B : Type} (m : T A) (k : A -> T B) : T B :=
  match snd m with
  | inl x => (fst m ++ fst (k x), snd (k x))%list
  | inr e => (fst m, inr e)
  end.

Notation "x <~~ c ;; k" := (bindT c (fun x => k))
  (at level 61, c at next level, right associativity).

(** a call into the surroundings, its exception passed on *)
Definition call {A : Type} (c : called A) : T A :=
  match c with
  | Ok x => ret x
  | Throws what => raise (Raised what)
  end.

(** [d[key]] *)
Definition getitem {V : Type} (d : list (string * V)) (key : string) : T V :=
  match dict_get key d with
  | Some v => ret v
  | None => raise (KeyError key)
  end.

(** truth value of [self.md5] *)
Definition truthy (s : option string) : bool :=
  match s with
  | Some (String _ _) => true
  | _ => false
  end.

(** the handler of the two [except Exception] clauses *)
Definition upload_failed (file : string) (what : string) : T bool :=
  _ <~~ emit (update_failed_file file) ;;
  _ <~~ emit (sentry_exc what) ;;
  _ <~~ emit (termerror file) ;;
  ret false.

(** [UploadJob.progress] *)
Definition progress (self : job) (total_bytes : nat) : T unit :=
  emit (update_uploaded_file (save_name self) total_bytes).

Fixpoint progress_all (self : job) (totals : list nat) : T unit :=
  match totals with
  | [] => ret tt
  | t :: rest => _ <~~ progress self t ;; progress_all self rest
  end.

(** [UploadJob.push] *)
Definition push (self : job) (w : world) : T bool :=
  let size := match getsize w with Some n => n | None => 0 end in
  match save_fn self with
  | Some outcome =>
      match outcome with
      | Throws what => upload_failed (save_path self) what
      | Ok deduped =>
          _ <~~ (if deduped then emit (set_file_deduped (save_path self))
                 else emit (update_uploaded_file (save_path self) size)) ;;
          ret true
      end
  | None =>
      found <~~ (if truthy (md5 self) then
                   response <~~ call (prepare_files w) ;;
                   file_response <~~ getitem response (save_name self) ;;
                   ret (uploadUrl file_response, uploadHeaders file_response)
                 else
                   _ <~~ call (get_project w) ;;
                   r <~~ call (upload_urls w) ;;
                   upload_url <~~ getitem (snd r) (save_name self) ;;
                   ret (upload_url, fst r)) ;;
      match fst found with
      | None =>
          _ <~~ emit (set_file_deduped (save_name self)) ;;
          ret true
      | Some upload_url =>
          match extra_headers (snd found) with
          | inr e => raise e
          | inl extra_headers =>
              let upload_url := full_url (api_url w) upload_url in
              match open_file w with
              | Throws what => upload_failed (save_name self) what
              | Ok _ =>
                  _ <~~ emit (uploading upload_url extra_headers) ;;
                  let r := upload_file_retry w upload_url extra_headers in
                  _ <~~ progress_all self (fst r) ;;
                  match snd r with
                  | Throws what => upload_failed (save_name self) what
                  | Ok _ => ret true
                  end
              end
          end
      end
  end.

(** the [finally] clause of [run] *)
Definition finish (self : job) (w : world) (success : bool) : T unit :=
  _ <~~ (if copied self && isfile w then
           _ <~~ call (remove w) ;;
           emit (removed (save_path self))
         else ret tt) ;;
  emit (put_EventJobDone success).

(** [UploadJob.run]: [try: success = self.push()  finally: ...]; an
    exception of [push] is raised again after the [finally] clause,
    unless the clause raises itself. *)
Definition run (self : job) (w : world) : T unit :=
  let pushed := push self w in
  match snd pushed with
  | inl success =>
      _ <~~ (fst pushed, inl tt) ;;
      finish self w success
  | inr e =>
      _ <~~ (fst pushed, inl tt) ;;
      _ <~~ finish self w false ;;
      raise e
  end.

(** the file was recorded as failed *)
Definition failed (e : event) : bool :=
  match e with
  | update_failed_file _ => true
  | _ => false
  end.

(** the [success] flags put on the queue, in their order *)
Fixpoint done_flags (trace : list event) : list bool :=
  match trace with
  | [] => []
  | put_EventJobDone success :: rest => success :: done_flags rest
  | _ :: rest => done_flags rest
  end.

(** a trace that records no failed file and puts nothing on the queue *)
Definition quiet (trace : list event) : Prop :=
  existsb failed trace = false /\ done_flags trace = [].

(** [accounted m]: [m] puts nothing on the queue, returns [False]
    exactly when it recorded a failed file, and records none when it
    raises *)
Definition accounted (m : T bool) : Prop :=
  done_flags (fst m) = []
  /\ match snd m with
     | inl success => success = negb (existsb failed (fst m))
     | inr _ => existsb failed (fst m) = false
     end.

(** A job to run: a copied file uploaded through [upload_urls], to a
    relative URL, the upload reporting its progress twice.  [remove]
    says what the removal of the copy does. *)
Definition example_job : job :=
  {| save_name := "a.txt"; save_path := "/tmp/a.txt"; md5 := None;
     copied := true; save_fn := None |}.

Definition example_world (remove : called unit) : world :=
  {| getsize := Some 10;
     prepare_files := Throws "not called";
     get_project := Ok tt;
     upload_urls := Ok (["Content-Type:text/plain"],
                        [("a.txt", Some "/files/a.txt")]);
     api_url := "https://api.wandb.ai";
     open_file := Ok tt;
     upload_file_retry := fun _ _ => ([5; 10], Ok tt);
     isfile := true;
     remove := remove |}.
End UploadJob.
(* ================================================================= *)
(** ** Induction over values and descriptors *)

Section PyvalInd.
Variable P : pyval -> Prop.
Hypothesis HNone : P PNone.
Hypothesis HBool : forall b, P (PBool b).
Hypothesis HInt : forall z, P (PInt z).
Hypothesis HFloat : forall f, P (PFloat f).
Hypothesis HStr : forall s, P (PStr s).
Hypothesis HList : forall l, Forall P l -> P (PList l).
Hypothesis HTuple : forall l, Forall P l -> P (PTuple l).
Hypothesis HSet : forall l, Forall P l -> P (PSet l).
Hypothesis HFrozenset : forall l, Forall P l -> P (PFrozenset l).
Hypothesis HDict : forall d, Forall (fun kv => P (snd kv)) d -> P (PDict d).
Hypothesis HObj : forall c i, P (PObj c i).

Fixpoint pyval_nested_ind (v : pyval) : P v :=
  let all :=
    fix all (l : list pyval) : Forall P l :=
      match l with
      | [] => Forall_nil P
      | x :: rest => Forall_cons x (pyval_nested_ind x) (all rest)
      end in
  match v with
  | PNone => HNone
  | PBool b => HBool b
  | PInt z => HInt z
  | PFloat f => HFloat f
  | PStr s => HStr s
  | PList l => HList l (all l)
  | PTuple l => HTuple l (all l)
  | PSet l => HSet l (all l)
  | PFrozenset l => HFrozenset l (all l)
  | PDict d =>
      HDict d ((fix entries (d : list (string * pyval))
                : Forall (fun kv => P (snd kv)) d :=
                match d with
                | [] => Forall_nil _
                | kv :: rest =>
                    Forall_cons kv (pyval_nested_ind (snd kv)) (entries rest)
                end) d)
  | PObj c i => HObj c i
  end.
End PyvalInd.

Section WbtypeInd.
Variable P : wbtype -> Prop.
Hypothesis HLeaf : forall t, isinstance t KUnion = false ->
                             isinstance t KObject = false ->
                             isinstance t KList = false ->
                             isinstance t KDict = false ->
                             isinstance t KConst = false -> P t.
Hypothesis HUnion : forall ms, Forall P ms -> P (Union ms).
Hypothesis HObject : forall c, P (Object c).
Hypothesis HListOf : forall e, P e -> P (ListOf e).
Hypothesis HDict : forall tm p, Forall (fun kv => P (snd kv)) tm -> P (Dict tm p).
Hypothesis HConst : forall v, P (Const v).

Fixpoint wbtype_nested_ind (t : wbtype) : P t :=
  match t with
  | Union ms =>
      HUnion ms ((fix all (l : list wbtype) : Forall P l :=
                 match l with
                 | [] => Forall_nil P
                 | x :: rest => Forall_cons x (wbtype_nested_ind x) (all rest)
                 end) ms)
  | Object c => HObject c
  | ListOf e => HListOf e (wbtype_nested_ind e)
  | Dict tm p =>
      HDict tm p ((fix entries (d : list (string * wbtype))
                  : Forall (fun kv => P (snd kv)) d :=
                  match d with
                  | [] => Forall_nil _
                  | kv :: rest =>
                      Forall_cons kv (wbtype_nested_ind (snd kv)) (entries rest)
                  end) tm)
  | Const v => HConst v
  | NeverType => HLeaf NeverType eq_refl eq_refl eq_refl eq_refl eq_refl
  | AnyType => HLeaf AnyType eq_refl eq_refl eq_refl eq_refl eq_refl
  | UnknownType => HLeaf UnknownType eq_refl eq_refl eq_refl eq_refl eq_refl
  | NoneType => HLeaf NoneType eq_refl eq_refl eq_refl eq_refl eq_refl
  | TextType => HLeaf TextType eq_refl eq_refl eq_refl eq_refl eq_refl
  | NumberType => HLeaf NumberType eq_refl eq_refl eq_refl eq_refl eq_refl
  | BooleanType => HLeaf BooleanType eq_refl eq_refl eq_refl eq_refl eq_refl
  end.
End WbtypeInd.

(* ================================================================= *)
(** ** Equality of descriptors *)

Lemma dict_get_In {V : Type} (k : string) (v : V) (d : list (string * V)) :
  dict_get k d = Some v -> In (k, v) d.
Proof.
  induction d as [| [k' w] rest IH]; simpl; [discriminate |].
  destruct (String.eqb_spec k k') as [-> | Hne].
  - intros [= ->]. now left.
  - intros H. right. now apply IH.
Qed.

Lemma item_eq_refl (v : pyval) : item_eq v v = true.
Proof.
  unfold item_eq.
  induction v as [ | b | z | f | s | l IH | l IH | l IH | l IH | d IH | c i]
    using pyval_nested_ind; simpl.
  - reflexivity.
  - destruct b; reflexivity.
  - apply Z.eqb_refl.
  - destruct f as [i | s | z]; simpl.
    + now rewrite Nat.eqb_refl.
    + now destruct s.
    + apply Z.eqb_refl.
  - apply String.eqb_refl.
  - induction IH as [| x rest Hx _ IHrest]; simpl; [reflexivity |].
    now rewrite Hx, IHrest.
  - induction IH as [| x rest Hx _ IHrest]; simpl; [reflexivity |].
    now rewrite Hx, IHrest.
  - unfold set_eq. rewrite Nat.eqb_refl. simpl.
    apply forallb_forall. intros x Hx. unfold member.
    apply existsb_exists. exists x. split; [assumption |].
    rewrite Forall_forall in IH. now apply IH.
  - unfold set_eq. rewrite Nat.eqb_refl. simpl.
    apply forallb_forall. intros x Hx. unfold member.
    apply existsb_exists. exists x. split; [assumption |].
    rewrite Forall_forall in IH. now apply IH.
  - unfold dict_eq. rewrite Nat.eqb_refl. simpl.
    apply forallb_forall. intros kv Hkv.
    apply existsb_exists. exists kv. split; [assumption |].
    rewrite String.eqb_refl. simpl.
    rewrite Forall_forall in IH. now apply IH.
  - now rewrite String.eqb_refl, Nat.eqb_refl.
Qed.

Lemma type_eq_refl (t : wbtype) : (t == t) = true.
Proof.
  unfold type_eq. generalize (item_eq_refl (to_json t)).
  unfold item_eq. destruct t; simpl; auto.
Qed.

(** [t == NeverType] holds of the [never] descriptor only. *)
Lemma eq_NeverType (t : wbtype) :
  (t == NeverType) = match t with NeverType => true | _ => false end.
Proof. destruct t; reflexivity. Qed.

Lemma eq_NeverType_true (t : wbtype) : (t == NeverType) = true -> t = NeverType.
Proof. rewrite eq_NeverType. destruct t; congruence. Qed.


Lemma types_by_name_registered (s : string) (k : kind) :
  dict_get s (TypeRegistry.types_by_name TypeRegistry.registry) = Some k ->
  s = kind_name k.
Proof.
  cbn.
  repeat match goal with
         | |- context [String.eqb s ?c] =>
             destruct (String.eqb_spec s c) as [-> | _];
             [intros [= <-]; reflexivity |]
         end.
  discriminate.
Qed.

Lemma handler_for_unregistered (wb_type : option pyval) :
  (forall k, wb_type <> Some (PStr (kind_name k))) ->
  handler_for wb_type = Returns None
  \/ handler_for wb_type = Raises (TypeError "unhashable type").
Proof.
  intros Hunreg. destruct wb_type as [v |]; [| now left].
  destruct v; try (simpl; auto; fail).
  - left. unfold handler_for.
    destruct (dict_get s (TypeRegistry.types_by_name TypeRegistry.registry))
      as [k |] eqn:Hget; [| reflexivity].
    apply types_by_name_registered in Hget. subst s.
    now destruct (Hunreg k).
  - simpl. destruct (forallb hashable l); auto.
Qed.

(** C2.  A JSON object without the ["wb_type"] field, or whose
    ["wb_type"] is not the name of a registered class, makes
    [TypeRegistry.type_from_dict] raise: the lookup of the handler gives
    [None] (or fails on an unhashable key) and the call of [from_json]
    on it is an [AttributeError].  Nothing is returned. *)
Theorem type_from_dict_unregistered_raises
        (fuel : nat) (json_dict : list (string * pyval)) :
  (forall k, dict_get "wb_type" json_dict <> Some (PStr (kind_name k))) ->
  exists e, type_from_dict (S fuel) (PDict json_dict) = Raises e.
Proof.
  intros Hunreg. simpl.
  destruct (handler_for_unregistered _ Hunreg) as [-> | ->]; simpl; eauto.
Qed.

Lemma type_from_dict_unregistered_raises_witness :
  (exists e, type_from_dict 1 (PDict [("params", PDict [])]) = Raises e)
  /\ (exists e, type_from_dict 1 (PDict [("wb_type", PStr "tensor")]) = Raises e).
Proof.
  split.
  - apply (type_from_dict_unregistered_raises 0 [("params", PDict [])]).
    intros k. simpl. discriminate.
  - apply (type_from_dict_unregistered_raises 0 [("wb_type", PStr "tensor")]).
    intros k. simpl. destruct k; discriminate.
Defined.


(** C9.  A value whose class is none of [list], [tuple], [set],
    [frozenset] (a [str], [None], ...) is rejected by every [ListType]:
    the result of [assign] is [NeverType]. *)
Theorem list_assign_rejects_other_classes
        (fuel : nat) (element_type : wbtype) (py_obj : pyval) :
  class_in (class_of py_obj) [CList; CTuple; CSet; CFrozenset] = false ->
  assign (S fuel) (ListOf element_type) py_obj = Returns NeverType.
Proof.
  intros Hclass. simpl. unfold list_assign.
  change (kind_types KList) with [CList; CTuple; CSet; CFrozenset].
  rewrite Hclass. simpl. now rewrite orb_true_r.
Qed.

Lemma list_assign_rejects_other_classes_witness :
  assign 1 (ListOf TextType) (PStr "abc") = Returns NeverType
  /\ assign 1 (ListOf UnknownType) PNone = Returns NeverType.
Proof.
  split.
  - apply (list_assign_rejects_other_classes 0 TextType (PStr "abc")).
    reflexivity.
  - apply (list_assign_rejects_other_classes 0 UnknownType PNone).
    reflexivity.
Defined.

(* ================================================================= *)
(** ** The stable sort *)

Lemma ascii_compare_trans_le (a b c : ascii) :
  Ascii.compare a b <> Gt -> Ascii.compare b c <> Gt -> Ascii.compare a c <> Gt.
Proof.
  unfold Ascii.compare. rewrite !N.compare_le_iff. apply N.le_trans.
Qed.

Lemma string_compare_refl (s : string) : String.compare s s = Eq.
Proof.
  induction s as [| c s IH]; simpl; [reflexivity |].
  unfold Ascii.compare. now rewrite N.compare_refl.
Qed.

Lemma string_compare_trans_le (s1 s2 s3 : string) :
  String.compare s1 s2 <> Gt -> String.compare s2 s3 <> Gt ->
  String.compare s1 s3 <> Gt.
Proof.
  revert s2 s3.
  induction s1 as [| a s1 IH]; intros [| b s2] [| c s3]; simpl;
    try congruence.
  unfold Ascii.compare.
  destruct (N.compare_spec (N_of_ascii a) (N_of_ascii b)) as [Hab | Hab | Hab];
    destruct (N.compare_spec (N_of_ascii b) (N_of_ascii c)) as [Hbc | Hbc | Hbc];
    destruct (N.compare_spec (N_of_ascii a) (N_of_ascii c)) as [Hac | Hac | Hac];
    try congruence; try lia.
  apply IH.
Qed.

Lemma leb_refl (s : string) : String.leb s s = true.
Proof. unfold String.leb. now rewrite string_compare_refl. Qed.

Lemma leb_trans (s1 s2 s3 : string) :
  String.leb s1 s2 = true -> String.leb s2 s3 = true -> String.leb s1 s3 = true.
Proof.
  unfold String.leb. intros H12 H23.
  assert (H : String.compare s1 s3 <> Gt).
  { apply string_compare_trans_le with s2.
    - destruct (String.compare s1 s2); congruence.
    - destruct (String.compare s2 s3); congruence. }
  destruct (String.compare s1 s3); congruence.
Qed.

Section SortFacts.
Context {A : Type} (key : A -> string).

Lemma insert_perm (x : A) (l : list A) : Permutation (insert key x l) (x :: l).
Proof.
  induction l as [| y rest IH]; simpl; [reflexivity |].
  destruct (String.leb (key x) (key y)); [reflexivity |].
  rewrite IH. apply perm_swap.
Qed.

Lemma sort_perm (l : list A) : Permutation (sort key l) l.
Proof.
  induction l as [| x rest IH]; simpl; [reflexivity |].
  rewrite insert_perm. now constructor.
Qed.

Lemma insert_sorted (x : A) (l : list A) :
  StronglySorted (key_le key) l -> StronglySorted (key_le key) (insert key x l).
Proof.
  induction 1 as [| y rest Hsorted IH Hall]; simpl.
  - repeat constructor.
  - destruct (String.leb (key x) (key y)) eqn:Hle.
    + constructor; [now constructor |].
      constructor; [assumption |].
      eapply Forall_impl; [| exact Hall].
      intros z Hz. unfold key_le in *. eapply leb_trans; eassumption.
    + constructor; [assumption |].
      assert (Hyx : (key_le key) y x).
      { unfold key_le. destruct (String.leb_total (key x) (key y)); congruence. }
      eapply Permutation_Forall.
      * symmetry. apply insert_perm.
      * now constructor.
Qed.

Lemma sort_sorted (l : list A) : StronglySorted (key_le key) (sort key l).
Proof.
  induction l as [| x rest IH]; simpl; [constructor |].
  now apply insert_sorted.
Qed.

(** stability: the elements filed key under one key keep their order *)
Lemma insert_filed (c : string) (x : A) (l : list A) :
  filed key c (insert key x l) = filed key c (x :: l).
Proof.
  induction l as [| y rest IH]; simpl; [reflexivity |].
  destruct (String.leb (key x) (key y)) eqn:Hle; [reflexivity |].
  simpl in *. rewrite IH.
  destruct (String.eqb_spec (key x) c) as [Hx | Hx]; [| reflexivity].
  destruct (String.eqb_spec (key y) c) as [Hy | Hy]; [| reflexivity].
  rewrite Hx, Hy, leb_refl in Hle. discriminate.
Qed.

Lemma sort_filed (c : string) (l : list A) : filed key c (sort key l) = filed key c l.
Proof.
  induction l as [| x rest IH]; simpl; [reflexivity |].
  rewrite insert_filed. simpl. now rewrite IH.
Qed.

Lemma filed_In (c : string) (x : A) (l : list A) :
  In x l -> key x = c -> In x (filed key c l).
Proof.
  intros Hin Hkey. apply filter_In. split; [assumption |].
  now apply String.eqb_eq.
Qed.

(** two sorted lists that file the same elements under every key are
    the same list *)
Lemma sorted_filed_unique (l1 l2 : list A) :
  StronglySorted (key_le key) l1 -> StronglySorted (key_le key) l2 ->
  (forall c, filed key c l1 = filed key c l2) -> l1 = l2.
Proof.
  intros H1. revert l2.
  induction H1 as [| a l1 Hs1 IH Ha]; intros l2 H2 Hfiled.
  - destruct l2 as [| b l2]; [reflexivity |].
    specialize (Hfiled (key b)). simpl in Hfiled.
    rewrite String.eqb_refl in Hfiled. discriminate.
  - destruct H2 as [| b l2 Hs2 Hb].
    + specialize (Hfiled (key a)). simpl in Hfiled.
      rewrite String.eqb_refl in Hfiled. discriminate.
    + assert (Hab : key a = key b).
      { apply String.leb_antisym.
        - assert (Hin : In b (filed key (key b) (a :: l1))).
          { rewrite Hfiled. apply filed_In; [now left | reflexivity]. }
          apply filter_In in Hin. destruct Hin as [[<- | Hin] _].
          + apply leb_refl.
          + rewrite Forall_forall in Ha. now apply Ha.
        - assert (Hin : In a (filed key (key a) (b :: l2))).
          { rewrite <- Hfiled. apply filed_In; [now left | reflexivity]. }
          apply filter_In in Hin. destruct Hin as [[<- | Hin] _].
          + apply leb_refl.
          + rewrite Forall_forall in Hb. now apply Hb. }
      assert (Heq : a = b).
      { specialize (Hfiled (key a)). simpl in Hfiled.
        rewrite <- Hab, String.eqb_refl in Hfiled. congruence. }
      subst b. f_equal. apply IH; [assumption |].
      intros c. specialize (Hfiled c). simpl in Hfiled.
      destruct (String.eqb (key a) c); congruence.
Qed.

Lemma sort_unique (l sorted : list A) :
  StronglySorted (key_le key) sorted ->
  (forall c, filed key c l = filed key c sorted) -> sort key l = sorted.
Proof.
  intros Hsorted Hfiled. apply sorted_filed_unique.
  - apply sort_sorted.
  - assumption.
  - intros c. now rewrite sort_filed.
Qed.

Lemma sort_sorted_id (l : list A) : StronglySorted (key_le key) l -> sort key l = l.
Proof. intros H. now apply sort_unique. Qed.

Lemma sort_idempotent (l : list A) : sort key (sort key l) = sort key l.
Proof. apply sort_sorted_id, sort_sorted. Qed.
End SortFacts.

(* ================================================================= *)
(** ** Canonical order of a union *)

Lemma all_same_commute {A : Type} (l1 l2 : list A) :
  (forall x y, In x (l1 ++ l2) -> In y (l1 ++ l2) -> x = y) ->
  (l1 ++ l2 = l2 ++ l1)%list.
Proof.
  intros Hsame.
  destruct l1 as [| a l1'].
  - simpl. now rewrite app_nil_r.
  - assert (H1 : Forall (eq a) (a :: l1')).
    { apply Forall_forall. intros y Hy. apply Hsame.
      - now left.
      - apply in_or_app. now left. }
    assert (H2 : Forall (eq a) l2).
    { apply Forall_forall. intros y Hy. apply Hsame.
      - now left.
      - apply in_or_app. now right. }
    apply Forall_eq_repeat in H1, H2. rewrite H1, H2.
    rewrite <- !repeat_app. f_equal. lia.
Qed.

Lemma filed_app {A : Type} (key : A -> string) (c : string) (l1 l2 : list A) :
  (filed key c (l1 ++ l2) = filed key c l1 ++ filed key c l2)%list.
Proof. apply filter_app. Qed.

Lemma sort_app_comm {A : Type} (key : A -> string) (l1 l2 : list A) :
  (forall x y, In x (l1 ++ l2) -> In y (l1 ++ l2) -> key x = key y -> x = y) ->
  sort key (l1 ++ l2) = sort key (l2 ++ l1).
Proof.
  intros Hinj. apply sort_unique; [apply sort_sorted |].
  intros c. rewrite sort_filed, !filed_app.
  apply all_same_commute.
  intros x y Hx Hy. rewrite <- filed_app in Hx, Hy.
  apply filter_In in Hx, Hy. destruct Hx as [Hx Hkx], Hy as [Hy Hky].
  apply String.eqb_eq in Hkx, Hky. apply Hinj; congruence.
Qed.

(** C7, amended.  Two descriptors in either order give the same union,
    provided the string form [str] tells the flattened members apart:
    members that print alike are the same descriptor. *)
Theorem union_order_invariance (A B : wbtype) :
  (forall x y, In x (flatten_types [A; B]) -> In y (flatten_types [A; B]) ->
               str x = str y -> x = y) ->
  (UnionType [A; B] == UnionType [B; A]) = true.
Proof.
  intros Hinj.
  assert (Heq : UnionType [A; B] = UnionType [B; A]).
  { unfold UnionType, flatten_types in *. simpl in *.
    rewrite !app_nil_r in *. f_equal. now apply sort_app_comm. }
  rewrite Heq. apply type_eq_refl.
Qed.

Lemma union_order_invariance_witness :
  (UnionType [NumberType; ListOf TextType]
   == UnionType [ListOf TextType; NumberType]) = true
  /\ (UnionType [UnionType [TextType; NoneType]; BooleanType]
      == UnionType [BooleanType; UnionType [TextType; NoneType]]) = true.
Proof.
  split.
  - apply (union_order_invariance NumberType (ListOf TextType)).
    intros x y Hx Hy. simpl in Hx, Hy.
    destruct Hx as [<- | [<- | []]]; destruct Hy as [<- | [<- | []]];
      vm_compute; congruence.
  - apply (union_order_invariance (UnionType [TextType; NoneType]) BooleanType).
    intros x y Hx Hy. vm_compute in Hx, Hy.
    destruct Hx as [<- | [<- | [<- | []]]];
      destruct Hy as [<- | [<- | [<- | []]]];
      vm_compute; congruence.
Defined.

(** C7 as stated fails on two constants that hold distinct NaN objects:
    they are different descriptors that print alike, the stable sort
    keeps them in the order given, and the two unions differ. *)
Lemma union_order_counterexample :
  let A := Const (PFloat (FNan 0)) in
  let B := Const (PFloat (FNan 1)) in
  well_formed A = true /\ well_formed B = true
  /\ (A == B) = false
  /\ (UnionType [A; B] == UnionType [B; A]) = false.
Proof. vm_compute. repeat split. Qed.

(* ================================================================= *)
(** ** More fuel never changes a verdict *)

Lemma approx_refl {A : Type} (r : outcome A) : approx r r.
Proof. now right. Qed.

Lemma approx_trans {A : Type} (r1 r2 r3 : outcome A) :
  approx r1 r2 -> approx r2 r3 -> approx r1 r3.
Proof. intros [-> | ->] H; [now left | assumption]. Qed.

Lemma approx_bind {A B : Type} (c c' : outcome A) (k k' : A -> outcome B) :
  approx c c' -> (forall x, approx (k x) (k' x)) ->
  approx (bind c k) (bind c' k').
Proof.
  intros [-> | ->] Hk; [now left |].
  destruct c'; simpl; auto using approx_refl.
Qed.

Lemma approx_for_each {S A : Type} (step step' : S -> A -> outcome S)
      (items : list A) (s : S) :
  (forall s x, approx (step s x) (step' s x)) ->
  approx (for_each step items s) (for_each step' items s).
Proof.
  intros Hstep. revert s.
  induction items as [| x rest IH]; intros s; simpl.
  - apply approx_refl.
  - apply approx_bind; auto.
Qed.

Lemma approx_for_each_until {S A : Type}
      (step step' : S -> A -> outcome (option S)) (items : list A) (s : S) :
  (forall s x, approx (step s x) (step' s x)) ->
  approx (for_each_until step items s) (for_each_until step' items s).
Proof.
  intros Hstep. revert s.
  induction items as [| x rest IH]; intros s; simpl.
  - apply approx_refl.
  - apply approx_bind; auto.
    intros [s' |]; auto using approx_refl.
Qed.

Lemma approx_traverse {A B : Type} (f f' : A -> outcome B) (l : list A) :
  (forall x, approx (f x) (f' x)) -> approx (traverse f l) (traverse f' l).
Proof.
  intros Hf. induction l as [| x rest IH]; simpl.
  - apply approx_refl.
  - apply approx_bind; auto.
    intros y. apply approx_bind; auto using approx_refl.
Qed.

Ltac approx_cases :=
  repeat first
    [ apply approx_refl
    | assumption
    | apply approx_bind; [| intros ?]
    | apply approx_for_each; intros ? ?
    | apply approx_for_each_until; intros ? ?
    | match goal with
      | |- approx (if ?b then _ else _) (if ?b then _ else _) => destruct b
      | |- approx (match ?x with _ => _ end) (match ?x with _ => _ end) =>
          destruct x
      | H : forall t v, approx _ _ |- approx _ _ => apply H
      | H : forall v, approx _ _ |- approx _ _ => apply H
      end ].

Section BodiesMonotone.
Variables assign1 assign2 : wbtype -> pyval -> outcome wbtype.
Variables type_of1 type_of2 : pyval -> outcome wbtype.
Hypothesis Hassign : forall t v, approx (assign1 t v) (assign2 t v).
Hypothesis Htype_of : forall v, approx (type_of1 v) (type_of2 v).

Lemma union_assign_approx (ms : list wbtype) (v : pyval) :
  approx (union_assign assign1 ms v) (union_assign assign2 ms v).
Proof. unfold union_assign, union_step. approx_cases. Qed.

Lemma list_assign_approx (e : wbtype) (v : pyval) :
  approx (list_assign assign1 e v) (list_assign assign2 e v).
Proof. unfold list_assign, list_step. approx_cases. Qed.

Lemma ListType_approx (v : pyval) :
  approx (ListType assign1 v) (ListType assign2 v).
Proof. unfold ListType, list_init_step. approx_cases. Qed.

Lemma DictType_approx (v : pyval) (p : string) :
  approx (DictType type_of1 v p) (DictType type_of2 v p).
Proof. unfold DictType. approx_cases. Qed.

Lemma dict_assign_approx (tm : list (string * wbtype)) (p : string) (v : pyval) :
  approx (dict_assign assign1 type_of1 tm p v)
         (dict_assign assign2 type_of2 tm p v).
Proof.
  unfold dict_assign, dict_known_step, dict_value_step.
  approx_cases; apply DictType_approx.
Qed.

Lemma type_of_body_approx (v : pyval) :
  approx (type_of_body assign1 type_of1 v) (type_of_body assign2 type_of2 v).
Proof.
  unfold type_of_body, construct.
  approx_cases; first [apply ListType_approx | apply DictType_approx].
Qed.

Lemma assign_body_approx (t : wbtype) (v : pyval) :
  approx (assign_body assign1 type_of1 t v) (assign_body assign2 type_of2 t v).
Proof.
  destruct t; unfold assign_body;
    first [ apply union_assign_approx | apply list_assign_approx
          | apply dict_assign_approx | approx_cases ].
Qed.
End BodiesMonotone.

Lemma assign_type_of_step (n : nat) :
  (forall t v, approx (assign n t v) (assign (S n) t v))
  /\ (forall v, approx (type_of n v) (type_of (S n) v)).
Proof.
  induction n as [| n [IHa IHt]].
  - split; intros; now left.
  - split; intros.
    + change (approx (assign_body (assign n) (type_of n) t v)
                     (assign_body (assign (S n)) (type_of (S n)) t v)).
      now apply assign_body_approx.
    + change (approx (type_of_body (assign n) (type_of n) v)
                     (type_of_body (assign (S n)) (type_of (S n)) v)).
      now apply type_of_body_approx.
Qed.

Lemma assign_mono (n m : nat) (t : wbtype) (v : pyval) :
  n <= m -> approx (assign n t v) (assign m t v).
Proof.
  induction 1 as [| m _ IH]; [apply approx_refl |].
  eapply approx_trans; [exact IH | apply assign_type_of_step].
Qed.

Lemma type_of_mono (n m : nat) (v : pyval) :
  n <= m -> approx (type_of n v) (type_of m v).
Proof.
  induction 1 as [| m _ IH]; [apply approx_refl |].
  eapply approx_trans; [exact IH | apply assign_type_of_step].
Qed.

Lemma assign_more_fuel (n m : nat) (t : wbtype) (v : pyval) (r : wbtype) :
  n <= m -> assign n t v = Returns r -> assign m t v = Returns r.
Proof.
  intros Hle Hn. destruct (assign_mono n m t v Hle) as [H | H]; congruence.
Qed.

Lemma type_of_more_fuel (n m : nat) (v : pyval) (r : wbtype) :
  n <= m -> type_of n v = Returns r -> type_of m v = Returns r.
Proof.
  intros Hle Hn. destruct (type_of_mono n m v Hle) as [H | H]; congruence.
Qed.

(* ================================================================= *)
(** ** [assign] returns when inference does *)

Section LoopsSettle.
Context {S A : Type}.

Lemma for_each_settles (step : nat -> S -> A -> outcome S) (items : list A) :
  (forall n m s x, n <= m -> approx (step n s x) (step m s x)) ->
  (forall x, In x items -> forall s, exists n r, step n s x = Returns r) ->
  forall s, exists n r, for_each (step n) items s = Returns r.
Proof.
  intros Hmono. induction items as [| x rest IH]; intros Hstep s; simpl.
  - now exists 0, s.
  - destruct (Hstep x (in_eq _ _) s) as (n1 & s1 & H1).
    destruct (IH (fun y Hy => Hstep y (in_cons _ _ _ Hy)) s1) as (n2 & r2 & H2).
    exists (Nat.max n1 n2), r2.
    destruct (Hmono n1 (Nat.max n1 n2) s x (Nat.le_max_l _ _)) as [E | E];
      [congruence |].
    rewrite <- E, H1. simpl.
    destruct (approx_for_each (step n2) (step (Nat.max n1 n2)) rest s1) as [E' | E'];
      [| congruence | congruence].
    intros s' y. apply Hmono, Nat.le_max_r.
Qed.

Lemma for_each_until_settles (step : nat -> S -> A -> outcome (option S))
      (items : list A) :
  (forall n m s x, n <= m -> approx (step n s x) (step m s x)) ->
  (forall x, In x items -> forall s, exists n r, step n s x = Returns r) ->
  forall s, exists n r, for_each_until (step n) items s = Returns r.
Proof.
  intros Hmono. induction items as [| x rest IH]; intros Hstep s; simpl.
  - now exists 0, (Some s).
  - destruct (Hstep x (in_eq _ _) s) as (n1 & [s1 |] & H1).
    + destruct (IH (fun y Hy => Hstep y (in_cons _ _ _ Hy)) s1)
        as (n2 & r2 & H2).
      exists (Nat.max n1 n2), r2.
      destruct (Hmono n1 (Nat.max n1 n2) s x (Nat.le_max_l _ _)) as [E | E];
        [congruence |].
      rewrite <- E, H1. simpl.
      destruct (approx_for_each_until (step n2) (step (Nat.max n1 n2)) rest s1)
        as [E' | E']; [| congruence | congruence].
      intros s' y. apply Hmono, Nat.le_max_r.
    + exists n1, None. now rewrite H1.
Qed.
End LoopsSettle.

Lemma All_Forall {A : Type} (P : A -> Prop) (l : list A) : All P l <-> Forall P l.
Proof.
  induction l as [| x rest IH]; simpl.
  - split; constructor.
  - rewrite IH. split.
    + intros [Hx Hrest]. now constructor.
    + intros H. inversion H. now split.
Qed.

Lemma vsize_item (x : pyval) (l : list pyval) :
  In x l -> vsize x <= fold_right (fun x n => vsize x + n) 0 l.
Proof.
  induction l as [| y rest IH]; simpl; [contradiction |].
  intros [-> | Hin]; [lia |]. specialize (IH Hin). lia.
Qed.

Lemma vsize_entry (kv : string * pyval) (d : list (string * pyval)) :
  In kv d -> vsize (snd kv) <= fold_right (fun kv n => vsize (snd kv) + n) 0 d.
Proof.
  induction d as [| y rest IH]; simpl; [contradiction |].
  intros [-> | Hin]; [lia |]. specialize (IH Hin). lia.
Qed.

Lemma inferable_type_of (v : pyval) :
  inferable v -> exists fuel t, type_of fuel v = Returns t.
Proof. destruct v; simpl; intros [H _]; exact H. Qed.

Lemma inferable_items (v x : pyval) :
  inferable v -> In x (items_of v) -> inferable x /\ vsize x < vsize v.
Proof.
  destruct v; simpl; try contradiction; intros [_ Hall] Hin;
    (split; [apply All_Forall in Hall; rewrite Forall_forall in Hall; auto
            | apply vsize_item in Hin; lia]).
Qed.

Lemma inferable_entries (v : pyval) (kv : string * pyval) :
  inferable v -> In kv (entries_of v) ->
  inferable (snd kv) /\ vsize (snd kv) < vsize v.
Proof.
  destruct v; simpl; try contradiction; intros [_ Hall] Hin.
  split.
  - apply All_Forall in Hall. rewrite Forall_forall in Hall. auto.
  - apply vsize_entry in Hin. lia.
Qed.

Section StepsMonotone.
Variables n m : nat.
Hypothesis Hle : n <= m.

Let Hassign := fun t v => assign_mono n m t v Hle.
Let Htype_of := fun v => type_of_mono n m v Hle.

Lemma union_step_mono (v : pyval) (st : union_state) (x : wbtype) :
  approx (union_step (assign n) v st x) (union_step (assign m) v st x).
Proof. unfold union_step. approx_cases. Qed.

Lemma list_step_mono (cur : wbtype) (x : pyval) :
  approx (list_step (assign n) cur x) (list_step (assign m) cur x).
Proof. unfold list_step. approx_cases. Qed.

Lemma dict_known_step_mono (d : list (string * pyval)) (p : string)
      (acc : list (string * wbtype)) (entry : string * wbtype) :
  approx (dict_known_step (assign n) d p acc entry)
         (dict_known_step (assign m) d p acc entry).
Proof. unfold dict_known_step. approx_cases. Qed.

Lemma type_of_step_mono (acc : list (string * wbtype)) (kv : string * pyval) :
  approx (v <- type_of n (snd kv) ;; Returns (dict_set (fst kv) v acc))
         (v <- type_of m (snd kv) ;; Returns (dict_set (fst kv) v acc)).
Proof. approx_cases. Qed.

Lemma dict_value_step_mono (p : string) (acc : list (string * wbtype))
      (item : string * pyval) :
  approx (dict_value_step (type_of n) p acc item)
         (dict_value_step (type_of m) p acc item).
Proof.
  unfold dict_value_step. approx_cases.
Qed.
End StepsMonotone.

Lemma DictType_settles (v : pyval) (p : string) :
  inferable v -> exists n r, DictType (type_of n) v p = Returns r.
Proof.
  intros Hinf. unfold DictType.
  destruct (for_each_settles
              (fun n acc kv => x <- type_of n (snd kv) ;;
                               Returns (dict_set (fst kv) x acc))
              (entries_of v)) with (s := @nil (string * wbtype))
    as (n & r & Hn).
  - intros n m acc kv Hle. now apply type_of_step_mono.
  - intros kv Hin acc.
    destruct (inferable_entries v kv Hinf Hin) as [Hkv _].
    destruct (inferable_type_of _ Hkv) as (n & t & Hn).
    exists n. rewrite Hn. simpl. eauto.
  - exists n. rewrite Hn. simpl. eauto.
Qed.

Lemma assign_unknown_settles (v : pyval) :
  inferable v -> exists fuel r, assign fuel UnknownType v = Returns r.
Proof.
  intros Hinf. destruct (inferable_type_of v Hinf) as (n & t & Hn).
  exists (S n). simpl. destruct (is_None v); eauto.
Qed.

Lemma assign_settles_below (k : nat) :
  forall v, vsize v < k -> inferable v ->
            forall t, exists fuel r, assign fuel t v = Returns r.
Proof.
  induction k as [| k IHk]; intros v Hk Hinf; [lia |].
  pose proof (assign_unknown_settles v Hinf) as HU.
  induction t as [t H1 H2 H3 H4 H5 | ms IH | c | e _ | tm p _ | val]
    using wbtype_nested_ind.
  - destruct t; try discriminate; try (exists 1; simpl; eauto; fail).
    exact HU.
  - (* Union *)
    destruct (for_each_settles (fun n => union_step (assign n) v) ms)
      with (s := {| resolved_types := []; valid := false; unknown_count := 0 |})
      as (n1 & st & Hst).
    + intros n m st x Hle. now apply union_step_mono.
    + intros x Hin st. rewrite Forall_forall in IH.
      destruct (IH x Hin) as (n & r & Hn). exists n.
      unfold union_step. rewrite Hn. simpl.
      destruct (valid st), (isinstance x KUnknown), (r == NeverType); eauto.
    + destruct HU as (n3 & r3 & H3).
      exists (S (Nat.max n1 n3)). simpl. unfold union_assign.
      destruct (approx_for_each (union_step (assign n1) v)
                                (union_step (assign (Nat.max n1 n3)) v) ms
                  {| resolved_types := []; valid := false; unknown_count := 0 |})
        as [E | E]; [| congruence |].
      { intros s x. apply union_step_mono. apply Nat.le_max_l. }
      rewrite <- E, Hst. simpl.
      rewrite (assign_more_fuel n3 (Nat.max n1 n3) UnknownType v r3
                 (Nat.le_max_r _ _) H3). simpl.
      destruct (valid st), (unknown_count st =? 0)%nat, (r3 == NeverType); eauto.
  - exists 1. simpl. eauto.
  - (* ListOf *)
    destruct (for_each_until_settles (fun n => list_step (assign n)) (items_of v))
      with (s := e) as (n1 & r & Hr).
    + intros n m s x Hle. now apply list_step_mono.
    + intros x Hin s.
      destruct (inferable_items v x Hinf Hin) as [Hx Hsize].
      destruct (IHk x ltac:(lia) Hx s) as (n & r & Hn).
      exists n. unfold list_step. rewrite Hn. simpl.
      destruct (r == NeverType); eauto.
    + exists (S n1). simpl. unfold list_assign. rewrite Hr. simpl.
      destruct (is_None v || _), r; eauto.
  - (* Dict *)
    destruct v as [ | ? | ? | ? | ? | ? | ? | ? | ? | d | ? ? ];
      try (exists 1; eexists; reflexivity).
    destruct (for_each_until_settles
                (fun n => dict_known_step (assign n) d p) tm)
      with (s := @nil (string * wbtype)) as (n1 & r1 & Hr1).
    + intros n m s x Hle. now apply dict_known_step_mono.
    + intros entry _ acc. unfold dict_known_step.
      destruct (dict_get (fst entry) d) as [value |] eqn:Hget.
      * apply dict_get_In in Hget.
        destruct (inferable_entries (PDict d) (fst entry, value) Hinf Hget)
          as [Hvalue Hsize].
        destruct (IHk value ltac:(simpl in *; lia) Hvalue (snd entry))
          as (n & r & Hn).
        exists n. rewrite Hn. simpl. destruct (r == NeverType); eauto.
      * assert (Hnone : inferable PNone).
        { split; [| exact I]. now exists 1, NoneType. }
        destruct (IHk PNone ltac:(simpl in *; lia) Hnone (snd entry))
          as (n & r & Hn).
        exists n. rewrite Hn. simpl.
        destruct (r == NeverType), (String.eqb p KeyPolicy.EXACT),
          (String.eqb p KeyPolicy.SUBSET || String.eqb p KeyPolicy.UNRESTRICTED);
          eauto.
    + destruct r1 as [m1 |]; [| exists (S n1); simpl; unfold dict_assign; simpl;
                                rewrite Hr1; simpl; eauto].
      destruct (for_each_until_settles
                  (fun n => dict_value_step (type_of n) p) d)
        with (s := m1) as (n2 & r2 & Hr2).
      * intros n m s x Hle. now apply dict_value_step_mono.
      * intros item Hin acc. unfold dict_value_step.
        destruct (inferable_entries (PDict d) item Hinf Hin) as [Hitem _].
        destruct (negb (dict_in (fst item) acc)); [| eauto].
        destruct (String.eqb p KeyPolicy.EXACT || String.eqb p KeyPolicy.SUBSET);
          [eauto |].
        destruct (String.eqb p KeyPolicy.UNRESTRICTED); [| eauto].
        destruct (pyclass_eqb (class_of (snd item)) CDict).
        -- destruct (DictType_settles (snd item) p Hitem) as (n & r & Hn).
           exists n. rewrite Hn. simpl. eauto.
        -- destruct (inferable_type_of _ Hitem) as (n & r & Hn).
           exists n. rewrite Hn. simpl. eauto.
      * exists (S (Nat.max n1 n2)). simpl. unfold dict_assign. simpl.
        destruct (approx_for_each_until
                    (dict_known_step (assign n1) d p)
                    (dict_known_step (assign (Nat.max n1 n2)) d p) tm [])
          as [E | E]; [| congruence |].
        { intros s x. apply dict_known_step_mono, Nat.le_max_l. }
        rewrite <- E, Hr1. simpl.
        destruct (approx_for_each_until
                    (dict_value_step (type_of n2) p)
                    (dict_value_step (type_of (Nat.max n1 n2)) p) d m1)
          as [E' | E']; [| congruence |].
        { intros s x. apply dict_value_step_mono, Nat.le_max_r. }
        rewrite <- E', Hr2. simpl. destruct r2; eauto.
  - exists 1. simpl. eauto.
Qed.

(** C3, amended.  [assign] returns a descriptor, and raises nothing, for
    every descriptor and every value on which inference succeeds (the
    value and the values held inside it): a mismatch is the value
    [NeverType].  Enough fuel gives the result, and more fuel gives the
    same. *)
Theorem assign_returns_on_inferable (t : wbtype) (py_obj : pyval) :
  inferable py_obj ->
  exists n r, forall fuel, n <= fuel -> assign fuel t py_obj = Returns r.
Proof.
  intros Hinf.
  destruct (assign_settles_below (S (vsize py_obj)) py_obj (Nat.lt_succ_diag_r _)
              Hinf t) as (n & r & Hn).
  exists n, r. intros fuel Hle. now apply assign_more_fuel with n.
Qed.

Lemma assign_returns_on_inferable_witness :
  exists n r, forall fuel, n <= fuel ->
    assign fuel (Dict [("a", ListOf UnknownType)] KeyPolicy.UNRESTRICTED)
           (PDict [("a", PList [PInt 1; PInt 2]); ("b", PStr "x")])
    = Returns r.
Proof.
  apply (assign_returns_on_inferable
           (Dict [("a", ListOf UnknownType)] KeyPolicy.UNRESTRICTED)
           (PDict [("a", PList [PInt 1; PInt 2]); ("b", PStr "x")])).
  simpl. repeat split; try (exists 5; eexists; reflexivity).
Defined.

(** C3 as stated fails: a list of an [int] and a [str] assigned to
    [UnknownType] raises the [TypeError] of the [ListType] constructor
    that inference calls. *)
Lemma assign_raises_counterexample :
  assign 4 UnknownType (PList [PInt 1; PStr "a"])
  = Raises (TypeError "List contained incompatible types").
Proof. reflexivity. Qed.

(* ================================================================= *)
(** ** [UnionType.assign] against the scan of the specification *)

Lemma bind_returns {A B : Type} (c : outcome A) (k : A -> outcome B) (b : B) :
  bind c k = Returns b -> exists a, c = Returns a /\ k a = Returns b.
Proof. destruct c; simpl; try discriminate. eauto. Qed.

Lemma bind_bind {A B C : Type} (c : outcome A) (k : A -> outcome B)
      (h : B -> outcome C) :
  bind (bind c k) h = bind c (fun x => bind (k x) h).
Proof. now destruct c. Qed.

Lemma flatten_type_flat (t : wbtype) :
  Forall (fun m => isinstance m KUnion = false) (flatten_type t).
Proof.
  induction t as [t H1 H2 H3 H4 H5 | ms IH | c | e _ | tm p _ | val]
    using wbtype_nested_ind; simpl.
  - destruct t; try discriminate; now repeat constructor.
  - induction IH as [| m rest Hm _ IHrest]; simpl; [constructor |].
    apply Forall_app. now split.
  - now repeat constructor.
  - now repeat constructor.
  - now repeat constructor.
  - now repeat constructor.
Qed.

Lemma flatten_types_flat (l : list wbtype) :
  Forall (fun m => isinstance m KUnion = false) (flatten_types l).
Proof.
  unfold flatten_types.
  induction l as [| m rest IH]; simpl; [constructor |].
  apply Forall_app. split; [apply flatten_type_flat | assumption].
Qed.

Lemma flatten_types_id (l : list wbtype) :
  Forall (fun m => isinstance m KUnion = false) l -> flatten_types l = l.
Proof.
  unfold flatten_types.
  induction 1 as [| m rest Hm _ IH]; simpl; [reflexivity |].
  rewrite IH. destruct m; try discriminate; reflexivity.
Qed.

(** sorting and flattening what is flat and sorted changes nothing *)
Lemma UnionType_canonical (l : list wbtype) :
  UnionType (sort str (flatten_types l)) = UnionType l.
Proof.
  unfold UnionType. f_equal.
  rewrite (flatten_types_id (sort str (flatten_types l))).
  - apply sort_idempotent.
  - eapply Permutation_Forall.
    + symmetry. apply sort_perm.
    + apply flatten_types_flat.
Qed.

Lemma bind_ext {A B : Type} (c : outcome A) (k k' : A -> outcome B) :
  (forall x, k x = k' x) -> bind c k = bind c k'.
Proof. intros H. destruct c; simpl; auto. Qed.

Lemma union_loop_valid (a : wbtype -> pyval -> outcome wbtype) (v : pyval)
      (ms : list wbtype) (st : union_state) :
  valid st = true ->
  for_each (union_step a v) ms st
  = Returns {| resolved_types := (resolved_types st ++ ms)%list;
               valid := true;
               unknown_count := unknown_count st |}.
Proof.
  revert st. induction ms as [| m later IH]; intros st Hvalid; simpl.
  - rewrite app_nil_r. destruct st; simpl in *. now subst.
  - unfold union_step at 1. rewrite Hvalid. cbn [bind].
    rewrite IH by reflexivity. cbn. rewrite <- app_assoc. reflexivity.
Qed.

Lemma union_loop_scan (a : wbtype -> pyval -> outcome wbtype) (v : pyval)
      (ms : list wbtype) (st : union_state) :
  valid st = false ->
  for_each (union_step a v) ms st
  = (r <- spec_scan (fun m => a m v) ms ;; Returns (merge_scan st r)).
Proof.
  revert st. induction ms as [| m later IH]; intros st Hvalid; simpl.
  - unfold merge_scan. rewrite app_nil_r, Nat.add_0_r.
    destruct st; simpl in *. now subst.
  - unfold union_step at 1. rewrite Hvalid.
    destruct (isinstance m KUnknown).
    + cbn [bind]. rewrite IH by reflexivity. rewrite bind_bind.
      apply bind_ext. intros [rej n later' k | rej k]; cbn;
        f_equal; f_equal; lia.
    + destruct (a m v) as [n | e | |]; cbn [bind]; try reflexivity.
      destruct (n == NeverType); cbn [bind].
      * rewrite IH by reflexivity. rewrite bind_bind.
        apply bind_ext. intros [rej n' later' k | rej k]; cbn;
          now rewrite <- app_assoc.
      * rewrite union_loop_valid by reflexivity. cbn.
        rewrite Nat.add_0_r, <- app_assoc. reflexivity.
Qed.

Lemma union_assign_as_scan (a : wbtype -> pyval -> outcome wbtype)
      (ms : list wbtype) (v : pyval) :
  union_assign a ms v
  = spec_union_assign (fun m => a m v) (a UnknownType v) ms.
Proof.
  unfold union_assign, spec_union_assign.
  rewrite union_loop_scan by reflexivity. rewrite bind_bind.
  apply bind_ext. intros [rej n later k | rej k]; simpl.
  - rewrite UnionType_canonical, <- app_assoc. reflexivity.
  - destruct k as [| k]; simpl; [reflexivity |].
    apply bind_ext. intros t. destruct (t == NeverType); [reflexivity |].
    rewrite UnionType_canonical, Nat.sub_0_r, <- app_assoc. reflexivity.
Qed.

(** C4.  [UnionType.assign] is the scan of the specification: members
    in their stored (canonical) order, [Unknown]s before an acceptance
    counted and skipped, the first accepting member replaced by its
    narrowing and the later ones kept; with no acceptance the result is
    [NeverType] when no [Unknown] was counted, and otherwise one
    [Unknown] is resolved by [UnknownType.assign] on the value (the
    result being [NeverType] only if that gives [NeverType]); the
    [Unknown]s left over are members of the resulting union. *)
Theorem union_assign_follows_scan (fuel : nat) (ms : list wbtype) (v : pyval) :
  assign (S fuel) (Union ms) v
  = spec_union_assign (fun m => assign fuel m v) (assign fuel UnknownType v) ms.
Proof. simpl. apply union_assign_as_scan. Qed.

(* ================================================================= *)
(** ** A union with an [Unknown] member *)

Lemma type_of_not_never (n : nat) (v : pyval) (t : wbtype) :
  type_of n v = Returns t -> (t == NeverType) = false.
Proof.
  destruct n as [| n]; [discriminate |]. simpl. unfold type_of_body.
  destruct v; cbn -[ListType DictType]; try (intros [= <-]; reflexivity).
  all: try (unfold ListType; intros H;
            apply bind_returns in H; destruct H as (? & _ & H);
            apply bind_returns in H; destruct H as (? & _ & H);
            injection H as <-; reflexivity).
  unfold DictType. intros H.
  apply bind_returns in H. destruct H as (? & _ & H).
  injection H as <-. reflexivity.
Qed.

Lemma spec_scan_not_accepted (narrow : wbtype -> outcome wbtype)
      (ms rejecting : list wbtype) (k : nat) :
  spec_scan narrow ms = Returns (NotAccepted rejecting k) ->
  forall m, In m ms -> isinstance m KUnknown = true -> 0 < k.
Proof.
  revert rejecting k.
  induction ms as [| x later IH]; intros rejecting k Hscan m Hin Hm;
    [contradiction |].
  simpl in Hscan.
  destruct (isinstance x KUnknown) eqn:Hx.
  - apply bind_returns in Hscan. destruct Hscan as (r & _ & Hr).
    destruct r; simpl in Hr; [discriminate |].
    injection Hr as _ <-. lia.
  - apply bind_returns in Hscan. destruct Hscan as (n & _ & Hn).
    destruct (n == NeverType); [| discriminate].
    apply bind_returns in Hn. destruct Hn as (r & Hr & Hkeep).
    destruct r as [| rej k']; simpl in Hkeep; [discriminate |].
    injection Hkeep as _ <-.
    destruct Hin as [-> | Hin]; [congruence |].
    eapply IH; eassumption.
Qed.

Lemma union_result_not_never (fuel : nat) (ms : list wbtype) (v : pyval)
      (r : wbtype) :
  In UnknownType ms -> v <> PNone ->
  assign fuel (Union ms) v = Returns r -> (r == NeverType) = false.
Proof.
  intros Hin Hv Hr.
  destruct fuel as [| fuel]; [discriminate |].
  simpl in Hr. rewrite union_assign_as_scan in Hr.
  unfold spec_union_assign in Hr.
  apply bind_returns in Hr. destruct Hr as (sr & Hscan & Hr).
  destruct sr as [rej n later k | rej k].
  - injection Hr as <-. reflexivity.
  - pose proof (spec_scan_not_accepted _ _ _ _ Hscan UnknownType Hin eq_refl)
      as Hk.
    destruct k as [| k]; [lia |].
    apply bind_returns in Hr. destruct Hr as (t & Ht & Hr).
    destruct fuel as [| fuel]; [discriminate |].
    simpl in Ht. destruct v; try congruence; simpl in Ht;
      apply type_of_not_never in Ht; rewrite Ht in Hr;
      injection Hr as <-; reflexivity.
Qed.

(** C10, amended.  A union with an [Unknown] among its members, given a
    value other than [None] on which inference succeeds (the value and
    the values held inside it), returns a descriptor that is not
    [NeverType]. *)
Theorem union_with_unknown_accepts (ms : list wbtype) (py_obj : pyval) :
  In UnknownType ms -> py_obj <> PNone -> inferable py_obj ->
  exists n r,
    (forall fuel, n <= fuel -> assign fuel (Union ms) py_obj = Returns r)
    /\ (r == NeverType) = false.
Proof.
  intros Hin Hv Hinf.
  destruct (assign_settles_below (S (vsize py_obj)) py_obj
              (Nat.lt_succ_diag_r _) Hinf (Union ms)) as (n & r & Hn).
  exists n, r. split.
  - intros fuel Hle. now apply assign_more_fuel with n.
  - now apply union_result_not_never with n ms py_obj.
Qed.

Lemma union_with_unknown_accepts_witness :
  exists n r,
    (forall fuel, n <= fuel ->
       assign fuel (Union [NumberType; UnknownType]) (PList [PStr "a"; PStr "b"])
       = Returns r)
    /\ (r == NeverType) = false.
Proof.
  apply (union_with_unknown_accepts [NumberType; UnknownType]
           (PList [PStr "a"; PStr "b"])).
  - simpl. auto.
  - discriminate.
  - simpl. repeat split; try (exists 5; eexists; reflexivity).
Defined.

(** C10 as stated fails: the union of one [Unknown], given a list of an
    [int] and a [str], raises the [TypeError] of the inference it runs;
    no descriptor is returned. *)
Lemma union_with_unknown_counterexample :
  well_formed (UnionType [UnknownType]) = true
  /\ assign 5 (UnionType [UnknownType]) (PList [PInt 1; PStr "a"])
     = Raises (TypeError "List contained incompatible types").
Proof. split; reflexivity. Qed.

(* ================================================================= *)
(** ** [DictType.assign] against the key policy of the specification *)

Lemma dict_set_fresh {V : Type} (k : string) (v : V) (d : list (string * V)) :
  dict_in k d = false -> dict_set k v d = (d ++ [(k, v)])%list.
Proof.
  unfold dict_in. induction d as [| [k' w] rest IH]; simpl; [reflexivity |].
  destruct (String.eqb k k'); [discriminate |].
  intros H. now rewrite IH.
Qed.

Lemma dict_in_app {V : Type} (k : string) (d1 d2 : list (string * V)) :
  dict_in k (d1 ++ d2) = dict_in k d1 || dict_in k d2.
Proof.
  unfold dict_in. induction d1 as [| [k' w] rest IH]; simpl; [reflexivity |].
  destruct (String.eqb k k'); [reflexivity | exact IH].
Qed.

Lemma dict_in_keys {V W : Type} (k : string) (d1 : list (string * V))
      (d2 : list (string * W)) :
  map fst d1 = map fst d2 -> dict_in k d1 = dict_in k d2.
Proof.
  unfold dict_in. revert d2.
  induction d1 as [| [k1 v1] rest IH]; intros [| [k2 v2] rest2]; simpl;
    try discriminate; [reflexivity |].
  intros [= -> Hrest]. destruct (String.eqb k k2); [reflexivity | now apply IH].
Qed.

Lemma dict_in_existsb {V : Type} (k : string) (d : list (string * V)) :
  dict_in k d = existsb (String.eqb k) (map fst d).
Proof.
  unfold dict_in. induction d as [| [k' w] rest IH]; simpl; [reflexivity |].
  destruct (String.eqb k k'); [reflexivity | exact IH].
Qed.

Lemma distinct_cons (k : string) (rest : list string) :
  distinct (k :: rest) = true ->
  existsb (String.eqb k) rest = false /\ distinct rest = true.
Proof.
  simpl. intros H. apply andb_true_iff in H. destruct H as [H1 H2].
  split; [now apply negb_true_iff | assumption].
Qed.

Lemma existsb_eqb_false (k k' : string) (l : list string) :
  existsb (String.eqb k) l = false -> In k' l -> String.eqb k' k = false.
Proof.
  intros Hex Hin. destruct (String.eqb_spec k' k) as [-> | Hne]; [| reflexivity].
  assert (H : existsb (String.eqb k) l = true).
  { apply existsb_exists. exists k. split; [assumption | apply String.eqb_refl]. }
  congruence.
Qed.

Lemma collect_finish {B : Type} (acc : list B) (y : B)
      (c : outcome (option (list B))) :
  (r <- (rs <- c ;; Returns (option_map (cons y) rs)) ;;
   Returns (option_map (app acc) r))
  = (r <- c ;; Returns (option_map (app (acc ++ [y])%list) r)).
Proof.
  rewrite bind_bind. apply bind_ext. intros [rs |]; simpl; [| reflexivity].
  now rewrite <- app_assoc.
Qed.

Lemma known_loop (a : wbtype -> pyval -> outcome wbtype)
      (d : list (string * pyval)) (p : string) (tm acc : list (string * wbtype)) :
  In p [KeyPolicy.EXACT; KeyPolicy.SUBSET; KeyPolicy.UNRESTRICTED] ->
  distinct (map fst tm) = true ->
  (forall k, In k (map fst tm) -> dict_in k acc = false) ->
  for_each_until (dict_known_step a d p) tm acc
  = (r <- collect (spec_known_key a p d) tm ;;
     Returns (option_map (app acc) r)).
Proof.
  intros Hp. revert acc.
  induction tm as [| [key t] rest IH]; intros acc Hdistinct Hfresh.
  - simpl. now rewrite app_nil_r.
  - apply distinct_cons in Hdistinct. destruct Hdistinct as [Hkey Hrest].
    assert (Hacc : dict_in key acc = false) by (apply Hfresh; now left).
    assert (Hnext : forall x, forall k, In k (map fst rest) ->
                                        dict_in k (acc ++ [(key, x)]) = false).
    { intros x k Hk. rewrite dict_in_app, (Hfresh k) by now right.
      unfold dict_in. simpl.
      now rewrite (existsb_eqb_false key k (map fst rest)). }
    cbn [for_each_until collect].
    unfold dict_known_step at 1, spec_known_key at 1. cbn [fst snd].
    destruct (dict_get key d) as [value |].
    + rewrite !bind_bind. apply bind_ext. intros r. cbn [bind].
      destruct (r == NeverType); cbn [bind]; [reflexivity |].
      rewrite dict_set_fresh by assumption.
      rewrite IH by auto. now rewrite collect_finish.
    + rewrite !bind_bind. apply bind_ext. intros r. cbn [bind].
      destruct (r == NeverType); cbn [bind].
      * destruct Hp as [<- | [<- | [<- | []]]]; cbn; try reflexivity;
          rewrite dict_set_fresh by assumption;
          rewrite IH by auto; now rewrite collect_finish.
      * rewrite dict_set_fresh by assumption.
        rewrite IH by auto. now rewrite collect_finish.
Qed.

Lemma collect_known_keys (a : wbtype -> pyval -> outcome wbtype)
      (d : list (string * pyval)) (p : string) (tm known : list (string * wbtype)) :
  collect (spec_known_key a p d) tm = Returns (Some known) ->
  map fst known = map fst tm.
Proof.
  revert known. induction tm as [| [key t] rest IH]; intros known; simpl.
  - now intros [= <-].
  - intros H. apply bind_returns in H. destruct H as (r & Hr & H).
    destruct r as [y |]; [| discriminate].
    apply bind_returns in H. destruct H as (rs & Hrs & H).
    destruct rs as [ys |]; simpl in H; [| discriminate].
    injection H as <-. simpl. rewrite (IH ys Hrs). f_equal.
    unfold spec_known_key in Hr. simpl in Hr.
    destruct (dict_get key d);
      apply bind_returns in Hr; destruct Hr as (x & _ & Hx);
      destruct (x == NeverType); try discriminate;
      try (destruct (String.eqb p KeyPolicy.EXACT); try discriminate);
      now injection Hx as <-.
Qed.

Lemma new_loop (ty : pyval -> outcome wbtype) (p : string)
      (tm acc : list (string * wbtype)) (d : list (string * pyval)) :
  In p [KeyPolicy.EXACT; KeyPolicy.SUBSET; KeyPolicy.UNRESTRICTED] ->
  distinct (map fst d) = true ->
  (forall k, In k (map fst d) -> dict_in k acc = dict_in k tm) ->
  for_each_until (dict_value_step ty p) d acc
  = (r <- collect (spec_new_key ty p)
                  (filter (fun item => negb (dict_in (fst item) tm)) d) ;;
     Returns (option_map (app acc) r)).
Proof.
  intros Hp. revert acc.
  induction d as [| [key value] rest IH]; intros acc Hdistinct Hsame.
  - simpl. now rewrite app_nil_r.
  - apply distinct_cons in Hdistinct. destruct Hdistinct as [Hkey Hrest].
    cbn [for_each_until filter fst].
    unfold dict_value_step at 1. cbn [fst snd].
    rewrite (Hsame key) by now left.
    destruct (dict_in key tm) eqn:Hknown; cbn [negb bind].
    + apply IH; [assumption |]. intros k Hk. apply Hsame. now right.
    + cbn [collect]. unfold spec_new_key at 1. cbn [fst snd].
      assert (Hacc : dict_in key acc = false).
      { rewrite (Hsame key) by now left. assumption. }
      assert (Hnext : forall t k, In k (map fst rest) ->
                        dict_in k (acc ++ [(key, t)]) = dict_in k tm).
      { intros t k Hk. rewrite dict_in_app, (Hsame k) by now right.
        unfold dict_in at 2. simpl.
        rewrite (existsb_eqb_false key k (map fst rest)) by assumption.
        apply orb_false_r. }
      destruct Hp as [<- | [<- | [<- | []]]]; cbn -[DictType]; try reflexivity.
      destruct value; cbn -[DictType]; rewrite !bind_bind;
        apply bind_ext; intros t; cbn [bind];
        rewrite dict_set_fresh by assumption;
        (rewrite IH; [now rewrite collect_finish | assumption | apply Hnext]).
Qed.

Lemma dict_assign_as_spec (a : wbtype -> pyval -> outcome wbtype)
      (ty : pyval -> outcome wbtype) (tm : list (string * wbtype)) (p : string)
      (d : list (string * pyval)) :
  In p [KeyPolicy.EXACT; KeyPolicy.SUBSET; KeyPolicy.UNRESTRICTED] ->
  distinct (map fst tm) = true ->
  distinct (map fst d) = true ->
  dict_assign a ty tm p (PDict d) = spec_dict_assign a ty tm p d.
Proof.
  intros Hp Htm Hd. unfold dict_assign, spec_dict_assign.
  cbn [is_None class_of kind_types class_in existsb pyclass_eqb orb negb
       entries_of].
  rewrite known_loop by auto. rewrite bind_bind.
  destruct (collect (spec_known_key a p d) tm) as [[known |] | e | |] eqn:Hknown;
    cbn [bind option_map app]; try reflexivity.
  rewrite new_loop with (tm := tm); auto.
  - rewrite bind_bind. apply bind_ext. intros [added |]; reflexivity.
  - intros k _. apply dict_in_keys. now apply collect_known_keys in Hknown.
Qed.



(* ================================================================= *)
(** ** Round trip through JSON *)

Lemma depth_member (m : wbtype) (ms : list wbtype) :
  In m ms -> depth m <= fold_right (fun m d => Nat.max (depth m) d) 0 ms.
Proof.
  induction ms as [| x rest IH]; simpl; [contradiction |].
  intros [-> | Hin]; [lia |]. specialize (IH Hin). lia.
Qed.

Lemma depth_entry (kv : string * wbtype) (tm : list (string * wbtype)) :
  In kv tm ->
  depth (snd kv) <= fold_right (fun kv d => Nat.max (depth (snd kv)) d) 0 tm.
Proof.
  induction tm as [| x rest IH]; simpl; [contradiction |].
  intros [-> | Hin]; [lia |]. specialize (IH Hin). lia.
Qed.

(** the serialization of a descriptor is a dict with a discriminant *)
Lemma decode_nested (fuel : nat) (t : wbtype) :
  json_obj_to_params_obj (S fuel) (to_json t)
  = (t' <- type_from_dict fuel (to_json t) ;; Returns (OType t')).
Proof. destruct t; reflexivity. Qed.

Lemma traverse_members (fuel : nat) (ms : list wbtype) :
  (forall m, In m ms -> type_from_dict fuel (to_json m) = Returns m) ->
  traverse (json_obj_to_params_obj (S fuel)) (map to_json ms)
  = Returns (map OType ms).
Proof.
  induction ms as [| m rest IH]; intros Hms; [reflexivity |].
  cbn [map traverse]. rewrite decode_nested, (Hms m) by now left.
  cbn [bind]. rewrite IH; [reflexivity |].
  intros x Hx. apply Hms. now right.
Qed.

Lemma traverse_entries (fuel : nat) (tm : list (string * wbtype)) :
  (forall kv, In kv tm -> type_from_dict fuel (to_json (snd kv)) = Returns (snd kv)) ->
  traverse (fun kv => o <- json_obj_to_params_obj (S fuel) (snd kv) ;;
                      Returns (fst kv, o))
           (map (fun kv => (fst kv, to_json (snd kv))) tm)
  = Returns (map (fun kv => (fst kv, OType (snd kv))) tm).
Proof.
  induction tm as [| kv rest IH]; intros Htm; [reflexivity |].
  cbn [map traverse fst snd]. rewrite decode_nested, (Htm kv) by now left.
  cbn [bind]. rewrite IH; [reflexivity |].
  intros x Hx. apply Htm. now right.
Qed.

Lemma as_types_map (ms : list wbtype) : as_types (map OType ms) = Some ms.
Proof.
  unfold as_types. induction ms as [| m rest IH]; simpl; [reflexivity |].
  now rewrite IH.
Qed.

Lemma as_type_map_map (tm : list (string * wbtype)) :
  as_type_map (map (fun kv => (fst kv, OType (snd kv))) tm) = Some tm.
Proof.
  unfold as_type_map. induction tm as [| [k t] rest IH]; simpl; [reflexivity |].
  now rewrite IH.
Qed.

Lemma sorted_by_sort {A : Type} (key : A -> string) (l : list A) :
  sorted_by key l = true -> sort key l = l.
Proof.
  induction l as [| x rest IH]; [reflexivity |].
  intros H. simpl in H. simpl sort.
  destruct rest as [| y rest']; [reflexivity |].
  apply andb_true_iff in H. destruct H as [Hle Hrest].
  rewrite IH by assumption. simpl. now rewrite Hle.
Qed.

Lemma UnionType_well_formed (ms : list wbtype) :
  forallb (fun m => negb (isinstance m KUnion)) ms = true ->
  sorted_by str ms = true ->
  UnionType ms = Union ms.
Proof.
  intros Hflat Hsorted. unfold UnionType.
  rewrite flatten_types_id.
  - now rewrite sorted_by_sort.
  - apply Forall_forall. intros m Hm.
    rewrite forallb_forall in Hflat. specialize (Hflat m Hm).
    now apply negb_true_iff.
Qed.

Lemma type_from_dict_unfold (fuel : nat) (d : list (string * pyval)) :
  type_from_dict (S fuel) (PDict d)
  = (_type <- handler_for (dict_get "wb_type" d) ;;
     match _type with
     | None =>
         Raises (AttributeError "'NoneType' object has no attribute 'from_json'")
     | Some cls =>
         params <- json_obj_to_params_obj fuel
                     match dict_get "params" d with
                     | Some p => p
                     | None => PDict []
                     end ;;
         construct_from_params cls params
     end).
Proof. reflexivity. Qed.

Lemma params_dict_unfold (fuel : nat) (d : list (string * pyval)) :
  dict_in "wb_type" d = false ->
  json_obj_to_params_obj (S fuel) (PDict d)
  = (items <- traverse (fun kv => o <- json_obj_to_params_obj fuel (snd kv) ;;
                                  Returns (fst kv, o)) d ;;
     Returns (ODict items)).
Proof. intros H. simpl. now rewrite H. Qed.

Lemma params_list_unfold (fuel : nat) (l : list pyval) :
  json_obj_to_params_obj (S fuel) (PList l)
  = (items <- traverse (json_obj_to_params_obj fuel) l ;; Returns (OList items)).
Proof. reflexivity. Qed.

Lemma params_str_unfold (fuel : nat) (s : string) :
  json_obj_to_params_obj (S fuel) (PStr s) = Returns (OVal (PStr s)).
Proof. reflexivity. Qed.

Lemma round_trip_exact (t : wbtype) :
  well_formed t = true -> decodable t = true ->
  forall fuel, 4 * depth t <= fuel -> type_from_dict fuel (to_json t) = Returns t.
Proof.
  induction t as [t H1 H2 H3 H4 H5 | ms IH | c | e IH | tm p IH | val]
    using wbtype_nested_ind; intros Hwf Hdec fuel Hfuel.
  - destruct t; try discriminate;
      (destruct fuel as [| [| fuel]]; [simpl in Hfuel; lia .. |]); reflexivity.
  - (* Union *)
    simpl in Hwf, Hdec, Hfuel.
    apply andb_true_iff in Hwf. destruct Hwf as [Hwf Hsorted].
    apply andb_true_iff in Hwf. destruct Hwf as [Hwf Hflat].
    destruct fuel as [| [| [| [| fuel]]]]; try lia.
    assert (Hms : forall m, In m ms -> type_from_dict fuel (to_json m) = Returns m).
    { intros m Hm. rewrite Forall_forall in IH.
      rewrite forallb_forall in Hwf, Hdec.
      apply IH; auto. pose proof (depth_member m ms Hm). lia. }
    cbn [to_json]. unfold json_res. cbn [name kind_of kind_name].
    rewrite type_from_dict_unfold.
    cbn -[type_from_dict json_obj_to_params_obj].
    rewrite params_dict_unfold by reflexivity.
    cbn -[type_from_dict json_obj_to_params_obj].
    rewrite params_list_unfold, traverse_members by assumption.
    cbn -[type_from_dict json_obj_to_params_obj UnionType].
    rewrite as_types_map. now rewrite UnionType_well_formed.
  - (* Object *)
    simpl in Hwf.
    destruct fuel as [| [| [| fuel]]]; [simpl in Hfuel; lia .. |].
    destruct c as [| ch c]; [discriminate |]. reflexivity.
  - (* ListOf *)
    simpl in Hwf, Hdec, Hfuel.
    destruct fuel as [| [| [| fuel]]]; try lia.
    cbn [to_json]. unfold json_res. cbn [name kind_of kind_name].
    rewrite type_from_dict_unfold.
    cbn -[type_from_dict json_obj_to_params_obj].
    rewrite params_dict_unfold by reflexivity.
    cbn -[type_from_dict json_obj_to_params_obj].
    rewrite decode_nested, IH by (auto; lia). reflexivity.
  - (* Dict *)
    simpl in Hwf, Hdec, Hfuel.
    apply andb_true_iff in Hwf. destruct Hwf as [Hwf Hdistinct].
    apply andb_true_iff in Hdec. destruct Hdec as [Hdec Hkey].
    apply negb_true_iff in Hkey.
    destruct fuel as [| [| [| [| fuel]]]]; try lia.
    assert (Htm : forall kv, In kv tm ->
                    type_from_dict fuel (to_json (snd kv)) = Returns (snd kv)).
    { intros kv Hkv. rewrite Forall_forall in IH.
      rewrite forallb_forall in Hwf, Hdec.
      apply IH; auto. pose proof (depth_entry kv tm Hkv). lia. }
    cbn [to_json]. unfold json_res. cbn [name kind_of kind_name].
    rewrite type_from_dict_unfold.
    cbn -[type_from_dict json_obj_to_params_obj].
    rewrite params_dict_unfold by reflexivity.
    cbn -[type_from_dict json_obj_to_params_obj].
    rewrite params_dict_unfold.
    + rewrite traverse_entries by assumption.
      cbn -[type_from_dict json_obj_to_params_obj as_type_map].
      rewrite params_str_unfold.
      cbn -[type_from_dict json_obj_to_params_obj as_type_map].
      now rewrite as_type_map_map.
    + etransitivity; [| exact Hkey]. apply dict_in_keys.
      rewrite map_map. reflexivity.
  - discriminate.
Qed.




(** The serialization of a [ConstType] is not read back either:
    [ConstType.__init__] asserts on the class of [py_obj], which
    [from_json] leaves out. *)
Lemma const_from_json_raises :
  ConstType (PStr "a") = Returns (Const (PStr "a"))
  /\ type_from_dict 3 (to_json (Const (PStr "a"))) = Raises AssertionError.
Proof. split; reflexivity. Qed.

(* ================================================================= *)
(** ** Assigning the same value twice *)

Lemma str_unknown (m : wbtype) : str m = str UnknownType -> m = UnknownType.
Proof. destruct m; cbn; intros H; try discriminate H; reflexivity. Qed.

Lemma isinstance_unknown (m : wbtype) :
  isinstance m KUnknown = true -> m = UnknownType.
Proof. destruct m; try discriminate; reflexivity. Qed.

(** under the key of [UnknownType] only [UnknownType] is filed *)
Lemma filed_unknown (l : list wbtype) :
  exists n, filed str (str UnknownType) l = repeat UnknownType n.
Proof.
  induction l as [| m rest [n IH]]; [now exists 0 |].
  unfold filed in *. cbn [filter].
  destruct (String.eqb_spec (str m) (str UnknownType)) as [Heq | Hne].
  - apply str_unknown in Heq. subst m. exists (S n).
    cbn [repeat]. now rewrite IH.
  - now exists n.
Qed.

(** moving one [UnknownType] from the front to the back keeps what is
    filed under every key *)
Lemma filed_unknown_last (c : string) (l : list wbtype) :
  filed str c (l ++ [UnknownType]) = filed str c (UnknownType :: l).
Proof.
  rewrite filed_app.
  change (UnknownType :: l) with ([UnknownType] ++ l)%list. rewrite filed_app.
  unfold filed at 2 3. cbn [filter].
  destruct (String.eqb_spec (str UnknownType) c) as [<- | Hne].
  - destruct (filed_unknown l) as [n ->].
    change [UnknownType] with (repeat UnknownType 1).
    rewrite <- !repeat_app. f_equal. lia.
  - now rewrite app_nil_r.
Qed.

Lemma repeat_snoc {A : Type} (x : A) (n : nat) :
  repeat x (S n) = (repeat x n ++ [x])%list.
Proof.
  induction n as [| n IH]; [reflexivity |].
  simpl in *. now rewrite <- IH.
Qed.

Section ScanUnchanged.
Variable narrow : wbtype -> outcome wbtype.
Variable members : list wbtype.

(** every member, asked to narrow, answers itself or [NeverType] *)
Hypothesis Hnarrow :
  forall m r, In m members -> isinstance m KUnknown = false ->
              narrow m = Returns r -> r = m \/ r = NeverType.

Lemma scan_filed (l : list wbtype) :
  incl l members ->
  forall r, spec_scan narrow l = Returns r ->
  forall c,
    filed str c l
    = filed str c match r with
                  | Accepted rejecting w later k =>
                      rejecting ++ [w] ++ later ++ repeat UnknownType k
                  | NotAccepted rejecting k =>
                      rejecting ++ repeat UnknownType k
                  end%list.
Proof.
  induction l as [| x rest IH]; intros Hincl r Hscan c.
  - injection Hscan as <-. reflexivity.
  - assert (Hrest : incl rest members) by (intros y Hy; apply Hincl; now right).
    simpl in Hscan.
    destruct (isinstance x KUnknown) eqn:Hx.
    + apply isinstance_unknown in Hx. subst x.
      apply bind_returns in Hscan. destruct Hscan as (r' & Hr' & Hskip).
      injection Hskip as <-. rewrite <- filed_unknown_last.
      rewrite filed_app, (IH Hrest r' Hr' c), <- filed_app.
      destruct r' as [rej w later k | rej k]; cbn [skip_unknown];
        rewrite repeat_snoc, <- ?app_assoc; reflexivity.
    + apply bind_returns in Hscan. destruct Hscan as (n & Hn & Hscan).
      destruct (n == NeverType) eqn:Hnever.
      * apply bind_returns in Hscan. destruct Hscan as (r' & Hr' & Hkeep).
        injection Hkeep as <-.
        change (x :: rest) with ([x] ++ rest)%list.
        rewrite filed_app, (IH Hrest r' Hr' c), <- filed_app.
        destruct r'; reflexivity.
      * injection Hscan as <-.
        destruct (Hnarrow x n (Hincl x (in_eq _ _)) Hx Hn) as [-> | ->].
        -- simpl. now rewrite app_nil_r.
        -- discriminate.
Qed.

Lemma scan_not_accepted_rejects (l rejecting : list wbtype) (k : nat) :
  spec_scan narrow l = Returns (NotAccepted rejecting k) ->
  forall m, In m l -> isinstance m KUnknown = false ->
            narrow m = Returns NeverType.
Proof.
  revert rejecting k.
  induction l as [| x rest IH]; intros rejecting k Hscan m Hin Hm;
    [contradiction |].
  simpl in Hscan.
  destruct (isinstance x KUnknown) eqn:Hx.
  - apply bind_returns in Hscan. destruct Hscan as (r' & Hr' & Hskip).
    destruct r' as [| rej' k']; [discriminate |].
    destruct Hin as [-> | Hin]; [congruence |].
    eapply IH; eassumption.
  - apply bind_returns in Hscan. destruct Hscan as (n & Hn & Hscan).
    destruct (n == NeverType) eqn:Hnever; [| discriminate].
    apply eq_NeverType_true in Hnever. subst n.
    apply bind_returns in Hscan. destruct Hscan as (r' & Hr' & Hkeep).
    destruct r' as [| rej' k']; [discriminate |].
    destruct Hin as [-> | Hin]; [assumption |].
    eapply IH; eassumption.
Qed.
End ScanUnchanged.

Lemma sorted_by_strongly {A : Type} (key : A -> string) (l : list A) :
  sorted_by key l = true -> StronglySorted (key_le key) l.
Proof.
  induction l as [| x rest IH]; intros H; [constructor |].
  simpl in H. destruct rest as [| y rest'].
  - repeat constructor.
  - apply andb_true_iff in H. destruct H as [Hle Hrest].
    specialize (IH Hrest). constructor; [assumption |].
    inversion IH as [| ? ? _ Hall]; subst.
    constructor; [exact Hle |].
    eapply Forall_impl; [| exact Hall].
    intros z Hz. unfold key_le in *. eapply leb_trans; eassumption.
Qed.

Lemma filed_incl {A : Type} (key : A -> string) (l1 l2 : list A) :
  (forall c, filed key c l1 = filed key c l2) -> incl l2 l1.
Proof.
  intros Hfiled x Hx.
  assert (Hin : In x (filed key (key x) l1)).
  { rewrite Hfiled. now apply filed_In. }
  apply filter_In in Hin. tauto.
Qed.

Lemma member_assign_scalar (fuel : nat) (m : wbtype) (v : pyval) (r : wbtype) :
  scalar v = true -> isinstance m KUnion = false ->
  isinstance m KUnknown = false ->
  assign fuel m v = Returns r -> r = m \/ r = NeverType.
Proof.
  intros Hv Hunion Hunknown.
  destruct fuel as [| fuel]; [discriminate |].
  destruct m; try discriminate; simpl;
    try (intros [= <-];
         match goal with |- (if ?b then _ else _) = _ \/ _ => destruct b end;
         auto; fail).
  - intros [= <-]. auto.
  - destruct v; try discriminate; intros [= <-]; auto.
  - destruct v; try discriminate; intros [= <-]; auto.
Qed.

Lemma flat_narrow (fuel : nat) (v : pyval) (l : list wbtype) :
  scalar v = true -> flat l ->
  forall m r, In m l -> isinstance m KUnknown = false ->
              assign fuel m v = Returns r -> r = m \/ r = NeverType.
Proof.
  intros Hv Hflat m r Hin Hm. apply member_assign_scalar; auto.
  unfold flat in Hflat. rewrite Forall_forall in Hflat. auto.
Qed.

(** a sorted flat union that accepts a scalar is left as it is *)
Lemma accepted_union (fuel : nat) (v : pyval) (l rej later : list wbtype)
      (w : wbtype) (k : nat) :
  scalar v = true -> flat l -> StronglySorted (key_le str) l ->
  spec_scan (fun m => assign fuel m v) l = Returns (Accepted rej w later k) ->
  UnionType (rej ++ [w] ++ later ++ repeat UnknownType k) = Union l.
Proof.
  intros Hv Hflat Hsorted Hscan.
  pose proof (scan_filed (fun m => assign fuel m v) l
                (flat_narrow fuel v l Hv Hflat) l (incl_refl l) _ Hscan)
    as Hfiled.
  cbv beta iota in Hfiled.
  unfold UnionType. f_equal.
  rewrite flatten_types_id.
  - apply sort_unique; [assumption |]. intros c. symmetry. apply Hfiled.
  - unfold flat in Hflat. rewrite Forall_forall in *. intros m Hm.
    apply Hflat. now apply (filed_incl str l _ Hfiled).
Qed.

Lemma infer_scalar (fuel : nat) (v : pyval) (t : wbtype) :
  scalar v = true ->
  assign fuel UnknownType v = Returns t -> (t == NeverType) = false ->
  isinstance t KUnion = false /\ isinstance t KUnknown = false
  /\ assign fuel t v = Returns t.
Proof.
  intros Hv Ht Hnever.
  destruct fuel as [| [| fuel]]; try discriminate.
  - destruct v; try discriminate; simpl in Ht; try discriminate.
    injection Ht as <-. discriminate.
  - destruct v; try discriminate; simpl in Ht; injection Ht as <-;
      try discriminate; repeat split; simpl.
    now rewrite String.eqb_refl.
Qed.

Lemma union_assign_scalar_twice (fuel : nat) (ms : list wbtype) (v : pyval)
      (t1 t2 : wbtype) :
  scalar v = true -> flat ms -> StronglySorted (key_le str) ms ->
  assign fuel (Union ms) v = Returns t1 ->
  assign fuel t1 v = Returns t2 -> t2 = t1.
Proof.
  intros Hv Hflat Hsorted H1 H2.
  destruct fuel as [| fuel]; [discriminate |].
  pose proof H1 as H1'. simpl in H1'. rewrite union_assign_as_scan in H1'.
  unfold spec_union_assign in H1'.
  apply bind_returns in H1'. destruct H1' as (sr & Hscan & Hres).
  destruct sr as [rej w later k | rej k].
  - assert (Ht1 : t1 = Union ms).
    { injection Hres as <-.
      now apply (accepted_union fuel v ms rej later w k). }
    subst t1. congruence.
  - destruct k as [| k].
    { injection Hres as <-. simpl in H2. congruence. }
    apply bind_returns in Hres. destruct Hres as (n & Hn & Hres).
    destruct (n == NeverType) eqn:Hnever.
    { injection Hres as <-. simpl in H2. congruence. }
    destruct (infer_scalar fuel v n Hv Hn Hnever) as (Hn1 & Hn2 & Hn3).
    pose proof (scan_filed (fun m => assign fuel m v) ms
                  (flat_narrow fuel v ms Hv Hflat) ms (incl_refl ms) _ Hscan)
      as Hfiled.
    cbv beta iota in Hfiled.
    assert (Hrej : flat rej).
    { unfold flat in *. rewrite Forall_forall in *. intros m Hm.
      apply Hflat. apply (filed_incl str ms _ Hfiled).
      apply in_or_app. now left. }
    assert (HX : flat (rej ++ [n] ++ repeat UnknownType k)).
    { unfold flat in *. repeat (apply Forall_app; split); auto.
      apply Forall_forall. intros x Hx. apply repeat_spec in Hx. now subst. }
    set (l' := sort str (rej ++ [n] ++ repeat UnknownType k)).
    assert (Ht1 : t1 = Union l').
    { injection Hres as <-. unfold UnionType. f_equal.
      rewrite flatten_types_id by exact HX. reflexivity. }
    subst t1.
    assert (Hperm : Permutation l' (rej ++ [n] ++ repeat UnknownType k))
      by apply sort_perm.
    assert (Hl' : flat l').
    { unfold flat. eapply Permutation_Forall; [symmetry; exact Hperm | exact HX]. }
    assert (Hsorted' : StronglySorted (key_le str) l') by apply sort_sorted.
    simpl in H2. rewrite union_assign_as_scan in H2.
    unfold spec_union_assign in H2.
    apply bind_returns in H2. destruct H2 as (sr' & Hscan' & Hres').
    destruct sr' as [rej' w' later' k' | rej' k'].
    + injection Hres' as <-.
      now apply (accepted_union fuel v l' rej' later' w' k').
    + exfalso.
      assert (Hin : In n l').
      { apply (Permutation_in _ (Permutation_sym Hperm)).
        apply in_or_app. right. now left. }
      pose proof (scan_not_accepted_rejects _ _ _ _ Hscan' n Hin Hn2) as Hrejects.
      cbv beta in Hrejects. rewrite Hn3 in Hrejects.
      injection Hrejects as ->. discriminate.
Qed.

Lemma assign_scalar_twice (fuel : nat) (t : wbtype) (v : pyval) (t1 t2 : wbtype) :
  well_formed t = true -> scalar v = true ->
  assign fuel t v = Returns t1 -> assign fuel t1 v = Returns t2 -> t2 = t1.
Proof.
  intros Hwf Hv H1 H2.
  destruct (isinstance t KUnion) eqn:Hunion.
  - destruct t; try discriminate.
    simpl in Hwf.
    apply andb_true_iff in Hwf. destruct Hwf as [Hwf Hsorted].
    apply andb_true_iff in Hwf. destruct Hwf as [_ Hflat].
    eapply union_assign_scalar_twice; eauto.
    + apply Forall_forall. intros m Hm.
      rewrite forallb_forall in Hflat. specialize (Hflat m Hm).
      now apply negb_true_iff.
    + now apply sorted_by_strongly.
  - destruct (isinstance t KUnknown) eqn:Hunknown.
    + apply isinstance_unknown in Hunknown. subst t.
      destruct (t1 == NeverType) eqn:Hnever.
      * apply eq_NeverType_true in Hnever. subst t1.
        destruct fuel; [discriminate |]. simpl in H2. congruence.
      * destruct (infer_scalar fuel v t1 Hv H1 Hnever) as (_ & _ & H3).
        congruence.
    + destruct (member_assign_scalar fuel t v t1 Hv Hunion Hunknown H1)
        as [-> | ->].
      * congruence.
      * destruct fuel; [discriminate |]. simpl in H2. congruence.
Qed.

Lemma scalar_inferable (v : pyval) : scalar v = true -> inferable v.
Proof.
  destruct v; try discriminate; intros _; (split; [| exact I]);
    exists 1; eexists; reflexivity.
Qed.




(* ================================================================= *)
(** ** [assign] writes to new objects only *)

Module StoreFacts.
Import Store.

Lemma frames_weaken (n0 : nat) {A : Type} (m : M A) (Q R : A -> Prop) :
  frames n0 m Q -> (forall x, Q x -> R x) -> frames n0 m R.
Proof.
  intros Hm HQR h x h' Hn Hrun.
  destruct (Hm h x h' Hn Hrun) as (H1 & H2 & H3). auto.
Qed.

Lemma fresh_any (n0 : nat) (m : M nat) : frames_fresh n0 m -> frames_any n0 m.
Proof. intros H. eapply frames_weaken; [exact H | auto]. Qed.

Lemma frames_ret (n0 : nat) {A : Type} (x : A) (Q : A -> Prop) :
  Q x -> frames n0 (ret x) Q.
Proof. intros HQ h y h' _ [= <- <-]. auto. Qed.

Lemma frames_raise (n0 : nat) {A : Type} (e : exn) (Q : A -> Prop) :
  frames n0 (raise e) Q.
Proof. intros h x h' _ H. discriminate H. Qed.

Lemma frames_unmodelled (n0 : nat) {A : Type} (Q : A -> Prop) :
  frames n0 unmodelled Q.
Proof. intros h x h' _ H. discriminate H. Qed.

Lemma frames_out_of_fuel (n0 : nat) {A : Type} (Q : A -> Prop) :
  frames n0 out_of_fuel Q.
Proof. intros h x h' _ H. discriminate H. Qed.

Lemma frames_bind (n0 : nat) {A B : Type} (m : M A) (k : A -> M B)
      (Q : A -> Prop) (R : B -> Prop) :
  frames n0 m Q -> (forall x, Q x -> frames n0 (k x) R) ->
  frames n0 (bindM m k) R.
Proof.
  intros Hm Hk h y h' Hn Hrun. unfold bindM in Hrun.
  destruct (m h) as [[x h1] | | |] eqn:Hmh; try discriminate.
  destruct (Hm h x h1 Hn Hmh) as (Hlen1 & Hold1 & HQ).
  destruct (Hk x HQ h1 y h' ltac:(lia) Hrun) as (Hlen2 & Hold2 & HR).
  repeat split; [lia | | assumption].
  intros a Ha. rewrite Hold2 by assumption. now apply Hold1.
Qed.

Lemma bind_any (n0 : nat) {A B : Type} (m : M A) (k : A -> M B) (R : B -> Prop) :
  frames_any n0 m -> (forall x, frames n0 (k x) R) -> frames n0 (bindM m k) R.
Proof. intros Hm Hk. eapply frames_bind; [exact Hm | auto]. Qed.

Lemma bind_fresh (n0 : nat) {B : Type} (m : M nat) (k : nat -> M B)
      (R : B -> Prop) :
  frames_fresh n0 m -> (forall a, n0 <= a -> frames n0 (k a) R) ->
  frames n0 (bindM m k) R.
Proof. intros Hm Hk. eapply frames_bind; [exact Hm | auto]. Qed.

Lemma frames_alloc (n0 : nat) (c : cell) : frames_fresh n0 (alloc c).
Proof.
  intros h x h' Hn [= <- <-]. rewrite length_app. simpl.
  repeat split; [lia | | assumption].
  intros a Ha. apply nth_error_app1. lia.
Qed.

Lemma frames_load (n0 : nat) (a : nat) : frames_any n0 (load a).
Proof.
  intros h x h' _ H. unfold load in H.
  destruct (nth_error h a); [| discriminate].
  injection H as <- <-. auto.
Qed.

Lemma frames_store (n0 : nat) (a : nat) (c : cell) :
  n0 <= a -> frames_any n0 (store a c).
Proof.
  intros Ha h x h' Hn H. unfold store in H.
  destruct (Nat.ltb_spec a (List.length h)) as [Hlt | Hge]; [| discriminate].
  injection H as _ <-.
  assert (Hfirst : List.length (firstn a h) = a)
    by (rewrite length_firstn; lia).
  repeat split.
  - rewrite length_app, Hfirst. cbn [List.length].
    change (match h with [] => [] | _ :: l => skipn a l end)
      with (skipn (S a) h).
    rewrite length_skipn. lia.
  - intros b Hb. rewrite nth_error_app1 by lia.
    rewrite nth_error_firstn.
    destruct (Nat.ltb_spec b a); [reflexivity | lia].
Qed.

Lemma frames_read (n0 : nat) {A : Type} (f : heap -> outcome A) :
  frames_any n0 (read f).
Proof.
  intros h x h' _ H. unfold read in H.
  destruct (f h); try discriminate. injection H as <- <-. auto.
Qed.

Lemma frames_for_each (n0 : nat) {S A : Type} (step : S -> A -> M S)
      (items : list A) (s : S) :
  (forall s x, frames_any n0 (step s x)) ->
  frames_any n0 (for_each_M step items s).
Proof.
  intros Hstep. revert s.
  induction items as [| x rest IH]; intros s; simpl.
  - now apply frames_ret.
  - apply bind_any; auto.
Qed.

Lemma frames_for_each_until (n0 : nat) {S A : Type}
      (step : S -> A -> M (option S)) (items : list A) (s : S) :
  (forall s x, frames_any n0 (step s x)) ->
  frames_any n0 (for_each_until_M step items s).
Proof.
  intros Hstep. revert s.
  induction items as [| x rest IH]; intros s; simpl.
  - now apply frames_ret.
  - apply bind_any; auto.
    intros [s' |]; [apply IH | now apply frames_ret].
Qed.
Ltac frames_step :=
  match goal with
  | |- frames _ (ret _) _ => apply frames_ret; first [exact I | assumption | lia]
  | |- frames _ (raise _) _ => apply frames_raise
  | |- frames _ unmodelled _ => apply frames_unmodelled
  | |- frames _ out_of_fuel _ => apply frames_out_of_fuel
  | |- frames _ (bindM _ _) _ =>
      first [ apply bind_fresh; [solve [eauto with fresh] | intros ? ?]
            | apply bind_any; [| intros ?] ]
  | |- frames _ (for_each_M _ _ _) _ => apply frames_for_each; intros ? ?
  | |- frames _ (for_each_until_M _ _ _) _ =>
      apply frames_for_each_until; intros ? ?
  | |- frames _ (if ?b then _ else _) _ => destruct b
  | |- frames _ (match ?x with _ => _ end) _ => destruct x
  | |- frames _ _ (fun _ => True) => solve [eauto with frames]
  end.

Ltac frames_auto := repeat frames_step.

Create HintDb frames.
Create HintDb fresh.

#[local] Hint Resolve frames_alloc : fresh.
#[local] Hint Resolve frames_load frames_read : frames.
#[local] Hint Extern 1 (frames _ (store _ _) _) =>
  apply frames_store; assumption : frames.
#[local] Hint Extern 1 (frames _ (alloc _) (fun _ => True)) =>
  apply fresh_any, frames_alloc : frames.

Lemma frames_params_of (n0 self : nat) : frames_any n0 (params_of self).
Proof. unfold params_of. frames_auto. Qed.

Lemma frames_kind_at (n0 self : nat) : frames_any n0 (kind_at self).
Proof. unfold kind_at. frames_auto. Qed.

Lemma frames_dict_entries (n0 d : nat) : frames_any n0 (dict_entries d).
Proof. unfold dict_entries. frames_auto. Qed.

Lemma frames_list_items (n0 l : nat) : frames_any n0 (list_items l).
Proof. unfold list_items. frames_auto. Qed.

#[local] Hint Resolve frames_params_of frames_kind_at frames_dict_entries
  frames_list_items : frames.

Lemma frames_list_append (n0 l : nat) (x : hval) :
  n0 <= l -> frames_any n0 (list_append l x).
Proof. intros Hl. unfold list_append. frames_auto. Qed.

Lemma frames_dict_setitem (n0 d : nat) (key : string) (x : hval) :
  n0 <= d -> frames_any n0 (dict_setitem d key x).
Proof. intros Hd. unfold dict_setitem. frames_auto. Qed.

Lemma frames_dict_getitem (n0 d : nat) (key : string) :
  frames_any n0 (dict_getitem d key).
Proof. unfold dict_getitem. frames_auto. Qed.

Lemma frames_as_ref (n0 : nat) (x : hval) : frames_any n0 (as_ref x).
Proof. unfold as_ref. frames_auto. Qed.

Lemma frames_type_eq (n0 fuel a b : nat) : frames_any n0 (type_eq fuel a b).
Proof. unfold type_eq. apply frames_read. Qed.

Lemma frames_list_sort (n0 fuel l : nat) :
  n0 <= l -> frames_any n0 (list_sort fuel l).
Proof. intros Hl. unfold list_sort. frames_auto. Qed.

Lemma frames_new_type (n0 : nat) (k : kind) (params : nat) :
  frames_fresh n0 (new_type k params).
Proof. apply frames_alloc. Qed.

#[local] Hint Resolve frames_dict_getitem frames_as_ref frames_type_eq : frames.
#[local] Hint Extern 1 (frames _ (list_append _ _) _) =>
  apply frames_list_append; assumption : frames.
#[local] Hint Extern 1 (frames _ (dict_setitem _ _ _) _) =>
  apply frames_dict_setitem; assumption : frames.
#[local] Hint Extern 1 (frames _ (list_sort _ _) _) =>
  apply frames_list_sort; assumption : frames.
#[local] Hint Extern 1 (frames _ (new_type _ _) (fun _ => True)) =>
  apply fresh_any, frames_new_type : frames.
#[local] Hint Resolve frames_new_type : fresh.

Lemma frames_flatten_types (fuel n0 allowed_types : nat) :
  frames_fresh n0 (flatten_types fuel allowed_types).
Proof.
  revert n0 allowed_types.
  induction fuel as [| fuel IH]; intros n0 allowed_types; simpl.
  - apply frames_out_of_fuel.
  - apply bind_fresh; [apply frames_alloc | intros final_types Hfresh].
    apply bind_any; [apply frames_list_items | intros items].
    apply bind_any; [| intros _; now apply frames_ret].
    apply frames_for_each. intros _ item.
    destruct item as [allowed_type | v]; [| now apply frames_list_append].
    apply bind_any; [apply frames_kind_at | intros k].
    destruct k; try (now apply frames_list_append).
    apply bind_any; [apply frames_params_of | intros params].
    apply bind_any; [apply frames_dict_getitem | intros inner].
    apply bind_any; [apply frames_as_ref | intros inner'].
    apply bind_any; [apply fresh_any, IH | intros internal_types].
    apply bind_any; [apply frames_list_items | intros internal].
    apply frames_for_each. intros _ x. now apply frames_list_append.
Qed.

#[local] Hint Resolve frames_flatten_types : fresh.
#[local] Hint Extern 1 (frames _ (flatten_types _ _) (fun _ => True)) =>
  apply fresh_any, frames_flatten_types : frames.

Lemma frames_UnionType (n0 fuel py_obj : nat) :
  frames_any n0 (UnionType fuel py_obj).
Proof. unfold UnionType. frames_auto. Qed.

#[local] Hint Resolve frames_UnionType : frames.

Lemma frames_OptionalType (n0 fuel wb_type : nat) :
  frames_any n0 (OptionalType fuel wb_type).
Proof. unfold OptionalType. frames_auto. Qed.

Lemma frames_ListType_dtype (n0 dtype : nat) :
  frames_any n0 (ListType_dtype dtype).
Proof. unfold ListType_dtype. frames_auto. Qed.

Lemma frames_DictType_dtype (n0 dtype : nat) (key_policy : string) :
  frames_any n0 (DictType_dtype dtype key_policy).
Proof. unfold DictType_dtype. frames_auto. Qed.

Lemma frames_ObjectType (n0 : nat) (py_obj : pyval) :
  frames_any n0 (ObjectType py_obj).
Proof. unfold ObjectType. frames_auto. Qed.

Lemma frames_leaf (n0 : nat) (k : kind) : frames_any n0 (leaf k).
Proof. unfold leaf. frames_auto. Qed.

#[local] Hint Resolve frames_OptionalType frames_ListType_dtype
  frames_DictType_dtype frames_ObjectType frames_leaf : frames.

Section BodiesFrame.
Variable fuel : nat.
Variable assign : nat -> pyval -> M nat.
Variable type_of : pyval -> M nat.
Hypothesis Hassign : forall n0 self v, frames_any n0 (assign self v).
Hypothesis Htype_of : forall n0 v, frames_any n0 (type_of v).

#[local] Hint Resolve Hassign Htype_of : frames.

Lemma frames_ListType (n0 : nat) (py_obj : pyval) :
  frames_any n0 (ListType fuel assign py_obj).
Proof. unfold ListType. frames_auto. Qed.

Lemma frames_DictType (n0 : nat) (py_obj : pyval) (key_policy : string) :
  frames_any n0 (DictType type_of py_obj key_policy).
Proof. unfold DictType. frames_auto. Qed.

#[local] Hint Resolve frames_ListType frames_DictType : frames.

Lemma frames_type_of_body (n0 : nat) (py_obj : pyval) :
  frames_any n0 (type_of_body fuel assign type_of py_obj).
Proof. unfold type_of_body. frames_auto. Qed.

Lemma frames_union_assign (n0 self : nat) (py_obj : pyval) :
  frames_any n0 (union_assign fuel assign self py_obj).
Proof. unfold union_assign. frames_auto. Qed.

Lemma frames_list_assign (n0 self : nat) (py_obj : pyval) :
  frames_any n0 (list_assign fuel assign self py_obj).
Proof. unfold list_assign. frames_auto. Qed.

Lemma frames_dict_assign (n0 self : nat) (py_obj : pyval) :
  frames_any n0 (dict_assign fuel assign type_of self py_obj).
Proof. unfold dict_assign. frames_auto. Qed.

#[local] Hint Resolve frames_union_assign frames_list_assign
  frames_dict_assign : frames.

Lemma frames_assign_body (n0 self : nat) (py_obj : pyval) :
  frames_any n0 (assign_body fuel assign type_of self py_obj).
Proof. unfold assign_body. frames_auto. Qed.
End BodiesFrame.

Lemma frames_assign_type_of (fuel : nat) :
  (forall n0 self v, frames_any n0 (assign fuel self v))
  /\ (forall n0 v, frames_any n0 (type_of fuel v)).
Proof.
  induction fuel as [| fuel [IHa IHt]].
  - split; intros; apply frames_out_of_fuel.
  - split; intros; simpl.
    + now apply frames_assign_body.
    + now apply frames_type_of_body.
Qed.

Lemma traverse_ext {A B : Type} (f g : A -> outcome B) (l : list A) :
  (forall x, In x l -> f x = g x) -> traverse f l = traverse g l.
Proof.
  induction l as [| x rest IH]; intros Hfg; [reflexivity |].
  simpl. rewrite (Hfg x) by now left.
  rewrite IH; [reflexivity |]. intros y Hy. apply Hfg. now right.
Qed.

Lemma closed_cell_at (h : heap) (a : nat) (c : cell) :
  closed h = true -> nth_error h a = Some c ->
  closed_cell (List.length h) c = true.
Proof.
  unfold closed. intros Hclosed Hnth.
  rewrite forallb_forall in Hclosed. apply Hclosed.
  eapply nth_error_In. eassumption.
Qed.

(** what [to_json] reads of a closed store is left as it is when the
    objects of the store are *)
Lemma to_json_frame (h h' : heap) :
  closed h = true ->
  (forall a, a < List.length h -> nth_error h' a = nth_error h a) ->
  forall n,
    (forall a, a < List.length h -> to_json n h' a = to_json n h a)
    /\ (forall x, closed_hval (List.length h) x = true ->
                  params_obj_to_json_obj n h' x = params_obj_to_json_obj n h x).
Proof.
  intros Hclosed Hsame.
  induction n as [| n [IHt IHp]]; [split; reflexivity |].
  split.
  - intros a Ha. simpl. rewrite (Hsame a Ha).
    destruct (nth_error h a) as [[k params | entries | items] |] eqn:Hnth;
      try reflexivity.
    pose proof (closed_cell_at h a _ Hclosed Hnth) as Hcell. simpl in Hcell.
    now rewrite (IHp (Ref params) Hcell).
  - intros [a | v] Hx; [| reflexivity].
    simpl in Hx. apply Nat.ltb_lt in Hx.
    simpl. rewrite (Hsame a Hx).
    destruct (nth_error h a) as [[k params | entries | items] |] eqn:Hnth;
      try reflexivity.
    + now apply IHt.
    + pose proof (closed_cell_at h a _ Hclosed Hnth) as Hcell. simpl in Hcell.
      rewrite forallb_forall in Hcell.
      rewrite (traverse_ext
                 (fun kv => j <- params_obj_to_json_obj n h' (snd kv) ;;
                            Returns (fst kv, j))
                 (fun kv => j <- params_obj_to_json_obj n h (snd kv) ;;
                            Returns (fst kv, j))); [reflexivity |].
      intros kv Hkv. now rewrite (IHp (snd kv) (Hcell kv Hkv)).
    + pose proof (closed_cell_at h a _ Hclosed Hnth) as Hcell. simpl in Hcell.
      rewrite forallb_forall in Hcell.
      rewrite (traverse_ext (params_obj_to_json_obj n h')
                            (params_obj_to_json_obj n h)); [reflexivity |].
      intros x Hx'. now apply IHp, Hcell.
Qed.




End StoreFacts.

(* ================================================================= *)
(** ** The [UnionType] constructor *)

Lemma strongly_sorted_by {A : Type} (key : A -> string) (l : list A) :
  StronglySorted (key_le key) l -> sorted_by key l = true.
Proof.
  induction 1 as [| x rest Hsorted IH Hall]; [reflexivity |].
  simpl. destruct rest as [| y rest']; [reflexivity |].
  rewrite IH. inversion Hall as [| ? ? Hxy _]; subst.
  unfold key_le in Hxy. now rewrite Hxy.
Qed.

Lemma flat_forallb (l : list wbtype) :
  flat l -> forallb (fun m => negb (isinstance m KUnion)) l = true.
Proof.
  unfold flat. intros H. apply forallb_forall. intros m Hm.
  rewrite Forall_forall in H. now rewrite (H m Hm).
Qed.

Lemma sort_flat (l : list wbtype) : flat l -> flat (sort str l).
Proof.
  unfold flat. intros H. eapply Permutation_Forall; [| exact H].
  symmetry. apply sort_perm.
Qed.

(** X1.  Whatever list of descriptors [UnionType] is given, the
    members it stores hold no [UnionType] and are sorted by [str]. *)
Theorem UnionType_members_flat_sorted (py_obj : list wbtype) :
  exists ms,
    UnionType py_obj = Union ms
    /\ forallb (fun m => negb (isinstance m KUnion)) ms = true
    /\ sorted_by str ms = true.
Proof.
  exists (sort str (flatten_types py_obj)). repeat split.
  - apply flat_forallb, sort_flat, flatten_types_flat.
  - apply strongly_sorted_by, sort_sorted.
Qed.

Lemma flatten_types_app (l1 l2 : list wbtype) :
  flatten_types (l1 ++ l2) = (flatten_types l1 ++ flatten_types l2)%list.
Proof. unfold flatten_types. apply flat_map_app. Qed.

Lemma flatten_types_UnionType (l : list wbtype) :
  flatten_types [UnionType l] = sort str (flatten_types l).
Proof.
  unfold UnionType. unfold flatten_types at 1. simpl. rewrite app_nil_r.
  apply (flatten_types_id (sort str (flatten_types l))).
  apply sort_flat, flatten_types_flat.
Qed.

(** X2.  A union given as a member of a union counts for its members:
    [UnionType(l1 + [UnionType(l2)] + l3)] is [UnionType(l1 + l2 + l3)]. *)
Theorem UnionType_nested (l1 l2 l3 : list wbtype) :
  UnionType (l1 ++ [UnionType l2] ++ l3) = UnionType (l1 ++ l2 ++ l3).
Proof.
  unfold UnionType at 1 3. f_equal.
  rewrite !flatten_types_app, flatten_types_UnionType.
  apply sort_unique; [apply sort_sorted |].
  intros c. rewrite sort_filed, !filed_app, sort_filed. reflexivity.
Qed.

(* ================================================================= *)
(** ** [assign] keeps descriptors canonical *)

Lemma canonical_flatten_type (t : wbtype) :
  canonical t = true -> Forall (fun m => canonical m = true) (flatten_type t).
Proof.
  induction t as [t H1 H2 H3 H4 H5 | ms IH | c | e _ | tm p _ | val]
    using wbtype_nested_ind; intros Hc;
    try (simpl; now repeat constructor).
  - destruct t; try discriminate; simpl; now repeat constructor.
  - simpl in Hc. apply andb_true_iff in Hc. destruct Hc as [Hc _].
    apply andb_true_iff in Hc. destruct Hc as [Hc _].
    rewrite forallb_forall in Hc. simpl.
    induction IH as [| m rest Hm _ IHrest]; simpl; [constructor |].
    apply Forall_app. split.
    + apply Hm, Hc. now left.
    + apply IHrest. intros x Hx. apply Hc. now right.
Qed.

Lemma canonical_flatten_types (l : list wbtype) :
  Forall (fun m => canonical m = true) l ->
  Forall (fun m => canonical m = true) (flatten_types l).
Proof.
  unfold flatten_types. induction 1 as [| m rest Hm _ IH]; simpl; [constructor |].
  apply Forall_app. split; [now apply canonical_flatten_type | assumption].
Qed.

Lemma canonical_UnionType (l : list wbtype) :
  Forall (fun m => canonical m = true) l -> canonical (UnionType l) = true.
Proof.
  intros Hl. unfold UnionType. simpl. rewrite !andb_true_iff. repeat split.
  - apply forallb_forall. apply Forall_forall.
    eapply Permutation_Forall; [symmetry; apply sort_perm |].
    now apply canonical_flatten_types.
  - apply flat_forallb, sort_flat, flatten_types_flat.
  - apply strongly_sorted_by, sort_sorted.
Qed.

Section LoopInvariants.
Context {S A : Type} (I : S -> Prop).

Lemma for_each_invariant (step : S -> A -> outcome S) (items : list A) :
  (forall s x s', In x items -> I s -> step s x = Returns s' -> I s') ->
  forall s s', I s -> for_each step items s = Returns s' -> I s'.
Proof.
  induction items as [| x rest IH]; intros Hstep s s' Hs Hrun.
  - now injection Hrun as <-.
  - simpl in Hrun. apply bind_returns in Hrun.
    destruct Hrun as (s1 & H1 & Hrest).
    apply (IH (fun s x' s' Hin => Hstep s x' s' (or_intror Hin)) s1 s');
      [| assumption].
    apply (Hstep s x s1); auto. now left.
Qed.

Lemma for_each_until_invariant (step : S -> A -> outcome (option S))
      (items : list A) :
  (forall s x s', In x items -> I s -> step s x = Returns (Some s') -> I s') ->
  forall s s', I s -> for_each_until step items s = Returns (Some s') -> I s'.
Proof.
  induction items as [| x rest IH]; intros Hstep s s' Hs Hrun.
  - now injection Hrun as <-.
  - simpl in Hrun. apply bind_returns in Hrun.
    destruct Hrun as ([s1 |] & H1 & Hrest); [| discriminate].
    apply (IH (fun s x' s' Hin => Hstep s x' s' (or_intror Hin)) s1 s');
      [| assumption].
    apply (Hstep s x s1); auto. now left.
Qed.
End LoopInvariants.

Lemma dict_set_keys {V : Type} (k : string) (v : V) (d : list (string * V)) :
  map fst (dict_set k v d)
  = if dict_in k d then map fst d else (map fst d ++ [k])%list.
Proof.
  unfold dict_in. induction d as [| [k' w] rest IH]; simpl; [reflexivity |].
  destruct (String.eqb k k') eqn:Hk; simpl; [reflexivity |].
  rewrite IH. now destruct (dict_get k rest).
Qed.

Lemma distinct_snoc (l : list string) (k : string) :
  distinct l = true -> existsb (String.eqb k) l = false ->
  distinct (l ++ [k]) = true.
Proof.
  induction l as [| x rest IH]; simpl; [reflexivity |].
  intros Hd Hk. apply andb_true_iff in Hd. destruct Hd as [Hx Hrest].
  apply orb_false_iff in Hk. destruct Hk as [Hkx Hkrest].
  rewrite IH by assumption. rewrite andb_true_r.
  rewrite existsb_app. simpl. apply negb_true_iff in Hx. rewrite Hx. simpl.
  rewrite String.eqb_sym, Hkx. reflexivity.
Qed.

Lemma canonical_map_set (k : string) (t : wbtype) (tm : list (string * wbtype)) :
  canonical_map tm -> canonical t = true -> canonical_map (dict_set k t tm).
Proof.
  intros [Hall Hkeys] Ht. split.
  - clear Hkeys. induction tm as [| [k' w] rest IH]; simpl in *.
    + now rewrite Ht.
    + apply andb_true_iff in Hall. destruct Hall as [Hw Hrest].
      destruct (String.eqb k k'); simpl.
      * now rewrite Ht, Hrest.
      * now rewrite Hw, IH.
  - rewrite dict_set_keys. destruct (dict_in k tm) eqn:Hin; [assumption |].
    apply distinct_snoc; [assumption |]. now rewrite <- dict_in_existsb.
Qed.

Lemma canonical_map_nil : canonical_map [].
Proof. now split. Qed.

Lemma canonical_Dict (tm : list (string * wbtype)) (p : string) :
  canonical (Dict tm p) = true <-> canonical_map tm.
Proof. unfold canonical_map. simpl. now rewrite andb_true_iff. Qed.

Lemma canonical_assign_type_of (fuel : nat) :
  (forall t v r, canonical t = true -> assign fuel t v = Returns r ->
                 canonical r = true)
  /\ (forall v r, type_of fuel v = Returns r -> canonical r = true).
Proof.
  induction fuel as [| fuel [IHa IHt]]; [split; discriminate |].
  assert (HDictType : forall v p r,
             DictType (type_of fuel) v p = Returns r -> canonical r = true).
  { intros v p r H. unfold DictType in H.
    apply bind_returns in H. destruct H as (tm & Htm & H).
    injection H as <-. apply canonical_Dict.
    revert Htm. apply for_each_invariant; [| apply canonical_map_nil].
    intros acc kv acc' _ Hacc Hstep.
    apply bind_returns in Hstep. destruct Hstep as (t & Ht & Hstep).
    injection Hstep as <-. apply canonical_map_set; eauto. }
  split.
  - intros t v r Hc Hrun. simpl in Hrun.
    destruct t; simpl in Hrun;
      try (injection Hrun as <-;
           match goal with |- canonical (if ?b then _ else _) = _ => destruct b end;
           reflexivity; fail).
    + now injection Hrun as <-.
    + destruct (is_None v); [now injection Hrun as <- | eauto].
    + (* Union *)
      simpl in Hc. apply andb_true_iff in Hc. destruct Hc as [Hc _].
      apply andb_true_iff in Hc. destruct Hc as [Hms _].
      rewrite forallb_forall in Hms.
      unfold union_assign in Hrun.
      apply bind_returns in Hrun. destruct Hrun as (st & Hloop & Hrun).
      assert (Hst : Forall (fun m => canonical m = true) (resolved_types st)).
      { revert Hloop.
        apply (for_each_invariant
                 (fun st => Forall (fun m => canonical m = true)
                                   (resolved_types st))); [| constructor].
        intros s x s' Hx Hs Hstep. unfold union_step in Hstep.
        destruct (valid s).
        - injection Hstep as <-. simpl. apply Forall_app. split; auto.
        - destruct (isinstance x KUnknown); [now injection Hstep as <- |].
          apply bind_returns in Hstep. destruct Hstep as (n & Hn & Hstep).
          destruct (n == NeverType); injection Hstep as <-; simpl;
            apply Forall_app; split; eauto. }
      assert (Hfinish : forall X k,
                 Forall (fun m => canonical m = true) X ->
                 canonical (UnionType (sort str (flatten_types
                                (X ++ repeat UnknownType k)))) = true).
      { intros X k HX. rewrite UnionType_canonical.
        apply canonical_UnionType, Forall_app. split; [assumption |].
        apply Forall_forall. intros x Hx. apply repeat_spec in Hx. now subst. }
      cbv zeta in Hrun.
      destruct (valid st).
      * injection Hrun as <-. now apply Hfinish.
      * destruct (Nat.eqb (unknown_count st) 0); [now injection Hrun as <- |].
        apply bind_returns in Hrun. destruct Hrun as (n & Hn & Hrun).
        destruct (n == NeverType); injection Hrun as <-; [reflexivity |].
        apply Hfinish, Forall_app. split; [assumption |].
        constructor; [| constructor]. eapply IHa; [| exact Hn]. reflexivity.
    + (* ListOf *)
      simpl in Hc. unfold list_assign in Hrun.
      destruct (is_None v || _); [now injection Hrun as <- |].
      apply bind_returns in Hrun. destruct Hrun as ([e |] & Hloop & Hrun);
        injection Hrun as <-; [| reflexivity].
      simpl. revert Hloop.
      apply (for_each_until_invariant (fun cur => canonical cur = true));
        [| assumption].
      intros cur x cur' _ Hcur Hstep. unfold list_step in Hstep.
      apply bind_returns in Hstep. destruct Hstep as (n & Hn & Hstep).
      destruct (n == NeverType); [discriminate |].
      injection Hstep as <-. eauto.
    + (* Dict *)
      apply canonical_Dict in Hc. destruct Hc as [Htm _].
      rewrite forallb_forall in Htm.
      unfold dict_assign in Hrun.
      destruct (is_None v || _); [now injection Hrun as <- |].
      apply bind_returns in Hrun. destruct Hrun as ([m1 |] & Hloop1 & Hrun);
        [| now injection Hrun as <-].
      apply bind_returns in Hrun. destruct Hrun as ([m2 |] & Hloop2 & Hrun);
        injection Hrun as <-; [| reflexivity].
      apply canonical_Dict. revert Hloop2.
      apply (for_each_until_invariant canonical_map).
      * intros acc item acc' _ Hacc Hstep. unfold dict_value_step in Hstep.
        destruct (negb (dict_in (fst item) acc)); [| now injection Hstep as <-].
        destruct (String.eqb policy KeyPolicy.EXACT
                  || String.eqb policy KeyPolicy.SUBSET); [discriminate |].
        destruct (String.eqb policy KeyPolicy.UNRESTRICTED);
          [| now injection Hstep as <-].
        apply bind_returns in Hstep. destruct Hstep as (n & Hn & Hstep).
        injection Hstep as <-. apply canonical_map_set; [assumption |].
        destruct (pyclass_eqb (class_of (snd item)) CDict); eauto.
      * revert Hloop1.
        apply (for_each_until_invariant canonical_map);
          [| apply canonical_map_nil].
        intros acc entry acc' Hentry Hacc Hstep.
        unfold dict_known_step in Hstep.
        specialize (Htm entry Hentry).
        destruct (dict_get (fst entry) (entries_of v)).
        -- apply bind_returns in Hstep. destruct Hstep as (n & Hn & Hstep).
           destruct (n == NeverType); [discriminate |].
           injection Hstep as <-. apply canonical_map_set; eauto.
        -- apply bind_returns in Hstep. destruct Hstep as (n & Hn & Hstep).
           destruct (n == NeverType).
           ++ destruct (String.eqb policy KeyPolicy.EXACT); [discriminate |].
              destruct (String.eqb policy KeyPolicy.SUBSET
                        || String.eqb policy KeyPolicy.UNRESTRICTED);
                injection Hstep as <-; [| assumption].
              now apply canonical_map_set.
           ++ injection Hstep as <-. apply canonical_map_set; eauto.
  - intros v r Hrun. simpl in Hrun. unfold type_of_body in Hrun.
    destruct v; cbn -[ListType DictType] in Hrun;
      try (injection Hrun as <-; reflexivity); eauto.
    all: unfold ListType in Hrun;
      apply bind_returns in Hrun; destruct Hrun as (chk & _ & Hrun);
      apply bind_returns in Hrun; destruct Hrun as (elm & Hloop & Hrun);
      injection Hrun as <-; simpl; revert Hloop;
      (apply (for_each_invariant (fun cur => canonical cur = true));
       [| match goal with
          | |- canonical (if ?b then _ else _) = true => destruct b; reflexivity
          end]);
      intros cur item cur' _ Hcur Hstep; unfold list_init_step in Hstep;
      apply bind_returns in Hstep; destruct Hstep as (n & Hn & Hstep);
      assert (canonical n = true) by eauto;
      destruct n; try discriminate; now injection Hstep as <-.
Qed.

(** X3.  A canonical descriptor stays canonical under [assign]: in
    the descriptor returned, at every depth, a union holds no union and
    is sorted by [str], and the keys of a [type_map] are distinct. *)
Theorem assign_keeps_canonical (fuel : nat) (t : wbtype) (py_obj : pyval)
        (r : wbtype) :
  canonical t = true -> assign fuel t py_obj = Returns r -> canonical r = true.
Proof. apply canonical_assign_type_of. Qed.

Lemma assign_keeps_canonical_witness :
  canonical (Union [ListOf (Union [BooleanType; NumberType]);
                    ListOf (Union [NumberType])]) = true.
Proof.
  apply (assign_keeps_canonical 6
           (ListOf (Union [ListOf (Union [BooleanType; UnknownType]);
                           ListOf (Union [NumberType])]))
           (PList [PList [PInt 1]; PList [PBool true]])
           (ListOf (Union [ListOf (Union [BooleanType; NumberType]);
                           ListOf (Union [NumberType])])));
    reflexivity.
Defined.

(** X4.  What [TypeRegistry.type_of] infers is canonical. *)
Theorem type_of_canonical (fuel : nat) (py_obj : pyval) (r : wbtype) :
  type_of fuel py_obj = Returns r -> canonical r = true.
Proof. apply canonical_assign_type_of. Qed.

Lemma type_of_canonical_witness :
  canonical (ListOf (Union [NoneType; NumberType])) = true.
Proof.
  apply (type_of_canonical 5 (PList [PInt 1; PNone; PInt 3])
           (ListOf (Union [NoneType; NumberType]))).
  reflexivity.
Defined.

(* ================================================================= *)
(** ** [ConstType] *)

(** X5.  A [ConstType] does not survive serialization: [from_json]
    calls the constructor with [params] only, where the assertion on the
    class of [py_obj] fails. *)
Theorem const_never_decodes (fuel : nat) (py_obj : pyval) (t : wbtype) :
  ConstType py_obj = Returns t ->
  type_from_dict (3 + fuel) (to_json t) = Raises AssertionError.
Proof.
  intros H. destruct py_obj; try discriminate H; injection H as <-; reflexivity.
Qed.

Lemma const_never_decodes_witness :
  type_from_dict 3 (to_json (Const (PSet [PInt 1; PInt 2])))
  = Raises AssertionError.
Proof.
  apply (const_never_decodes 0 (PSet [PInt 1; PInt 2])). reflexivity.
Defined.

Lemma py_eq_refl (v : pyval) :
  (forall obj, v <> PFloat (FNan obj)) -> py_eq v v = true.
Proof.
  intros Hnan. pose proof (item_eq_refl v) as H. unfold item_eq in H.
  apply orb_true_iff in H. destruct H as [H | H]; [| exact H].
  destruct v as [ | | | [i | |] | | | | | | |]; try discriminate H.
  now destruct (Hnan i).
Qed.

(** X6.  A [ConstType] built from a value accepts that value and
    returns itself, unless the value is a NaN, which differs from
    itself. *)
Theorem const_accepts_its_value (fuel : nat) (py_obj : pyval) (t : wbtype) :
  ConstType py_obj = Returns t ->
  assign (S fuel) t py_obj
  = Returns match py_obj with PFloat (FNan _) => NeverType | _ => t end.
Proof.
  intros H.
  assert (Ht : t = Const py_obj)
    by (destruct py_obj; try discriminate H; now injection H as <-).
  subst t. cbn [assign assign_body].
  destruct py_obj as [ | | | [i | |] | | | | | | |];
    try (rewrite py_eq_refl by discriminate; reflexivity).
  reflexivity.
Qed.

Lemma const_accepts_its_value_witness :
  assign 1 (Const (PFloat (FNan 0))) (PFloat (FNan 0)) = Returns NeverType
  /\ assign 1 (Const (PStr "a")) (PStr "a") = Returns (Const (PStr "a")).
Proof.
  split.
  - apply (const_accepts_its_value 0 (PFloat (FNan 0))). reflexivity.
  - apply (const_accepts_its_value 0 (PStr "a")). reflexivity.
Defined.

(* ================================================================= *)
(** ** [TypeRegistry.add] *)

Lemma pyclass_eqb_eq (a b : pyclass) : pyclass_eqb a b = true <-> a = b.
Proof.
  destruct a, b; simpl; split; try discriminate; try reflexivity.
  - intros H. apply String.eqb_eq in H. now subst.
  - intros [= ->]. apply String.eqb_refl.
Qed.

Lemma dict_get_set {V : Type} (k k' : string) (v : V) (d : list (string * V)) :
  dict_get k' (dict_set k v d)
  = if String.eqb k' k then Some v else dict_get k' d.
Proof.
  induction d as [| [k0 w] rest IH]; simpl.
  - reflexivity.
  - destruct (String.eqb_spec k k0) as [-> | Hne]; simpl.
    + now destruct (String.eqb k' k0).
    + rewrite IH. destruct (String.eqb_spec k' k0) as [-> | Hne'];
        [| reflexivity].
      destruct (String.eqb_spec k0 k); congruence.
Qed.

Lemma class_get_set (c c' : pyclass) (k : kind) (m : list (pyclass * kind)) :
  TypeRegistry.class_get c' (TypeRegistry.class_set c k m)
  = if pyclass_eqb c' c then Some k else TypeRegistry.class_get c' m.
Proof.
  induction m as [| [c0 k0] rest IH]; simpl.
  - reflexivity.
  - destruct (pyclass_eqb c c0) eqn:Hc; simpl.
    + apply pyclass_eqb_eq in Hc. subst c0. now destruct (pyclass_eqb c' c).
    + rewrite IH. destruct (pyclass_eqb c' c0) eqn:Hc'; [| reflexivity].
      apply pyclass_eqb_eq in Hc'. subst c0.
      destruct (pyclass_eqb c' c) eqn:Hcc; [| reflexivity].
      apply pyclass_eqb_eq in Hcc. subst c'.
      assert (pyclass_eqb c c = true) by now apply pyclass_eqb_eq.
      congruence.
Qed.

Lemma class_get_set_all (c : pyclass) (k : kind) (cs : list pyclass)
      (m : list (pyclass * kind)) :
  TypeRegistry.class_get c
    (fold_left (fun m c' => TypeRegistry.class_set c' k m) cs m)
  = if class_in c cs then Some k else TypeRegistry.class_get c m.
Proof.
  revert m. induction cs as [| c0 rest IH]; intros m; simpl; [reflexivity |].
  rewrite IH, class_get_set.
  destruct (class_in c rest) eqn:Hrest; [now rewrite orb_true_r |].
  now rewrite orb_false_r.
Qed.

(** X7.  After [TypeRegistry.add(wb_type)] the name of [wb_type] and
    every class of [wb_type.types] resolve to [wb_type], whatever was
    registered under them before; every other name and class resolves as
    it did. *)
Theorem add_then_lookup (r : TypeRegistry.t) (wb_type : kind)
        (s : string) (c : pyclass) :
  dict_get s (TypeRegistry.types_by_name (TypeRegistry.add r wb_type))
  = (if String.eqb s (kind_name wb_type) then Some wb_type
     else dict_get s (TypeRegistry.types_by_name r))
  /\ TypeRegistry.class_get c
       (TypeRegistry.types_by_class (TypeRegistry.add r wb_type))
     = (if class_in c (kind_types wb_type) then Some wb_type
        else TypeRegistry.class_get c (TypeRegistry.types_by_class r)).
Proof.
  split; simpl.
  - apply dict_get_set.
  - apply class_get_set_all.
Qed.

(* ================================================================= *)
(** ** [OptionalType] *)

Lemma scan_none_returns (fuel : nat) (l : list wbtype) :
  flat l ->
  exists r, spec_scan (fun m => assign (S fuel) m PNone) l = Returns r.
Proof.
  unfold flat. induction 1 as [| m rest Hm _ [r IH]]; [simpl; eauto |].
  cbn [spec_scan].
  destruct (isinstance m KUnknown) eqn:Hunknown.
  - rewrite IH. simpl. eauto.
  - assert (Hret : exists w, assign (S fuel) m PNone = Returns w).
    { destruct m; try discriminate; simpl; eauto;
        eexists; reflexivity. }
    destruct Hret as [w ->]. cbn [bind].
    destruct (w == NeverType); [| eauto].
    rewrite IH. simpl. eauto.
Qed.

(** X8.  [OptionalType(t)] accepts [None] and is left as it is, for
    every descriptor [t]. *)
Theorem optional_accepts_none (fuel : nat) (t : wbtype) :
  assign (2 + fuel) (OptionalType t) PNone = Returns (OptionalType t).
Proof.
  unfold OptionalType, UnionType.
  set (l := sort str (flatten_types [t; NoneType])).
  assert (Hflat : flat l) by apply sort_flat, flatten_types_flat.
  assert (Hsorted : StronglySorted (key_le str) l) by apply sort_sorted.
  assert (Hin : In NoneType l).
  { eapply Permutation_in; [symmetry; apply sort_perm |].
    change [t; NoneType] with ([t] ++ [NoneType])%list.
    rewrite flatten_types_app. apply in_or_app. right. now left. }
  change (assign (2 + fuel) (Union l) PNone)
    with (union_assign (assign (S fuel)) l PNone).
  rewrite union_assign_as_scan. unfold spec_union_assign.
  destruct (scan_none_returns fuel l Hflat) as [r Hr]. rewrite Hr. cbn [bind].
  destruct r as [rej w later k | rej k].
  - f_equal. now apply (accepted_union (S fuel) PNone l rej later w k).
  - pose proof (scan_not_accepted_rejects _ _ _ _ Hr NoneType Hin eq_refl)
      as Hnone.
    discriminate Hnone.
Qed.

(* ================================================================= *)
(** ** [ListType(py_obj)] on items of one kind *)

Lemma init_step_scalar (fuel : nat) (x : pyval) (t cur : wbtype) :
  scalar x = true -> x <> PNone -> type_of 1 x = Returns t ->
  cur = UnknownType \/ cur = t ->
  list_init_step (assign (2 + fuel)) cur x = Returns t.
Proof.
  intros Hx Hnone Ht Hcur.
  assert (Hnever : (t == NeverType) = false)
    by now apply type_of_not_never with 1 x.
  assert (HU : assign (2 + fuel) UnknownType x = Returns t).
  { change (assign (2 + fuel) UnknownType x)
      with (if is_None x then Returns NeverType else type_of (1 + fuel) x).
    destruct x; try congruence; cbn [is_None];
      apply type_of_more_fuel with 1; auto; lia. }
  assert (Hstep : assign (2 + fuel) cur x = Returns t).
  { destruct Hcur as [-> | ->]; [exact HU |].
    now apply infer_scalar. }
  unfold list_init_step. rewrite Hstep. cbn [bind].
  destruct t; try reflexivity. discriminate Hnever.
Qed.

Lemma item_eq_None (x : pyval) : x <> PNone -> item_eq PNone x = false.
Proof. destruct x; try reflexivity. congruence. Qed.

(** X9.  A list, tuple, set or frozenset whose items are scalars other
    than [None], each of which alone is given the descriptor [t], is
    given [ListType] of [t]. *)
Theorem list_of_scalars_inferred (fuel : nat) (py_obj : pyval) (t : wbtype) :
  class_in (class_of py_obj) (kind_types KList) = true ->
  items_of py_obj <> [] ->
  Forall (fun x => scalar x = true /\ x <> PNone /\ type_of 1 x = Returns t)
         (items_of py_obj) ->
  type_of (3 + fuel) py_obj = Returns (ListOf t).
Proof.
  intros Hclass Hne Hitems.
  change (type_of (3 + fuel) py_obj)
    with (type_of_body (assign (2 + fuel)) (type_of (2 + fuel)) py_obj).
  unfold type_of_body.
  assert (Hhandler : TypeRegistry.class_get (class_of py_obj)
                       (TypeRegistry.types_by_class TypeRegistry.registry)
                     = Some KList)
    by (destruct py_obj; try discriminate Hclass; reflexivity).
  rewrite Hhandler. cbn [construct]. unfold ListType.
  rewrite Hclass. cbn [assert bind].
  assert (Hmember : member item_eq PNone (items_of py_obj) = false).
  { unfold member. apply not_true_is_false. intros H.
    apply existsb_exists in H. destruct H as (x & Hx & Heq).
    rewrite Forall_forall in Hitems. destruct (Hitems x Hx) as (_ & Hnone & _).
    rewrite item_eq_None in Heq by assumption. discriminate. }
  rewrite Hmember. cbn [negb].
  assert (Hloop : forall l cur,
             Forall (fun x => scalar x = true /\ x <> PNone
                              /\ type_of 1 x = Returns t) l ->
             cur = UnknownType \/ cur = t ->
             l <> [] \/ cur = t ->
             for_each (list_init_step (assign (2 + fuel))) l cur = Returns t).
  { induction l as [| x rest IH]; intros cur Hl Hcur Hlast.
    - destruct Hlast as [Hl' | ->]; [now destruct Hl' | reflexivity].
    - inversion Hl as [| ? ? (Hx & Hnone & Ht) Hrest]; subst.
      cbn [for_each].
      rewrite (init_step_scalar fuel x t cur) by assumption.
      cbn [bind]. apply IH; auto. }
  rewrite Hloop; auto.
Qed.

Lemma list_of_scalars_inferred_witness :
  type_of 3 (PTuple [PInt 1; PFloat (FWhole 2)]) = Returns (ListOf NumberType).
Proof.
  apply (list_of_scalars_inferred 0 (PTuple [PInt 1; PFloat (FWhole 2)])).
  - reflexivity.
  - discriminate.
  - repeat constructor; discriminate.
Defined.

(* ================================================================= *)
(** ** Equality of [DictType]s *)

Lemma dict_eq_perm (d d' : list (string * pyval)) :
  Permutation d d' -> py_eq (PDict d) (PDict d') = true.
Proof.
  intros Hperm. cbn [py_eq]. unfold dict_eq.
  rewrite (Permutation_length Hperm), Nat.eqb_refl. cbn [andb].
  apply forallb_forall. intros kv Hkv.
  apply existsb_exists. exists kv. split.
  - now apply Permutation_in with d.
  - rewrite String.eqb_refl. apply item_eq_refl.
Qed.

(** X10.  Two [DictType]s of one policy whose [type_map]s hold the
    same entries are equal, in whatever order the entries were
    inserted. *)
Theorem dict_type_eq_any_order (tm tm' : list (string * wbtype)) (p : string) :
  Permutation tm tm' -> (Dict tm p == Dict tm' p) = true.
Proof.
  intros Hperm. unfold type_eq.
  cbn [to_json json_res name kind_of kind_name].
  set (f := fun kv : string * wbtype => (fst kv, to_json (snd kv))).
  assert (Hab : py_eq (PDict (map f tm)) (PDict (map f tm')) = true)
    by now apply dict_eq_perm, Permutation_map.
  set (a := PDict (map f tm)) in *. set (b := PDict (map f tm')) in *.
  clearbody a b. simpl. unfold dict_eq. simpl. unfold dict_eq. simpl.
  rewrite Hab, String.eqb_refl.
  now destruct (same_nan a b).
Qed.

Lemma dict_type_eq_any_order_witness :
  (Dict [("a", NumberType); ("b", TextType)] KeyPolicy.EXACT
   == Dict [("b", TextType); ("a", NumberType)] KeyPolicy.EXACT) = true.
Proof.
  apply (dict_type_eq_any_order [("a", NumberType); ("b", TextType)]
           [("b", TextType); ("a", NumberType)] KeyPolicy.EXACT).
  apply perm_swap.
Defined.

(* ================================================================= *)
(** ** [DictType.assign]: keys that fail the assignment *)

Lemma for_each_until_visits {S A : Type} (step : S -> A -> outcome (option S))
      (items : list A) (s s' : S) :
  for_each_until step items s = Returns (Some s') ->
  forall x, In x items -> exists s1 s2, step s1 x = Returns (Some s2).
Proof.
  revert s. induction items as [| y rest IH]; intros s Hrun x Hx;
    [contradiction |].
  simpl in Hrun. apply bind_returns in Hrun.
  destruct Hrun as ([s1 |] & Hstep & Hrest); [| discriminate].
  destruct Hx as [-> | Hx]; [eauto | eapply IH; eauto].
Qed.

Lemma dict_in_set {V : Type} (k k' : string) (v : V) (d : list (string * V)) :
  dict_in k' (dict_set k v d) = String.eqb k' k || dict_in k' d.
Proof.
  unfold dict_in. rewrite dict_get_set. now destruct (String.eqb k' k).
Qed.

Lemma dict_in_In {V : Type} (kv : string * V) (d : list (string * V)) :
  In kv d -> dict_in (fst kv) d = true.
Proof.
  intros Hin. rewrite dict_in_existsb. apply existsb_exists.
  exists (fst kv). split; [now apply in_map | apply String.eqb_refl].
Qed.

Lemma dict_in_entry {V : Type} (k : string) (d : list (string * V)) :
  dict_in k d = true -> exists v, In (k, v) d.
Proof.
  unfold dict_in. destruct (dict_get k d) as [v |] eqn:Hget; [| discriminate].
  intros _. exists v. now apply dict_get_In.
Qed.

(** the known loop files keys of the [type_map] only *)
Lemma known_loop_keys (a : wbtype -> pyval -> outcome wbtype)
      (d : list (string * pyval)) (p : string)
      (tm acc : list (string * wbtype)) :
  for_each_until (dict_known_step a d p) tm [] = Returns (Some acc) ->
  forall k, dict_in k acc = true -> dict_in k tm = true.
Proof.
  apply (for_each_until_invariant
           (fun acc => forall k, dict_in k acc = true -> dict_in k tm = true));
    [| discriminate].
  intros s entry s' Hentry Hs Hstep k.
  assert (Hset : forall t, dict_in k (dict_set (fst entry) t s) = true ->
                           dict_in k tm = true).
  { intros t. rewrite dict_in_set. intros H.
    apply orb_true_iff in H. destruct H as [H | H]; [| now apply Hs].
    apply String.eqb_eq in H. subst k. now apply dict_in_In. }
  unfold dict_known_step in Hstep.
  destruct (dict_get (fst entry) d);
    apply bind_returns in Hstep; destruct Hstep as (n & _ & Hstep).
  - destruct (n == NeverType); [discriminate |].
    injection Hstep as <-. apply Hset.
  - destruct (n == NeverType).
    + destruct (String.eqb p KeyPolicy.EXACT); [discriminate |].
      destruct (String.eqb p KeyPolicy.SUBSET
                || String.eqb p KeyPolicy.UNRESTRICTED);
        injection Hstep as <-; [apply Hset | apply Hs].
    + injection Hstep as <-. apply Hset.
Qed.

(** under [EXACT] and [SUBSET] the loop over the value adds no key *)
Lemma value_loop_closed (ty : pyval -> outcome wbtype) (p : string)
      (d : list (string * pyval)) (acc acc' : list (string * wbtype)) :
  p = KeyPolicy.EXACT \/ p = KeyPolicy.SUBSET ->
  for_each_until (dict_value_step ty p) d acc = Returns (Some acc') ->
  forall item, In item d -> dict_in (fst item) acc = true.
Proof.
  intros Hp. induction d as [| x rest IH]; intros Hrun item Hitem;
    [contradiction |].
  simpl in Hrun. apply bind_returns in Hrun.
  destruct Hrun as ([s1 |] & Hstep & Hrest); [| discriminate].
  unfold dict_value_step in Hstep.
  destruct (dict_in (fst x) acc) eqn:Hx; cbn [negb] in Hstep.
  - injection Hstep as <-.
    destruct Hitem as [<- | Hitem]; [assumption | now apply IH].
  - destruct Hp as [-> | ->]; discriminate Hstep.
Qed.

Lemma returns_never_settles (t : wbtype) (v : pyval) :
  inferable v ->
  (forall fuel r, assign fuel t v = Returns r -> r = NeverType) ->
  exists n, forall fuel, n <= fuel -> assign fuel t v = Returns NeverType.
Proof.
  intros Hinf Hnever.
  destruct (assign_settles_below (S (vsize v)) v (Nat.lt_succ_diag_r _)
              Hinf t) as (n & r & Hn).
  exists n. intros fuel Hle.
  rewrite (assign_more_fuel n fuel t v r Hle Hn). f_equal. eauto.
Qed.

(** X11.  Under the policies [EXACT] and [SUBSET] a dict holding a key
    that the [type_map] does not hold is rejected. *)
Theorem dict_rejects_unknown_key (type_map : list (string * wbtype))
        (policy : string) (value : list (string * pyval)) (key : string) :
  policy = KeyPolicy.EXACT \/ policy = KeyPolicy.SUBSET ->
  dict_in key value = true -> dict_in key type_map = false ->
  inferable (PDict value) ->
  exists n, forall fuel, n <= fuel ->
    assign fuel (Dict type_map policy) (PDict value) = Returns NeverType.
Proof.
  intros Hp Hvalue Hmap Hinf. apply returns_never_settles; [assumption |].
  intros [| fuel] r Hrun; [discriminate |].
  cbn [assign assign_body] in Hrun. unfold dict_assign in Hrun.
  cbn [is_None class_of kind_types class_in existsb pyclass_eqb orb negb
       entries_of] in Hrun.
  apply bind_returns in Hrun. destruct Hrun as ([m1 |] & Hloop1 & Hrun);
    [| now injection Hrun as <-].
  apply bind_returns in Hrun. destruct Hrun as ([m2 |] & Hloop2 & Hrun);
    [| now injection Hrun as <-].
  destruct (dict_in_entry key value Hvalue) as [x Hx].
  pose proof (value_loop_closed _ _ _ _ _ Hp Hloop2 (key, x) Hx) as Hin.
  cbn [fst] in Hin.
  apply (known_loop_keys _ _ _ _ _ Hloop1) in Hin. congruence.
Qed.

Lemma dict_rejects_unknown_key_witness :
  exists n, forall fuel, n <= fuel ->
    assign fuel (Dict [("a", NumberType)] KeyPolicy.SUBSET)
           (PDict [("b", PInt 2)]) = Returns NeverType.
Proof.
  apply (dict_rejects_unknown_key [("a", NumberType)] KeyPolicy.SUBSET
           [("b", PInt 2)] "b").
  - now right.
  - reflexivity.
  - reflexivity.
  - repeat split; exists 2; eexists; reflexivity.
Defined.



(* ================================================================= *)
(** ** Deserializing a union *)

(** X13.  [from_json] hands the members it finds to the constructor: a
    serialized union whose members are listed in any order, unions
    among them, is deserialized to the flattened and sorted
    [UnionType] of the members. *)
Theorem union_from_json_canonical (fuel : nat) (ms : list wbtype) :
  (forall m, In m ms -> type_from_dict fuel (to_json m) = Returns m) ->
  type_from_dict (4 + fuel)
    (PDict [("wb_type", PStr "union");
            ("params", PDict [("allowed_types", PList (map to_json ms))])])
  = Returns (UnionType ms).
Proof.
  intros Hms. change (4 + fuel) with (S (S (S (S fuel)))).
  rewrite type_from_dict_unfold.
  cbn -[type_from_dict json_obj_to_params_obj].
  rewrite params_dict_unfold by reflexivity.
  cbn -[type_from_dict json_obj_to_params_obj].
  rewrite params_list_unfold, traverse_members by assumption.
  cbn -[type_from_dict json_obj_to_params_obj UnionType].
  now rewrite as_types_map.
Qed.

Lemma union_from_json_canonical_witness :
  type_from_dict 10
    (PDict [("wb_type", PStr "union");
            ("params",
             PDict [("allowed_types",
                     PList (map to_json
                                [TextType; Union [BooleanType; NumberType]]))])])
  = Returns (Union [BooleanType; NumberType; TextType]).
Proof.
  apply (union_from_json_canonical 6
           [TextType; Union [BooleanType; NumberType]]).
  intros m [<- | [<- | []]]; reflexivity.
Defined.

(* ================================================================= *)
(** ** [DictType(dtype=...)] reads the nested notation *)

Section DspecInd.
Variable P : dspec -> Prop.
Hypothesis HType : forall t, P (DType t).
Hypothesis HDict : forall d, Forall (fun kv => P (snd kv)) d -> P (DDict d).
Hypothesis HList : forall l, Forall P l -> P (DList l).
Hypothesis HOther : P DOther.

Fixpoint dspec_nested_ind (x : dspec) : P x :=
  match x with
  | DType t => HType t
  | DDict d =>
      HDict d ((fix entries (d : list (string * dspec))
                : Forall (fun kv => P (snd kv)) d :=
                match d with
                | [] => Forall_nil _
                | kv :: rest =>
                    Forall_cons kv (dspec_nested_ind (snd kv)) (entries rest)
                end) d)
  | DList l =>
      HList l ((fix all (l : list dspec) : Forall P l :=
                match l with
                | [] => Forall_nil P
                | y :: rest => Forall_cons y (dspec_nested_ind y) (all rest)
                end) l)
  | DOther => HOther
  end.
End DspecInd.

Lemma iter_ListOf (n : nat) (t : wbtype) :
  Nat.iter n ListOf (ListOf t) = ListOf (Nat.iter n ListOf t).
Proof. induction n as [| n IH]; simpl; [reflexivity | now rewrite IH]. Qed.

Section DtypeReads.
Variable rec : list (string * dspec) -> string -> outcome wbtype.
Variable p : string.

#[local] Abbreviation list_value := (list_value rec p).

Lemma dtype_step_value (m : list (string * wbtype)) (entry : string * dspec) :
  dtype_step rec p m entry
  = (t <- list_value (snd entry) 0 ;; Returns (dict_set (fst entry) t m)).
Proof.
  unfold dtype_step, list_value. destruct entry as [k x]. cbn [fst snd].
  destruct x as [t | d | l |]; cbn [enter_lists bind fst snd Nat.iter].
  - reflexivity.
  - destruct (rec d p); reflexivity.
  - rewrite bind_bind. apply bind_ext. intros r.
    rewrite bind_bind. reflexivity.
  - reflexivity.
Qed.

Lemma list_value_reads (x : dspec) :
  (forall d, dict_depth (DDict d) <= dict_depth x ->
             agrees (rec d p) (reading p (DDict d))) ->
  forall depth,
    agrees (list_value x depth)
           (option_map (Nat.iter depth ListOf) (reading p x)).
Proof.
  induction x as [t | d _ | l IH |] using dspec_nested_ind; intros Hrec depth.
  - reflexivity.
  - unfold list_value. cbn [enter_lists bind fst snd].
    specialize (Hrec d (le_n _)).
    destruct (reading p (DDict d)) as [t |]; cbn [option_map agrees] in *.
    + now rewrite Hrec.
    + destruct Hrec as [msg ->]. now exists msg.
  - destruct l as [| y [| z rest]].
    + reflexivity.
    + inversion IH as [| ? ? IHy _]; subst.
      assert (Hy : forall d, dict_depth (DDict d) <= dict_depth y ->
                             agrees (rec d p) (reading p (DDict d))).
      { intros d Hle. apply Hrec.
        cbn [dict_depth fold_right] in *. lia. }
      specialize (IHy Hy (S depth)).
      unfold list_value in *. cbn [enter_lists].
      cbn [reading].
      destruct (reading p y) as [t |]; cbn [option_map agrees] in *.
      * rewrite IHy. cbn [Nat.iter]. now rewrite iter_ListOf.
      * exact IHy.
    + unfold list_value. cbn. eexists. reflexivity.
  - unfold list_value. cbn. eexists. reflexivity.
Qed.
End DtypeReads.

Lemma dict_depth_entry (kv : string * dspec) (d : list (string * dspec)) :
  In kv d -> S (dict_depth (snd kv)) <= dict_depth (DDict d).
Proof.
  cbn [dict_depth]. induction d as [| kv' rest IH]; [contradiction |].
  intros [-> | Hin]; cbn [fold_right]; [lia |].
  specialize (IH Hin). lia.
Qed.

Lemma DictType_dtype_reads (fuel : nat) :
  forall d p, dict_depth (DDict d) <= fuel ->
              agrees (DictType_dtype fuel d p) (reading p (DDict d)).
Proof.
  induction fuel as [| fuel IH]; intros d p Hfuel;
    [cbn [dict_depth] in Hfuel; lia |].
  assert (Hloop : forall l acc,
             (forall kv, In kv l -> dict_depth (snd kv) <= fuel) ->
             match reading_entries p l acc with
             | Some tm =>
                 for_each (dtype_step (DictType_dtype fuel) p) l acc
                 = Returns tm
             | None =>
                 exists msg,
                   for_each (dtype_step (DictType_dtype fuel) p) l acc
                   = Raises (TypeError msg)
             end).
  { induction l as [| kv rest IHl]; intros acc Hl; [reflexivity |].
    cbn [for_each reading_entries]. rewrite dtype_step_value.
    pose proof (list_value_reads (DictType_dtype fuel) p (snd kv)) as Hkv.
    specialize (Hkv (fun d' Hd' => IH d' p (Nat.le_trans _ _ _ Hd'
                                              (Hl kv (or_introl eq_refl)))) 0).
    destruct (reading p (snd kv)) as [t |]; cbn [option_map agrees] in Hkv.
    - rewrite Hkv. cbn [bind Nat.iter]. apply IHl.
      intros kv' Hkv'. apply Hl. now right.
    - destruct Hkv as [msg ->]. now exists msg. }
  specialize (Hloop d [] (fun kv Hkv =>
                            le_S_n _ _ (Nat.le_trans _ _ _
                                          (dict_depth_entry kv d Hkv) Hfuel))).
  change (reading p (DDict d))
    with (option_map (fun tm => Dict tm p) (reading_entries p d [])).
  cbn [DictType_dtype]. unfold DictType_dtype_body.
  destruct (reading_entries p d []) as [tm |]; cbn [option_map agrees].
  - now rewrite Hloop.
  - destruct Hloop as [msg ->]. now exists msg.
Qed.

(** X15.  [DictType(dtype=..., key_policy=p)] reads the nested notation
    structurally: under each key a descriptor stands for itself, a dict
    for a [DictType] of the same key policy, [[]] for [ListType] of
    [Unknown], and [[x]] for [ListType] of what [x] stands for. *)
Theorem dtype_notation_read (dtype : list (string * dspec)) (key_policy : string)
        (t : wbtype) :
  reading key_policy (DDict dtype) = Some t ->
  forall fuel, dict_depth (DDict dtype) <= fuel ->
               DictType_dtype fuel dtype key_policy = Returns t.
Proof.
  intros Hread fuel Hfuel.
  pose proof (DictType_dtype_reads fuel dtype key_policy Hfuel) as H.
  now rewrite Hread in H.
Qed.

Lemma dtype_notation_read_witness :
  DictType_dtype 2
    [("a", DList [DList [DType NumberType]]); ("b", DDict [("c", DList [])])]
    KeyPolicy.SUBSET
  = Returns (Dict [("a", ListOf (ListOf NumberType));
                   ("b", Dict [("c", ListOf UnknownType)] KeyPolicy.SUBSET)]
                  KeyPolicy.SUBSET).
Proof.
  apply (dtype_notation_read
           [("a", DList [DList [DType NumberType]]);
            ("b", DDict [("c", DList [])])] KeyPolicy.SUBSET).
  - reflexivity.
  - cbn. lia.
Defined.

(** X16.  [DictType(dtype=...)] raises [TypeError] when the notation
    holds, where it is read, a list of more than one item or a value
    that is neither a descriptor, a dict nor a list. *)
Theorem dtype_notation_rejected (dtype : list (string * dspec))
        (key_policy : string) :
  reading key_policy (DDict dtype) = None ->
  forall fuel, dict_depth (DDict dtype) <= fuel ->
               exists msg,
                 DictType_dtype fuel dtype key_policy = Raises (TypeError msg).
Proof.
  intros Hread fuel Hfuel.
  pose proof (DictType_dtype_reads fuel dtype key_policy Hfuel) as H.
  now rewrite Hread in H.
Qed.

Lemma dtype_notation_rejected_witness :
  exists msg,
    DictType_dtype 2
      [("a", DType TextType);
       ("b", DDict [("c", DList [DType NumberType; DType TextType])])]
      KeyPolicy.EXACT
    = Raises (TypeError msg).
Proof.
  apply (dtype_notation_rejected
           [("a", DType TextType);
            ("b", DDict [("c", DList [DType NumberType; DType TextType])])]
           KeyPolicy.EXACT).
  - reflexivity.
  - cbn. lia.
Defined.

(* ================================================================= *)
(** ** A list of scalars is accepted by the type inferred for it *)

Lemma scan_accepted_member (narrow : wbtype -> outcome wbtype)
      (l rej later : list wbtype) (w : wbtype) (k : nat) :
  spec_scan narrow l = Returns (Accepted rej w later k) ->
  exists m, In m l /\ isinstance m KUnknown = false
            /\ narrow m = Returns w /\ (w == NeverType) = false.
Proof.
  revert rej later w k.
  induction l as [| x rest IH]; intros rej later w k Hscan; [discriminate |].
  cbn [spec_scan] in Hscan.
  destruct (isinstance x KUnknown) eqn:Hx.
  - apply bind_returns in Hscan. destruct Hscan as (r & Hr & Hskip).
    destruct r as [rej' w' later' k' | rej' k']; [| discriminate].
    destruct (IH _ _ _ _ Hr) as (m & Hm & Hrest).
    injection Hskip as _ <- _ _. exists m. split; [now right | assumption].
  - apply bind_returns in Hscan. destruct Hscan as (n & Hn & Hscan).
    destruct (n == NeverType) eqn:Hnever.
    + apply bind_returns in Hscan. destruct Hscan as (r & Hr & Hkeep).
      destruct r as [rej' w' later' k' | rej' k']; [| discriminate].
      destruct (IH _ _ _ _ Hr) as (m & Hm & Hrest).
      injection Hkeep as _ <- _ _. exists m. split; [now right | assumption].
    + injection Hscan as _ <- _ _. exists x. repeat split; auto. now left.
Qed.

Lemma scan_not_accepted_keeps (narrow : wbtype -> outcome wbtype)
      (l rej : list wbtype) (k : nat) :
  spec_scan narrow l = Returns (NotAccepted rej k) ->
  forall m, In m l -> isinstance m KUnknown = false -> In m rej.
Proof.
  revert rej k.
  induction l as [| x rest IH]; intros rej k Hscan m Hm Hunknown;
    [contradiction |].
  cbn [spec_scan] in Hscan.
  destruct (isinstance x KUnknown) eqn:Hx.
  - apply bind_returns in Hscan. destruct Hscan as (r & Hr & Hskip).
    destruct r as [| rej' k']; [discriminate |].
    injection Hskip as <- _.
    destruct Hm as [-> | Hm]; [congruence | eapply IH; eauto].
  - apply bind_returns in Hscan. destruct Hscan as (n & Hn & Hscan).
    destruct (n == NeverType); [| discriminate].
    apply bind_returns in Hscan. destruct Hscan as (r & Hr & Hkeep).
    destruct r as [| rej' k']; [discriminate |].
    injection Hkeep as <- _.
    destruct Hm as [-> | Hm]; [now left | right; eapply IH; eauto].
Qed.

Lemma member_scalar_returns (fuel : nat) (m : wbtype) (x : pyval) :
  scalar x = true -> isinstance m KUnion = false ->
  isinstance m KUnknown = false ->
  exists w, assign (S fuel) m x = Returns w.
Proof.
  intros Hx Hunion Hunknown.
  destruct m; try discriminate; cbn [assign assign_body]; eauto;
    destruct x; try discriminate Hx; eexists; reflexivity.
Qed.

Lemma scan_scalar_returns (fuel : nat) (x : pyval) (l : list wbtype) :
  scalar x = true -> flat l ->
  exists r, spec_scan (fun m => assign (S fuel) m x) l = Returns r.
Proof.
  intros Hx. unfold flat.
  induction 1 as [| m rest Hm _ [r IH]]; [simpl; eauto |].
  cbn [spec_scan].
  destruct (isinstance m KUnknown) eqn:Hunknown.
  - rewrite IH. simpl. eauto.
  - destruct (member_scalar_returns fuel m x Hx Hm Hunknown) as [w ->].
    cbn [bind]. destruct (w == NeverType); [| eauto].
    rewrite IH. simpl. eauto.
Qed.

(** a flat sorted union with a member that accepts a scalar is left as
    it is by the scalar *)
Lemma union_accepts_by_member (fuel : nat) (l : list wbtype) (x : pyval)
      (m w : wbtype) :
  scalar x = true -> flat l -> StronglySorted (key_le str) l ->
  In m l -> isinstance m KUnknown = false ->
  assign (S fuel) m x = Returns w -> (w == NeverType) = false ->
  assign (S (S fuel)) (Union l) x = Returns (Union l).
Proof.
  intros Hx Hflat Hsorted Hm Hunknown Hmw Hnever.
  change (assign (S (S fuel)) (Union l) x)
    with (union_assign (assign (S fuel)) l x).
  rewrite union_assign_as_scan. unfold spec_union_assign.
  destruct (scan_scalar_returns fuel x l Hx Hflat) as [r Hr]. rewrite Hr.
  cbn [bind].
  destruct r as [rej' w' later' k' | rej' k'].
  - f_equal. now apply (accepted_union (S fuel) x l rej' later' w' k').
  - exfalso.
    pose proof (scan_not_accepted_rejects _ _ _ _ Hr m Hm Hunknown)
      as Hrejects.
    cbv beta in Hrejects. rewrite Hmw in Hrejects.
    injection Hrejects as ->. discriminate.
Qed.

(** what a flat sorted union is narrowed to by a scalar: itself, or a
    flat sorted union of its members other than [Unknown] and of what
    the scalar is inferred to be *)
Lemma union_narrowed (fuel : nat) (ms : list wbtype) (y : pyval) (t : wbtype) :
  scalar y = true -> flat ms -> StronglySorted (key_le str) ms ->
  assign (S fuel) (Union ms) y = Returns t -> (t == NeverType) = false ->
  t = Union ms
  \/ exists l n,
       t = Union l /\ flat l /\ StronglySorted (key_le str) l
       /\ In n l /\ isinstance n KUnknown = false
       /\ assign fuel n y = Returns n /\ (n == NeverType) = false
       /\ forall m, In m ms -> isinstance m KUnknown = false -> In m l.
Proof.
  intros Hy Hflat Hsorted Hmsy Hnever.
  cbn [assign assign_body] in Hmsy.
  rewrite union_assign_as_scan in Hmsy. unfold spec_union_assign in Hmsy.
  apply bind_returns in Hmsy. destruct Hmsy as (sy & Hscany & Hresy).
  destruct sy as [rej w later k | rej k].
  { left. injection Hresy as <-.
    now apply (accepted_union fuel y ms rej later w k). }
  destruct k as [| k]; [injection Hresy as <-; discriminate |].
  apply bind_returns in Hresy. destruct Hresy as (n & Hn & Hresy).
  destruct (n == NeverType) eqn:Hnnever;
    [injection Hresy as <-; discriminate |].
  destruct (infer_scalar fuel y n Hy Hn Hnnever) as (Hn1 & Hn2 & Hn3).
  pose proof (scan_filed (fun m => assign fuel m y) ms
                (flat_narrow fuel y ms Hy Hflat) ms (incl_refl ms) _ Hscany)
    as Hfiled.
  cbv beta iota in Hfiled.
  assert (Hrej : flat rej).
  { unfold flat in *. rewrite Forall_forall in *. intros m Hm.
    apply Hflat. apply (filed_incl str ms _ Hfiled).
    apply in_or_app. now left. }
  assert (HX : flat (rej ++ [n] ++ repeat UnknownType k)).
  { unfold flat in *. repeat (apply Forall_app; split); auto.
    apply Forall_forall. intros z Hz. apply repeat_spec in Hz. now subst. }
  set (l := sort str (rej ++ [n] ++ repeat UnknownType k)).
  assert (Hperm : Permutation l (rej ++ [n] ++ repeat UnknownType k))
    by apply sort_perm.
  right. exists l, n. repeat split; auto.
  - injection Hresy as <-. unfold UnionType. f_equal.
    rewrite flatten_types_id by exact HX. reflexivity.
  - unfold flat. eapply Permutation_Forall; [symmetry; exact Hperm | exact HX].
  - apply sort_sorted.
  - apply (Permutation_in _ (Permutation_sym Hperm)).
    apply in_or_app. right. now left.
  - intros m Hm Hunknown.
    apply (Permutation_in _ (Permutation_sym Hperm)).
    apply in_or_app. left.
    now apply (scan_not_accepted_keeps _ _ _ _ Hscany).
Qed.

(** a flat sorted union that a scalar leaves as it is has a member
    that accepts the scalar *)
Lemma union_left_by_member (fuel : nat) (ms : list wbtype) (x : pyval) :
  scalar x = true ->
  assign (S fuel) (Union ms) x = Returns (Union ms) ->
  exists m w, In m ms /\ isinstance m KUnknown = false
              /\ assign fuel m x = Returns w /\ (w == NeverType) = false.
Proof.
  intros Hx Hmsx. cbn [assign assign_body] in Hmsx.
  rewrite union_assign_as_scan in Hmsx. unfold spec_union_assign in Hmsx.
  apply bind_returns in Hmsx. destruct Hmsx as (sx & Hscanx & Hresx).
  destruct sx as [rejx wx laterx kx | rejx kx].
  - destruct (scan_accepted_member _ _ _ _ _ _ Hscanx) as (m & Hm).
    exists m, wx. exact Hm.
  - exfalso. destruct kx as [| kx]; [discriminate |].
    apply bind_returns in Hresx. destruct Hresx as (tx & Htx & Hresx).
    destruct (tx == NeverType) eqn:Htxnever; [discriminate |].
    destruct (infer_scalar fuel x tx Hx Htx Htxnever) as (Hx1 & Hx2 & Hx3).
    assert (Hin : In tx ms).
    { injection Hresx as Hms. rewrite <- Hms.
      eapply Permutation_in; [symmetry; apply sort_perm |].
      change (rejx ++ [tx] ++ repeat UnknownType kx)%list
        with (rejx ++ tx :: repeat UnknownType kx)%list.
      unfold flatten_types. rewrite flat_map_app. apply in_or_app. right.
      cbn [flat_map]. apply in_or_app. left.
      destruct tx; try discriminate; now left. }
    pose proof (scan_not_accepted_rejects _ _ _ _ Hscanx tx Hin Hx2)
      as Hrejects.
    cbv beta in Hrejects. rewrite Hx3 in Hrejects.
    injection Hrejects as ->. discriminate.
Qed.

(** one item more in [ListType(py_obj)]: the element type stays
    settled and accepts, unchanged, the item and the items before it *)
Lemma init_step_keeps (fuel : nat) (cur cur' : wbtype) (y : pyval)
      (seen : list pyval) :
  scalar y = true -> Forall (fun x => scalar x = true) seen ->
  settled cur -> (forall x, In x seen -> assign fuel cur x = Returns cur) ->
  list_init_step (assign fuel) cur y = Returns cur' ->
  settled cur' /\ (cur' == NeverType) = false
  /\ forall x, In x (y :: seen) -> assign fuel cur' x = Returns cur'.
Proof.
  intros Hy Hseen Hcur Hacc Hstep. rewrite Forall_forall in Hseen.
  unfold list_init_step in Hstep.
  apply bind_returns in Hstep. destruct Hstep as (n & Hassign & Hstep).
  assert (Hn : n = cur' /\ (cur' == NeverType) = false).
  { destruct n; try discriminate Hstep; injection Hstep as <-; now split. }
  destruct Hn as [-> Hnever]. clear Hstep.
  destruct Hcur as [-> | [[Hunion Hunknown] | (ms & -> & Hflat & Hsorted)]].
  - (* Unknown *)
    destruct (infer_scalar fuel y cur' Hy Hassign Hnever) as (H1 & H2 & H3).
    repeat split; [right; left; now split | assumption |].
    intros x [<- | Hx]; [assumption |].
    destruct (infer_scalar fuel x UnknownType (Hseen x Hx) (Hacc x Hx) eq_refl)
      as (_ & Habsurd & _).
    discriminate Habsurd.
  - (* a descriptor that is no union *)
    destruct (member_assign_scalar fuel cur y cur' Hy Hunion Hunknown Hassign)
      as [-> | ->]; [| discriminate Hnever].
    repeat split; [right; left; now split | assumption |].
    intros x [<- | Hx]; [assumption | now apply Hacc].
  - (* a union *)
    destruct fuel as [| fuel]; [discriminate |].
    destruct (union_narrowed fuel ms y cur' Hy Hflat Hsorted Hassign Hnever)
      as [-> | (l & n & -> & Hl & Hlsorted & Hn & Hnunknown & Hny & Hnnever
                & Hkept)].
    + split; [right; right; exists ms; now repeat split |].
      split; [assumption |].
      intros x [<- | Hx]; [assumption | now apply Hacc].
    + destruct fuel as [| fuel]; [discriminate |].
      split; [right; right; exists l; now repeat split |].
      split; [assumption |].
      intros x [<- | Hx].
      * now apply (union_accepts_by_member fuel l y n n).
      * destruct (union_left_by_member (S fuel) ms x (Hseen x Hx) (Hacc x Hx))
          as (m & w & Hm & Hmunknown & Hmw & Hwnever).
        apply (union_accepts_by_member fuel l x m w); auto.
Qed.

Lemma init_loop_keeps (fuel : nat) (l : list pyval) :
  Forall (fun x => scalar x = true) l ->
  forall seen cur e,
    Forall (fun x => scalar x = true) seen ->
    settled cur -> (cur == NeverType) = false ->
    (forall x, In x seen -> assign fuel cur x = Returns cur) ->
    for_each (list_init_step (assign fuel)) l cur = Returns e ->
    (e == NeverType) = false
    /\ forall x, In x seen \/ In x l -> assign fuel e x = Returns e.
Proof.
  induction 1 as [| y rest Hy _ IH]; intros seen cur e Hseen Hcur Hnever Hacc Hrun.
  - injection Hrun as <-. split; [assumption |].
    intros x [Hx | []]. now apply Hacc.
  - cbn [for_each] in Hrun. apply bind_returns in Hrun.
    destruct Hrun as (cur1 & Hstep & Hrun).
    destruct (init_step_keeps fuel cur cur1 y seen Hy Hseen Hcur Hacc Hstep)
      as (Hcur1 & Hnever1 & Hacc1).
    destruct (IH (y :: seen) cur1 e (Forall_cons y Hy Hseen) Hcur1 Hnever1
                 Hacc1 Hrun) as (He & Hall).
    split; [assumption |].
    intros x [Hx | [<- | Hx]]; apply Hall; simpl; auto.
Qed.

Lemma list_loop_unchanged (fuel : nat) (e : wbtype) (l : list pyval) :
  (e == NeverType) = false ->
  (forall x, In x l -> assign fuel e x = Returns e) ->
  for_each_until (list_step (assign fuel)) l e = Returns (Some e).
Proof.
  intros Hnever. induction l as [| x rest IH]; intros Hall; [reflexivity |].
  cbn [for_each_until]. unfold list_step at 1.
  rewrite (Hall x) by now left. cbn [bind]. rewrite Hnever.
  apply IH. intros z Hz. apply Hall. now right.
Qed.

(** X25.  A list, tuple, set or frozenset of scalars, [None] among
    them or not, is accepted by the descriptor inferred for it, which
    is returned as it is. *)
Theorem inferred_list_accepts (fuel : nat) (py_obj : pyval) (t : wbtype) :
  class_in (class_of py_obj) (kind_types KList) = true ->
  Forall (fun x => scalar x = true) (items_of py_obj) ->
  type_of fuel py_obj = Returns t ->
  assign fuel t py_obj = Returns t.
Proof.
  intros Hclass Hitems Hinfer.
  destruct fuel as [| fuel]; [discriminate |].
  change (type_of (S fuel) py_obj)
    with (type_of_body (assign fuel) (type_of fuel) py_obj) in Hinfer.
  unfold type_of_body in Hinfer.
  assert (Hhandler : TypeRegistry.class_get (class_of py_obj)
                       (TypeRegistry.types_by_class TypeRegistry.registry)
                     = Some KList)
    by (destruct py_obj; try discriminate Hclass; reflexivity).
  rewrite Hhandler in Hinfer. cbn [construct] in Hinfer.
  unfold ListType in Hinfer. rewrite Hclass in Hinfer.
  cbn [assert bind] in Hinfer.
  apply bind_returns in Hinfer. destruct Hinfer as (e & Hloop & Ht).
  injection Ht as <-.
  assert (He : (e == NeverType) = false
               /\ forall x, In x [] \/ In x (items_of py_obj) ->
                            assign fuel e x = Returns e).
  { revert Hloop. apply init_loop_keeps; auto.
    - destruct (negb (member item_eq PNone (items_of py_obj)));
        [now left | right; right].
      exists (sort str (flatten_types [UnknownType; NoneType])).
      repeat split.
      + apply sort_flat, flatten_types_flat.
      + apply sort_sorted.
    - now destruct (negb (member item_eq PNone (items_of py_obj))).
    - intros x []. }
  destruct He as (Hnever & Hall).
  change (assign (S fuel) (ListOf e) py_obj)
    with (list_assign (assign fuel) e py_obj).
  unfold list_assign. rewrite Hclass.
  assert (Hnone : is_None py_obj = false)
    by (destruct py_obj; try discriminate Hclass; reflexivity).
  rewrite Hnone. cbn [negb orb].
  rewrite list_loop_unchanged; auto.
Qed.

Lemma inferred_list_accepts_witness :
  assign 5 (ListOf (Union [NoneType; NumberType]))
         (PList [PInt 1; PNone; PFloat (FWhole 3)])
  = Returns (ListOf (Union [NoneType; NumberType])).
Proof.
  apply (inferred_list_accepts 5 (PList [PInt 1; PNone; PFloat (FWhole 3)])).
  - reflexivity.
  - repeat constructor.
  - reflexivity.
Defined.

(* ================================================================= *)
(** ** A dict of scalars is accepted by the type inferred for it *)

Lemma scalar_type_accepts (fuel : nat) (v : pyval) (t : wbtype) :
  scalar v = true -> type_of fuel v = Returns t -> assign fuel t v = Returns t.
Proof.
  intros Hv Ht. destruct fuel as [| fuel]; [discriminate |].
  destruct v; try discriminate Hv; cbn in Ht; injection Ht as <-;
    try reflexivity.
  cbn. now rewrite String.eqb_refl.
Qed.

Lemma dict_get_distinct {V : Type} (k : string) (v : V) (d : list (string * V)) :
  distinct (map fst d) = true -> In (k, v) d -> dict_get k d = Some v.
Proof.
  induction d as [| [k' w] rest IH]; [contradiction |].
  intros Hdistinct Hin. apply distinct_cons in Hdistinct.
  destruct Hdistinct as [Hk' Hrest]. cbn [dict_get].
  destruct Hin as [[= -> ->] | Hin]; [now rewrite String.eqb_refl |].
  rewrite (existsb_eqb_false k' k (map fst rest) Hk').
  - now apply IH.
  - change k with (fst (k, v)). now apply in_map.
Qed.

(** [DictType(py_obj)] on a dict with distinct keys: the entries, each
    with what its value is inferred to be *)
Lemma DictType_entries (ty : pyval -> outcome wbtype)
      (d : list (string * pyval)) :
  distinct (map fst d) = true ->
  forall acc tm,
    (forall k, In k (map fst d) -> dict_in k acc = false) ->
    for_each (fun m kv => v <- ty (snd kv) ;; Returns (dict_set (fst kv) v m))
             d acc = Returns tm ->
    exists new,
      tm = (acc ++ new)%list /\ map fst new = map fst d
      /\ Forall2 (fun kv kt => fst kt = fst kv
                                /\ ty (snd kv) = Returns (snd kt)) d new.
Proof.
  induction d as [| [k v] rest IH]; intros Hdistinct acc tm Hfresh Hrun.
  - injection Hrun as <-. exists []. rewrite app_nil_r. now repeat split.
  - apply distinct_cons in Hdistinct. destruct Hdistinct as [Hk Hrest].
    cbn [for_each fst snd] in Hrun. apply bind_returns in Hrun.
    destruct Hrun as (acc1 & Hstep & Hrun).
    apply bind_returns in Hstep. destruct Hstep as (t & Ht & Hstep).
    injection Hstep as <-.
    rewrite dict_set_fresh in Hrun by (apply Hfresh; now left).
    destruct (IH Hrest (acc ++ [(k, t)])%list tm) as (new & -> & Hkeys & Hall);
      [| assumption |].
    + intros k' Hk'. rewrite dict_in_app, Hfresh by now right.
      unfold dict_in. cbn [dict_get orb].
      now rewrite (existsb_eqb_false k k' (map fst rest) Hk Hk').
    + exists ((k, t) :: new). rewrite <- app_assoc. repeat split.
      * cbn [map fst]. now rewrite Hkeys.
      * constructor; [now split | assumption].
Qed.

Lemma Forall2_In_r {A B : Type} (R : A -> B -> Prop) (l : list A)
      (l' : list B) (y : B) :
  Forall2 R l l' -> In y l' -> exists x, In x l /\ R x y.
Proof.
  induction 1 as [| x y' l l' Hxy _ IH]; [contradiction |].
  intros [<- | Hy].
  - exists x. split; [now left | assumption].
  - destruct (IH Hy) as (x' & Hx' & HR). exists x'. split; [now right | assumption].
Qed.

Lemma filter_none {A : Type} (f : A -> bool) (l : list A) :
  (forall x, In x l -> f x = false) -> filter f l = [].
Proof.
  induction l as [| x rest IH]; intros Hall; [reflexivity |].
  cbn [filter]. rewrite (Hall x) by now left.
  apply IH. intros y Hy. apply Hall. now right.
Qed.

Lemma collect_all {A B : Type} (f : A -> outcome (option B)) (l : list A)
      (g : A -> B) :
  (forall x, In x l -> f x = Returns (Some (g x))) ->
  collect f l = Returns (Some (map g l)).
Proof.
  induction l as [| x rest IH]; intros Hall; [reflexivity |].
  cbn [collect]. rewrite (Hall x) by now left. cbn [bind].
  rewrite IH; [reflexivity |]. intros y Hy. apply Hall. now right.
Qed.

(** X27.  A dict with scalar values is accepted by the descriptor
    inferred for it, which is returned as it is. *)
Theorem inferred_dict_accepts (fuel : nat) (d : list (string * pyval))
        (t : wbtype) :
  distinct (map fst d) = true ->
  Forall (fun kv => scalar (snd kv) = true) d ->
  type_of fuel (PDict d) = Returns t ->
  assign fuel t (PDict d) = Returns t.
Proof.
  intros Hdistinct Hscalar Hinfer.
  destruct fuel as [| fuel]; [discriminate |].
  change (type_of (S fuel) (PDict d))
    with (DictType (type_of fuel) (PDict d) KeyPolicy.EXACT) in Hinfer.
  unfold DictType in Hinfer. cbn [entries_of] in Hinfer.
  apply bind_returns in Hinfer. destruct Hinfer as (tm & Hloop & Ht).
  injection Ht as <-.
  destruct (DictType_entries (type_of fuel) d Hdistinct [] tm
              (fun _ _ => eq_refl) Hloop) as (new & -> & Hkeys & Hall).
  cbn [app] in *.
  assert (Hnew : distinct (map fst new) = true) by now rewrite Hkeys.
  cbn [assign assign_body]. rewrite dict_assign_as_spec; auto;
    [| now left].
  unfold spec_dict_assign.
  rewrite (collect_all _ new (fun kt => kt)).
  - rewrite map_id. cbn [bind].
    rewrite filter_none.
    + cbn [collect bind]. now rewrite app_nil_r.
    + intros item Hitem. apply negb_false_iff.
      rewrite (dict_in_keys (fst item) new d Hkeys).
      now apply dict_in_In.
  - intros kt Hkt.
    destruct (Forall2_In_r _ _ _ _ Hall Hkt) as (kv & Hkv & Hkey & Htype).
    rewrite Forall_forall in Hscalar.
    unfold spec_known_key. rewrite Hkey.
    rewrite (dict_get_distinct (fst kv) (snd kv) d Hdistinct)
      by now destruct kv.
    rewrite (scalar_type_accepts fuel (snd kv) (snd kt) (Hscalar kv Hkv) Htype).
    cbn [bind].
    rewrite (type_of_not_never fuel (snd kv) (snd kt) Htype).
    rewrite <- Hkey. now destruct kt.
Qed.

Lemma inferred_dict_accepts_witness :
  assign 2 (Dict [("a", NumberType); ("b", NoneType)] KeyPolicy.EXACT)
         (PDict [("a", PInt 1); ("b", PNone)])
  = Returns (Dict [("a", NumberType); ("b", NoneType)] KeyPolicy.EXACT).
Proof.
  apply (inferred_dict_accepts 2 [("a", PInt 1); ("b", PNone)]).
  - reflexivity.
  - repeat constructor.
  - reflexivity.
Defined.

(* ================================================================= *)
(** ** [ObjectType] *)

(** X26.  An [ObjectType] compares names of classes: the descriptor
    built from a value accepts every value whose class has the name of
    the class of that value, and no other. *)
Theorem object_type_compares_names (fuel : nat) (py_obj other : pyval)
        (t : wbtype) :
  ObjectType py_obj = Returns t ->
  assign (S fuel) t other
  = Returns (if String.eqb (class_name (class_of other))
                           (class_name (class_of py_obj))
             then t else NeverType).
Proof.
  intros H. destruct py_obj; try discriminate H; injection H as <-;
    reflexivity.
Qed.

Lemma object_type_compares_names_witness :
  assign 1 (Object "int") (PInt 5) = Returns (Object "int").
Proof.
  apply (object_type_compares_names 0 (PObj "int" 0) (PInt 5)). reflexivity.
Defined.

(* ================================================================= *)
(** ** The headers of an upload *)

Module UploadJobFacts.
Import UploadJob.

Lemma split1_found (sep : ascii) (s : string) :
  contains_char sep s = true ->
  exists key val,
    split1 sep s = [key; val] /\ s = key ++ String sep val
    /\ contains_char sep key = false.
Proof.
  induction s as [| c rest IH]; simpl; [discriminate |].
  rewrite (Ascii.eqb_sym sep c).
  destruct (Ascii.eqb_spec c sep) as [-> | Hne]; simpl.
  - intros _. exists EmptyString, rest. auto.
  - intros Hrest. destruct (IH Hrest) as (key & val & -> & -> & Hkey).
    exists (String c key), val. simpl.
    rewrite (Ascii.eqb_sym sep c).
    destruct (Ascii.eqb_spec c sep); [contradiction |]. auto.
Qed.

Lemma split1_missing (sep : ascii) (s : string) :
  contains_char sep s = false -> split1 sep s = [s].
Proof.
  induction s as [| c rest IH]; simpl; [reflexivity |].
  rewrite (Ascii.eqb_sym sep c).
  destruct (Ascii.eqb c sep); simpl; [discriminate |].
  intros Hrest. now rewrite IH.
Qed.

Lemma contains_char_app (c : ascii) (s1 s2 : string) :
  contains_char c (s1 ++ s2) = contains_char c s1 || contains_char c s2.
Proof.
  induction s1 as [| d rest IH]; simpl; [reflexivity |].
  rewrite IH. apply orb_assoc.
Qed.

Lemma split1_joined (sep : ascii) (key val : string) :
  contains_char sep key = false ->
  split1 sep (key ++ String sep val) = [key; val].
Proof.
  induction key as [| c rest IH]; simpl.
  - now rewrite Ascii.eqb_refl.
  - rewrite (Ascii.eqb_sym sep c).
    destruct (Ascii.eqb c sep); simpl; [discriminate |].
    intros Hrest. now rewrite IH.
Qed.

(** X17.  A header is split at its first colon: the key holds no
    colon, and key, colon and value put together are the header.  A
    header without a colon fails the unpacking with [ValueError]. *)
Theorem header_split_at_first_colon (upload_header : string) :
  match unpack2 (split1 ":" upload_header) with
  | inl (key, val) =>
      upload_header = key ++ ":" ++ val /\ contains_char ":" key = false
  | inr _ => contains_char ":" upload_header = false
  end.
Proof.
  destruct (contains_char ":" upload_header) eqn:Hcolon.
  - destruct (split1_found _ _ Hcolon) as (key & val & -> & Heq & Hkey).
    cbn [unpack2]. auto.
  - rewrite split1_missing by assumption. reflexivity.
Qed.

Lemma headers_loop_app (hs1 hs2 : list string) (acc : list (string * string)) :
  headers_loop (hs1 ++ hs2) acc
  = match headers_loop hs1 acc with
    | inl d => headers_loop hs2 d
    | inr e => inr e
    end.
Proof.
  revert acc. induction hs1 as [| h rest IH]; intros acc; [reflexivity |].
  cbn [app headers_loop].
  destruct (unpack2 (split1 ":" h)) as [[key val] | e]; [apply IH | reflexivity].
Qed.

(** X18.  Of several headers with one key the last one gives the value
    sent: a header added at the end sets the value under its key and
    leaves the values under the other keys as they are. *)
Theorem last_header_wins (upload_headers : list string) (key val : string)
        (d : list (string * string)) :
  contains_char ":" key = false ->
  extra_headers upload_headers = inl d ->
  exists d',
    extra_headers (upload_headers ++ [key ++ ":" ++ val]) = inl d'
    /\ dict_get key d' = Some val
    /\ forall k, k <> key -> dict_get k d' = dict_get k d.
Proof.
  intros Hkey Hd. unfold extra_headers in *.
  exists (dict_set key val d). rewrite headers_loop_app, Hd.
  cbn [headers_loop].
  change (key ++ ":" ++ val) with (key ++ String ":" val).
  rewrite split1_joined by assumption. cbn [unpack2].
  repeat split.
  - rewrite dict_get_set. now rewrite String.eqb_refl.
  - intros k Hk. rewrite dict_get_set.
    destruct (String.eqb_spec k key); [contradiction | reflexivity].
Qed.

Lemma last_header_wins_witness :
  exists d',
    extra_headers (["Content-Type:text/plain"; "x-amz-meta:a:b"]
                     ++ ["Content-Type" ++ ":" ++ "application/json"])
    = inl d'
    /\ dict_get "Content-Type" d' = Some "application/json"
    /\ forall k, k <> "Content-Type" ->
                 dict_get k d'
                 = dict_get k [("Content-Type", "text/plain");
                               ("x-amz-meta", "a:b")].
Proof.
  apply (last_header_wins ["Content-Type:text/plain"; "x-amz-meta:a:b"]
           "Content-Type" "application/json").
  - reflexivity.
  - reflexivity.
Defined.

Lemma done_flags_app (t1 t2 : list event) :
  done_flags (t1 ++ t2) = (done_flags t1 ++ done_flags t2)%list.
Proof.
  induction t1 as [| e rest IH]; [reflexivity |].
  destruct e; cbn [app done_flags]; rewrite IH; reflexivity.
Qed.

Lemma quiet_app (t1 t2 : list event) : quiet t1 -> quiet t2 -> quiet (t1 ++ t2).
Proof.
  intros [Hf1 Hd1] [Hf2 Hd2]. split.
  - now rewrite existsb_app, Hf1, Hf2.
  - now rewrite done_flags_app, Hd1, Hd2.
Qed.

Lemma quiet_bind {A B : Type} (m : T A) (k : A -> T B) :
  quiet (fst m) -> (forall x, quiet (fst (k x))) -> quiet (fst (bindT m k)).
Proof.
  intros Hm Hk. unfold bindT. destruct (snd m) as [x | e]; cbn [fst].
  - now apply quiet_app.
  - assumption.
Qed.

Lemma quiet_call {A : Type} (c : called A) : quiet (fst (call c)).
Proof. destruct c; now split. Qed.

Lemma quiet_getitem {V : Type} (d : list (string * V)) (key : string) :
  quiet (fst (getitem d key)).
Proof. unfold getitem. destruct (dict_get key d); now split. Qed.

Lemma quiet_progress_all (self : job) (totals : list nat) :
  quiet (fst (progress_all self totals)).
Proof.
  induction totals as [| t rest IH]; [now split |].
  cbn [progress_all]. apply quiet_bind; [now split | intros _; exact IH].
Qed.

Lemma accounted_bind {A : Type} (m : T A) (k : A -> T bool) :
  quiet (fst m) -> (forall x, accounted (k x)) -> accounted (bindT m k).
Proof.
  intros [Hf Hd] Hk. unfold bindT. destruct (snd m) as [x | e].
  - destruct (Hk x) as [Hkd Hks]. split; cbn [fst snd].
    + now rewrite done_flags_app, Hd, Hkd.
    + rewrite existsb_app, Hf. exact Hks.
  - split; assumption.
Qed.

Lemma accounted_upload_failed (file what : string) :
  accounted (upload_failed file what).
Proof. now split. Qed.

Lemma accounted_push (self : job) (w : world) : accounted (push self w).
Proof.
  unfold push.
  destruct (save_fn self) as [[deduped | what] |].
  - apply accounted_bind; [destruct deduped; now split | now split].
  - apply accounted_upload_failed.
  - apply accounted_bind.
    + destruct (truthy (md5 self)).
      * apply quiet_bind; [apply quiet_call | intros response].
        apply quiet_bind; [apply quiet_getitem | now split].
      * apply quiet_bind; [apply quiet_call | intros _].
        apply quiet_bind; [apply quiet_call | intros r].
        apply quiet_bind; [apply quiet_getitem | now split].
    + intros found. destruct (fst found) as [upload_url |].
      * destruct (extra_headers (snd found)) as [d | e]; [| now split].
        destruct (open_file w) as [[] | what];
          [| apply accounted_upload_failed].
        apply accounted_bind; [now split | intros _].
        apply accounted_bind; [apply quiet_progress_all | intros _].
        destruct (snd (upload_file_retry w _ d)) as [[] | what];
          [now split | apply accounted_upload_failed].
      * apply accounted_bind; now split.
Qed.

(** X22.  [push] returns [False] exactly when it recorded the file as
    failed with [update_failed_file]; when it raises, it has recorded
    no failed file. *)
Theorem push_false_iff_failed (self : job) (w : world) :
  match snd (push self w) with
  | inl success => success = negb (existsb failed (fst (push self w)))
  | inr _ => existsb failed (fst (push self w)) = false
  end.
Proof. apply accounted_push. Qed.

Lemma run_trace (self : job) (w : world) :
  run self w
  = let pushed := push self w in
    let success := match snd pushed with inl b => b | inr _ => false end in
    let cleanup := finish self w success in
    ((fst pushed ++ fst cleanup)%list,
     match snd cleanup, snd pushed with
     | inr e, _ => inr e
     | inl _, inr e => inr e
     | inl _, inl _ => inl tt
     end).
Proof.
  unfold run. cbv zeta.
  destruct (snd (push self w)) as [success | e]; unfold bindT; cbn [fst snd].
  - destruct (snd (finish self w success)) as [[] | e']; reflexivity.
  - destruct (snd (finish self w false)) as [[] | e']; cbn [raise fst snd];
      rewrite ?app_nil_r; reflexivity.
Qed.

(** X23.  [run] puts one [EventJobDone] on the queue, whether [push]
    returns or raises, provided the removal of a copied file does not
    raise; its [success] flag is what [push] returned, and [False] when
    [push] raised. *)
Theorem run_reports_once (self : job) (w : world) :
  copied self && isfile w = false \/ remove w = Ok tt ->
  done_flags (fst (run self w))
  = [match snd (push self w) with inl success => success | inr _ => false end].
Proof.
  intros Hremove. rewrite run_trace. cbv zeta. cbn [fst].
  destruct (accounted_push self w) as [Hdone _].
  rewrite done_flags_app, Hdone. cbn [app].
  unfold finish.
  destruct Hremove as [-> | Hremove]; [reflexivity |].
  rewrite Hremove. now destruct (copied self && isfile w).
Qed.

Lemma run_reports_once_witness :
  done_flags (fst (run example_job (example_world (Ok tt)))) = [true].
Proof.
  exact (run_reports_once example_job (example_world (Ok tt))
           (or_intror eq_refl)).
Defined.

(** X24.  When the removal of a copied file raises, [run] puts no
    [EventJobDone] on the queue and raises what the removal raised,
    whatever [push] did. *)
Theorem run_silent_when_remove_raises (self : job) (w : world) (what : string) :
  copied self = true -> isfile w = true -> remove w = Throws what ->
  done_flags (fst (run self w)) = []
  /\ snd (run self w) = inr (Raised what).
Proof.
  intros Hcopied Hisfile Hremove. rewrite run_trace. cbv zeta. cbn [fst snd].
  destruct (accounted_push self w) as [Hdone _].
  rewrite done_flags_app, Hdone. unfold finish.
  rewrite Hcopied, Hisfile, Hremove. now split.
Qed.

Lemma run_silent_when_remove_raises_witness :
  done_flags (fst (run example_job (example_world (Throws "EACCES")))) = []
  /\ snd (run example_job (example_world (Throws "EACCES")))
     = inr (Raised "EACCES").
Proof.
  apply (run_silent_when_remove_raises example_job
           (example_world (Throws "EACCES")) "EACCES"); reflexivity.
Defined.
End UploadJobFacts.

(* ================================================================= *)
(** ** The class of a narrowed descriptor *)

(** X19.  Narrowing does not change the class of a descriptor: what
    [assign] returns is [NeverType] or a descriptor of the class of the
    receiver, except for [UnknownType], which returns what the value is
    inferred to be. *)
Theorem assign_keeps_class (fuel : nat) (t : wbtype) (py_obj : pyval)
        (r : wbtype) :
  isinstance t KUnknown = false ->
  assign fuel t py_obj = Returns r ->
  r = NeverType \/ kind_of r = kind_of t.
Proof.
  intros Hunknown Hrun. destruct fuel as [| fuel]; [discriminate |].
  destruct t; try discriminate Hunknown; cbn [assign assign_body] in Hrun;
    try (injection Hrun as <-;
         match goal with
         | |- (if ?b then _ else _) = _ \/ _ => destruct b
         | _ => idtac
         end; auto; fail).
  - (* Union *)
    rewrite union_assign_as_scan in Hrun. unfold spec_union_assign in Hrun.
    apply bind_returns in Hrun. destruct Hrun as (sr & _ & Hrun).
    destruct sr as [rej n later k | rej [| k]];
      try (injection Hrun as <-; auto; fail).
    apply bind_returns in Hrun. destruct Hrun as (n & _ & Hrun).
    destruct (n == NeverType); injection Hrun as <-; auto.
  - (* ListOf *)
    unfold list_assign in Hrun.
    destruct (is_None py_obj || _); [injection Hrun as <-; auto |].
    apply bind_returns in Hrun. destruct Hrun as ([e |] & _ & Hrun);
      injection Hrun as <-; auto.
  - (* Dict *)
    unfold dict_assign in Hrun.
    destruct (is_None py_obj || _); [injection Hrun as <-; auto |].
    apply bind_returns in Hrun. destruct Hrun as ([m1 |] & _ & Hrun);
      [| injection Hrun as <-; auto].
    apply bind_returns in Hrun. destruct Hrun as ([m2 |] & _ & Hrun);
      injection Hrun as <-; auto.
Qed.

Lemma assign_keeps_class_witness :
  Union [NumberType; TextType] = NeverType
  \/ kind_of (Union [NumberType; TextType])
     = kind_of (Union [TextType; UnknownType]).
Proof.
  apply (assign_keeps_class 3 (Union [TextType; UnknownType]) (PInt 1));
    reflexivity.
Defined.

(* ================================================================= *)
(** ** Optional keys *)

Lemma known_keys_optional (p : string) (tm : list (string * wbtype)) :
  String.eqb p KeyPolicy.EXACT = false ->
  exists n known,
    map fst known = map fst tm
    /\ forall fuel, n <= fuel ->
         collect (spec_known_key (assign fuel) p []) tm = Returns (Some known).
Proof.
  intros Hp. induction tm as [| [k t] rest (n2 & known & Hkeys & IH)].
  - exists 0, []. split; reflexivity.
  - destruct (assign_settles_below 2 PNone (Nat.lt_succ_diag_r 1)
                (scalar_inferable PNone eq_refl) t) as (n1 & r & Hr).
    exists (Nat.max n1 n2),
      ((if r == NeverType then (k, t) else (k, r)) :: known).
    split.
    + cbn [map]. rewrite Hkeys. now destruct (r == NeverType).
    + intros fuel Hfuel. cbn [collect]. unfold spec_known_key at 1.
      cbn [dict_get fst snd].
      rewrite (assign_more_fuel n1 fuel t PNone r) by (auto; lia).
      cbn [bind]. rewrite Hp, IH by lia.
      now destruct (r == NeverType).
Qed.

(** X20.  Under the policies [SUBSET] and [UNRESTRICTED] every key of
    the [type_map] is optional: the empty dict is accepted, and the
    descriptor returned holds the same keys in the same order. *)
Theorem dict_keys_optional (type_map : list (string * wbtype)) (policy : string) :
  policy = KeyPolicy.SUBSET \/ policy = KeyPolicy.UNRESTRICTED ->
  distinct (map fst type_map) = true ->
  exists n new_type_map,
    map fst new_type_map = map fst type_map
    /\ forall fuel, n <= fuel ->
         assign fuel (Dict type_map policy) (PDict [])
         = Returns (Dict new_type_map policy).
Proof.
  intros Hp Hdistinct.
  assert (Hexact : String.eqb policy KeyPolicy.EXACT = false)
    by (destruct Hp as [-> | ->]; reflexivity).
  destruct (known_keys_optional policy type_map Hexact)
    as (n & known & Hkeys & Hknown).
  exists (S n), known. split; [assumption |].
  intros [| fuel] Hfuel; [lia |].
  cbn [assign assign_body]. rewrite dict_assign_as_spec.
  - unfold spec_dict_assign. rewrite Hknown by lia.
    cbn [bind filter collect]. now rewrite app_nil_r.
  - destruct Hp as [-> | ->]; simpl; auto.
  - assumption.
  - reflexivity.
Qed.

Lemma dict_keys_optional_witness :
  exists n new_type_map,
    map fst new_type_map = map fst [("a", NumberType); ("b", NoneType)]
    /\ forall fuel, n <= fuel ->
         assign fuel (Dict [("a", NumberType); ("b", NoneType)] KeyPolicy.SUBSET)
                (PDict [])
         = Returns (Dict new_type_map KeyPolicy.SUBSET).
Proof.
  apply (dict_keys_optional [("a", NumberType); ("b", NoneType)]
           KeyPolicy.SUBSET).
  - now left.
  - reflexivity.
Defined.

(* ================================================================= *)
(** ** A union of any number of descriptors, in any order *)

Lemma all_same_perm {A : Type} (l1 l2 : list A) :
  Permutation l1 l2 ->
  (forall x y, In x l1 -> In y l1 -> x = y) -> l1 = l2.
Proof.
  induction 1 as [| x l l' Hperm IH | x y l | l l' l'' H1 IH1 H2 IH2];
    intros Hsame.
  - reflexivity.
  - f_equal. apply IH. intros a b Ha Hb. apply Hsame; now right.
  - f_equal; [| f_equal]; apply Hsame; simpl; auto.
  - rewrite IH1 by assumption. apply IH2.
    intros a b Ha Hb.
    apply Hsame; apply (Permutation_in _ (Permutation_sym H1)); assumption.
Qed.

Lemma filter_perm {A : Type} (f : A -> bool) (l1 l2 : list A) :
  Permutation l1 l2 -> Permutation (filter f l1) (filter f l2).
Proof.
  induction 1 as [| x l l' Hperm IH | x y l | l l' l'' H1 IH1 H2 IH2]; simpl.
  - constructor.
  - destruct (f x); [now constructor | assumption].
  - destruct (f x), (f y); try reflexivity. apply perm_swap.
  - now transitivity (filter f l').
Qed.

Lemma sort_perm_injective {A : Type} (key : A -> string) (l1 l2 : list A) :
  Permutation l1 l2 ->
  (forall x y, In x l1 -> In y l1 -> key x = key y -> x = y) ->
  sort key l1 = sort key l2.
Proof.
  intros Hperm Hinj. apply sort_unique; [apply sort_sorted |].
  intros c. rewrite sort_filed. unfold filed.
  apply all_same_perm.
  - now apply filter_perm.
  - intros x y Hx Hy. apply filter_In in Hx, Hy.
    destruct Hx as [Hx Hkx], Hy as [Hy Hky].
    apply String.eqb_eq in Hkx, Hky. apply Hinj; congruence.
Qed.

(** X21.  The order in which the members are listed does not change
    the union built from them, whatever their number, provided the
    string form [str] tells the flattened members apart. *)
Theorem union_any_order (l1 l2 : list wbtype) :
  Permutation l1 l2 ->
  (forall x y, In x (flatten_types l1) -> In y (flatten_types l1) ->
               str x = str y -> x = y) ->
  UnionType l1 = UnionType l2.
Proof.
  intros Hperm Hinj. unfold UnionType. f_equal.
  apply sort_perm_injective; [| assumption].
  unfold flatten_types. now apply Permutation_flat_map.
Qed.

Lemma union_any_order_witness :
  UnionType [TextType; Union [NumberType; NoneType]; BooleanType]
  = UnionType [BooleanType; TextType; Union [NumberType; NoneType]].
Proof.
  apply (union_any_order
           [TextType; Union [NumberType; NoneType]; BooleanType]
           [BooleanType; TextType; Union [NumberType; NoneType]]).
  - apply Permutation_sym.
    apply (Permutation_cons_app
             [TextType; Union [NumberType; NoneType]] [] BooleanType).
    rewrite app_nil_r. apply Permutation_refl.
  - cbn. intros x y Hx Hy.
    repeat (destruct Hx as [<- | Hx]); try contradiction;
      repeat (destruct Hy as [<- | Hy]); try contradiction;
      intros H; try reflexivity; discriminate H.
Defined.
